(** * glog: JSON records and the severity-routed sink

    A shallow embedding of the JSON front end of the glog fork (the
    record builder [Json], the constructor [json]/[jheader], the string
    encoder and the sink [outputj]), together with the properties the
    specification states about them.

    Conventions.
    - A Go [string] and a Go [[]byte] are both a [list Z] of byte values
      ([bytes]); [append(p, x...)] is [p ++ x].
    - A [*Json] is an [option Json]; the nil handle is [None].
    - Package-level variables that the code only reads are gathered in
      the record [Globals]; the mutable process state is the record
      [world], threaded through the small monad [M].
    - Go's integer division and remainder truncate towards zero
      ([Z.quot], [Z.rem]).
    - One goroutine runs at a time: taking and releasing [l.mu] are
      events of the run, and so is every write to standard error or
      to the file of a tier. *)

From Stdlib Require Import ZArith List String Ascii Bool Lia.
From Stdlib Require Import DecimalString DecimalFacts DecimalPos.
From stdpp Require Import base gmap.
Import ListNotations.
Local Open Scope Z_scope.

(* ================================================================= *)
(** ** Bytes and literals *)

Abbreviation bytes := (list Z).

(** The byte value of a character. *)
Definition ch (a : ascii) : Z := Z.of_N (N_of_ascii a).
Arguments ch a%_char.

(** A Go string literal without double quotes, as its bytes. *)
Definition lit (t : String.string) : bytes := map ch (list_ascii_of_string t).
Arguments lit t%_string.

(** The double quote and the backslash. *)
Definition dq : Z := 34.
Definition bsl : Z := 92.

Definition len (t : bytes) : Z := Z.of_nat (length t).

(** [t[i]]; Go panics outside [0 <= i < len t], the model reads 0. *)
Definition at_ (t : bytes) (i : Z) : Z := nth (Z.to_nat i) t 0.

(** [t[a:b]] for [0 <= a <= b <= len t]. *)
Definition slice (t : bytes) (a b : Z) : bytes :=
  firstn (Z.to_nat (b - a)) (skipn (Z.to_nat a) t).

(** [t[a:]]. *)
Definition slice_from (t : bytes) (a : Z) : bytes := skipn (Z.to_nat a) t.

Definition bytes_eqb (a b : bytes) : bool :=
  if decide (a = b) then true else false.

Definition is_empty (t : bytes) : bool :=
  match t with [] => true | _ => false end.

(* ================================================================= *)
(** ** The parts of the Go standard library the code calls *)

Module strconv.

(** [strconv.AppendInt(p, i, 10)]: the decimal text of [i]. *)
Definition AppendInt (p : bytes) (i : Z) : bytes :=
  p ++ lit (NilZero.string_of_int (Z.to_int i)).

(** [strconv.AppendUint(p, i, 10)] for an unsigned [i]. *)
Definition AppendUint (p : bytes) (i : Z) : bytes :=
  p ++ lit (NilZero.string_of_uint (N.to_uint (Z.to_N i))).

End strconv.

Module strings.

(** [strings.LastIndex(t, string(c))] for a one-byte separator: the
    index of the last [c] in [t], or -1. *)
Fixpoint last_from (t : bytes) (c : Z) (i : Z) (found : Z) : Z :=
  match t with
  | [] => found
  | b :: r => last_from r c (i + 1) (if b =? c then i else found)
  end.

Definition LastIndex (t : bytes) (c : Z) : Z := last_from t c 0 (-1).

End strings.

Module runtime.

(** One frame of the stack of a goroutine: the program counter at
    which the function of the frame called the next inner one (the
    return address), and the file and line of that call. *)
Record frame := mkFrame { f_pc : Z; f_file : bytes; f_line : Z }.

(** [runtime.Caller(skip)], on the stack of the goroutine with the
    frame of the function that calls [Caller] first: [skip] frames are
    ascended, 0 being the caller of [Caller]; nothing when the stack is
    not that deep ([ok] is false). *)
Definition Caller (skip : nat) (stack : list frame) : option (bytes * Z) :=
  match nth_error stack skip with
  | Some f => Some (f_file f, f_line f)
  | None => None
  end.

(** [runtime.Callers(skip, pcs)] for [1 <= skip], on the same stack:
    here 0 stands for the frame of [Callers] itself and 1 for its
    caller, so the program counters stored are those of the frames
    from number [skip - 1] on. *)
Definition Callers (skip : nat) (stack : list frame) : list Z :=
  map f_pc (skipn (Nat.pred skip) stack).

End runtime.

Module utf8.

Definition RuneSelf : Z := 128.
Definition RuneError : Z := 65533.

(** The size announced by a leading byte: 1 for ASCII, 0 for a byte
    that cannot start a sequence (the table [first] of package
    unicode/utf8). *)
Definition size_of_first (s0 : Z) : Z :=
  if s0 <? 128 then 1
  else if s0 <? 194 then 0
  else if s0 <? 224 then 2
  else if s0 <? 240 then 3
  else if s0 <? 245 then 4
  else 0.

(** The range accepted for the second byte ([acceptRanges]). *)
Definition accept (s0 : Z) : Z * Z :=
  if s0 =? 224 then (160, 191)
  else if s0 =? 237 then (128, 159)
  else if s0 =? 240 then (144, 191)
  else if s0 =? 244 then (128, 143)
  else (128, 191).

(** A continuation byte outside [locb..hicb]. *)
Definition not_cont (b : Z) : bool := (b <? 128) || (191 <? b).

(** [utf8.DecodeRuneInString]: the first rune of [t] and its width;
    [(RuneError, 1)] on an invalid or truncated sequence and
    [(RuneError, 0)] on the empty string. *)
Definition DecodeRuneInString (t : bytes) : Z * Z :=
  match t with
  | [] => (RuneError, 0)
  | s0 :: t1 =>
      let sz := size_of_first s0 in
      if sz =? 1 then (s0, 1)
      else if sz =? 0 then (RuneError, 1)
      else if len t <? sz then (RuneError, 1)
      else
        match t1 with
        | [] => (RuneError, 1)
        | s1 :: t2 =>
            let '(lo, hi) := accept s0 in
            if (s1 <? lo) || (hi <? s1) then (RuneError, 1)
            else if sz <=? 2 then
              (Z.lor (Z.shiftl (Z.land s0 31) 6) (Z.land s1 63), 2)
            else
              match t2 with
              | [] => (RuneError, 1)
              | s2 :: t3 =>
                  if not_cont s2 then (RuneError, 1)
                  else if sz <=? 3 then
                    (Z.lor (Z.lor (Z.shiftl (Z.land s0 15) 12)
                                  (Z.shiftl (Z.land s1 63) 6))
                           (Z.land s2 63), 3)
                  else
                    match t3 with
                    | [] => (RuneError, 1)
                    | s3 :: _ =>
                        if not_cont s3 then (RuneError, 1)
                        else
                          (Z.lor (Z.lor (Z.lor (Z.shiftl (Z.land s0 7) 18)
                                               (Z.shiftl (Z.land s1 63) 12))
                                        (Z.shiftl (Z.land s2 63) 6))
                                 (Z.land s3 63), 4)
                    end
              end
        end
  end.

End utf8.

(* ================================================================= *)
(** ** Severity *)

(** The severity tiers, in increasing order; [sevnum] is the integer
    the code compares and indexes with. *)
Inductive severity := infoLog | warningLog | errorLog | fatalLog.

Definition sevnum (s : severity) : Z :=
  match s with
  | infoLog => 0
  | warningLog => 1
  | errorLog => 2
  | fatalLog => 3
  end.

#[global] Instance severity_eq_dec : EqDecision severity.
Proof. solve_decision. Defined.

Definition sev_le (a b : severity) : Prop := sevnum a <= sevnum b.
Definition sev_leb (a b : severity) : bool := sevnum a <=? sevnum b.

Definition lowerSeverityName (s : severity) : bytes :=
  match s with
  | infoLog => lit "info"
  | warningLog => lit "warning"
  | errorLog => lit "error"
  | fatalLog => lit "fatal"
  end.

(* ================================================================= *)
(** ** Package variables and the record handle *)

(** [JVersion], [JFieldPrefix] and [JEscapeHTML] are the package
    variables of the JSON front end; [host] and [pid] are set once at
    start-up by the plain-text front end. *)
Record Globals := mkGlobals {
  JVersion : bytes;
  JFieldPrefix : bytes;
  JEscapeHTML : bool;
  host : bytes;
  pid : Z
}.

(** [type Json struct]. The slice [p] starts as [buf[:65]] and grows
    by [append]; the appends touch [buf] only from index 65 on, which
    the header writer never reads, so [jp] carries the bytes of [p]
    and [jbuf] the array as the header writer sees it. *)
Record Json := mkJson {
  jbuf : bytes;
  jp : bytes;
  js : severity;
  jfile : bytes;
  jline : Z
}.

Definition with_p (j : Json) (p : bytes) : Json :=
  mkJson (jbuf j) p (js j) (jfile j) (jline j).

Definition with_buf (j : Json) (b : bytes) : Json :=
  mkJson b (jp j) (js j) (jfile j) (jline j).

(** [new(Json)]: the zero value. *)
Definition new_Json : Json :=
  mkJson (repeat 0 1024) [] infoLog [] 0.

(* ================================================================= *)
(** ** The string encoder *)

Definition hex : bytes := lit "0123456789abcdef".

(** The entries of [safeSet] that hold [true]. *)
Definition safeSet_true : bytes :=
  lit " !#$%&'()*+,-./0123456789:;<=>?@ABCDEFGHIJKLMNOPQRSTUVWXYZ[]^_`abcdefghijklmnopqrstuvwxyz{|}~"
  ++ [127].

(** The entries of [htmlSafeSet] that hold [true]. *)
Definition htmlSafeSet_true : bytes :=
  lit " !#$%'()*+,-./0123456789:;=?@ABCDEFGHIJKLMNOPQRSTUVWXYZ[]^_`abcdefghijklmnopqrstuvwxyz{|}~"
  ++ [127].

Definition safeSet (b : Z) : bool := existsb (Z.eqb b) safeSet_true.
Definition htmlSafeSet (b : Z) : bool := existsb (Z.eqb b) htmlSafeSet_true.

(** One turn of the loop of the method [string] of [Json]: from
    [(i, start, p)] to the next [(i, start, p)]. *)
Definition string_step (t : bytes) (escapeHTML : bool)
    (i start : Z) (p : bytes) : Z * Z * bytes :=
  let b := at_ t i in
  if b <? utf8.RuneSelf then
    if htmlSafeSet b || (negb escapeHTML && safeSet b) then
      (i + 1, start, p)
    else
      let p := if start <? i then p ++ slice t start i else p in
      let p :=
        if (b =? bsl) || (b =? dq) then p ++ [bsl; b]
        else if b =? 10 then p ++ [bsl; ch "n"]
        else if b =? 13 then p ++ [bsl; ch "r"]
        else if b =? 9 then p ++ [bsl; ch "t"]
        else
          p ++ [bsl; ch "u"; ch "0"; ch "0";
                at_ hex (Z.shiftr b 4); at_ hex (Z.land b 15)] in
      (i + 1, i + 1, p)
  else
    let '(c, size) := utf8.DecodeRuneInString (slice_from t i) in
    if (c =? utf8.RuneError) && (size =? 1) then
      let p := if start <? i then p ++ slice t start i else p in
      let p := p ++ [bsl; ch "u"; ch "f"; ch "f"; ch "f"; ch "d"] in
      (i + size, i + size, p)
    else if (c =? 8232) || (c =? 8233) then
      let p := if start <? i then p ++ slice t start i else p in
      let p := p ++ [bsl; ch "u"; ch "2"; ch "0"; ch "2";
                     at_ hex (Z.land c 15)] in
      (i + size, i + size, p)
    else
      (i + size, start, p).

(** The loop [for i := 0; i < len(s); { ... }]; [None] when the fuel
    runs out before the loop ends. *)
Fixpoint string_loop (fuel : nat) (t : bytes) (escapeHTML : bool)
    (i start : Z) (p : bytes) : option (Z * bytes) :=
  if i <? len t then
    match fuel with
    | O => None
    | S fuel' =>
        let '(i', start', p') := string_step t escapeHTML i start p in
        string_loop fuel' t escapeHTML i' start' p'
    end
  else Some (start, p).

(** The method [string] of [Json], on the slice [p]: the quoted,
    escaped text of [t] appended to [p]. Every turn of the loop
    advances [i] by at least one, so [length t] turns are enough
    ([string_loop_total]) and the last branch is never taken. *)
Definition string (t : bytes) (escapeHTML : bool) (p : bytes) : bytes :=
  let p := p ++ [dq] in
  match string_loop (length t) t escapeHTML 0 0 p with
  | Some (start, p) =>
      let p := if start <? len t then p ++ slice_from t start else p in
      p ++ [dq]
  | None => p
  end.


(* ================================================================= *)
(** ** Field builders *)

Section Builders.

(** [strconv.AppendFloat(p, f, 'f', -1, bitSize)]: floating point is
    outside the model; the formatter is a parameter. *)
Variable float : Type.
Variable AppendFloat : bytes -> float -> Z -> bytes.

Variable g : Globals.

Definition Int64 (j : option Json) (name : bytes) (i : Z) : option Json :=
  match j with
  | Some j =>
      let p := jp j ++ [ch ","; dq] in
      let p := if negb (is_empty (JFieldPrefix g))
               then p ++ JFieldPrefix g else p in
      let p := p ++ name in
      let p := p ++ [dq; ch ":"] in
      let p := strconv.AppendInt p i in
      Some (with_p j p)
  | None => None
  end.

Definition Uint64 (j : option Json) (name : bytes) (i : Z) : option Json :=
  match j with
  | Some j =>
      let p := jp j ++ [ch ","; dq] in
      let p := if negb (is_empty (JFieldPrefix g))
               then p ++ JFieldPrefix g else p in
      let p := p ++ name in
      let p := p ++ [dq; ch ":"] in
      let p := strconv.AppendUint p i in
      Some (with_p j p)
  | None => None
  end.

(** The integer builders widen to [Int64] and [Uint64]. *)
Definition Int := Int64.
Definition Int8 := Int64.
Definition Int16 := Int64.
Definition Int32 := Int64.
Definition Uint := Uint64.
Definition Uint8 := Uint64.
Definition Uint16 := Uint64.
Definition Uint32 := Uint64.

Definition Float32 (j : option Json) (name : bytes) (f : float)
    : option Json :=
  match j with
  | Some j =>
      let p := jp j ++ [ch ","; dq] in
      let p := if negb (is_empty (JFieldPrefix g))
               then p ++ JFieldPrefix g else p in
      let p := p ++ name in
      let p := p ++ [dq; ch ":"] in
      let p := AppendFloat p f 32 in
      Some (with_p j p)
  | None => None
  end.

Definition Float64 (j : option Json) (name : bytes) (f : float)
    : option Json :=
  match j with
  | Some j =>
      let p := jp j ++ [ch ","; dq] in
      let p := if negb (is_empty (JFieldPrefix g))
               then p ++ JFieldPrefix g else p in
      let p := p ++ name in
      let p := p ++ [dq; ch ":"] in
      let p := AppendFloat p f 64 in
      Some (with_p j p)
  | None => None
  end.

Definition Bool (j : option Json) (name : bytes) (b : bool) : option Json :=
  match j with
  | Some j =>
      let p := jp j ++ [ch ","; dq] in
      let p := if negb (is_empty (JFieldPrefix g))
               then p ++ JFieldPrefix g else p in
      let p := p ++ name in
      let p := if b then p ++ [dq; ch ":"] ++ lit "true"
               else p ++ [dq; ch ":"] ++ lit "false" in
      Some (with_p j p)
  | None => None
  end.

(** [Err]: [err] is the text [err.Error()] of a non-nil error (on a
    nil error with a live handle Go panics). *)
Definition Err (j : option Json) (err : bytes) : option Json :=
  match j with
  | Some j =>
      let p := jp j ++ ([ch ","; dq] ++ lit "error" ++ [dq; ch ":"]) in
      let p := string err (JEscapeHTML g) p in
      Some (with_p j p)
  | None => None
  end.

Definition Str (j : option Json) (name : bytes) (t : bytes) : option Json :=
  match j with
  | Some j =>
      let p := jp j ++ [ch ","; dq] in
      let p := if negb (is_empty (JFieldPrefix g))
               then p ++ JFieldPrefix g else p in
      let p := p ++ name in
      let p := p ++ [dq; ch ":"] in
      let p := string t (JEscapeHTML g) p in
      Some (with_p j p)
  | None => None
  end.

(** The loop [for i, s := range ss] of [Strs]; [i] is the index of
    the head of [rest] and [n] is [len(ss)]. *)
Fixpoint Strs_loop (rest : list bytes) (i n : Z) (p : bytes) : bytes :=
  match rest with
  | [] => p
  | t :: rest' =>
      let p := string t (JEscapeHTML g) p in
      let p := if i <? n - 1 then p ++ [ch ","] else p in
      Strs_loop rest' (i + 1) n p
  end.

Definition Strs (j : option Json) (name : bytes) (ss : list bytes)
    : option Json :=
  match j with
  | Some j =>
      let p := jp j ++ [dq] in
      let p := if negb (is_empty (JFieldPrefix g))
               then p ++ JFieldPrefix g else p in
      let p := p ++ name in
      let p := p ++ [dq; ch ":"; ch "["] in
      let p := Strs_loop ss 0 (Z.of_nat (length ss)) p in
      let p := p ++ [ch "]"; ch ","] in
      Some (with_p j p)
  | None => None
  end.

(** The bytes [Msg] completes the record with, before handing it to
    the sink. *)
Definition Msg_bytes (p : bytes) (t : bytes) : bytes :=
  let p :=
    if negb (is_empty t) then
      let p := p ++ ([ch ","; dq] ++ lit "message" ++ [dq; ch ":"]) in
      string t false p
    else p in
  p ++ [ch "}"; 10].

End Builders.

(* ================================================================= *)
(** ** The record header *)

(** What [jheader] reads of [timeNow()]: [now.Date()], [now.Clock()],
    the zone offset in seconds, [now.Nanosecond()] and [now.Unix()]. *)
Record Time := mkTime {
  t_year : Z; t_month : Z; t_day : Z;
  t_hour : Z; t_minute : Z; t_second : Z;
  t_offset : Z;
  t_nanosecond : Z;
  t_unix : Z
}.

(** [const digits = "0123456789"], declared by the plain-text front
    end. *)
Definition digits : bytes := lit "0123456789".

(** [j.buf[i] = v]. *)
Definition set_buf (i : Z) (v : Z) (b : bytes) : bytes :=
  <[Z.to_nat i := v]> b.

(** Consecutive assignments [j.buf[i] = v0; j.buf[i+1] = v1; ...]. *)
Fixpoint store (i : Z) (vs : bytes) (b : bytes) : bytes :=
  match vs with
  | [] => b
  | v :: vs' => store (i + 1) vs' (set_buf i v b)
  end.

Definition twoDigits (i d : Z) (b : bytes) : bytes :=
  let b := set_buf (i + 1) (at_ digits (Z.rem d 10)) b in
  let d := Z.quot d 10 in
  set_buf i (at_ digits (Z.rem d 10)) b.

(** Turns enough for a loop that divides [d] by ten until it is 0. *)
Definition dec_fuel (d : Z) : nat := S (Z.to_nat (Z.log2 (Z.abs d))).

(** [for ; d != 0; k-- { i--; j.buf[i] = digits[d%10]; d /= 10 }]. *)
Fixpoint put_digits (fuel : nat) (d i k : Z) (b : bytes) : Z * Z * bytes :=
  match fuel with
  | O => (i, k, b)
  | S fuel' =>
      if d =? 0 then (i, k, b)
      else
        let i := i - 1 in
        let b := set_buf i (at_ digits (Z.rem d 10)) b in
        put_digits fuel' (Z.quot d 10) i (k - 1) b
  end.

(** [for ; k != 0; k-- { i--; j.buf[i] = '0' }], for [0 <= k]. *)
Fixpoint put_zeros (k : nat) (i : Z) (b : bytes) : Z * bytes :=
  match k with
  | O => (i, b)
  | S k' => let i := i - 1 in put_zeros k' i (set_buf i (ch "0") b)
  end.

(** The method [timestamp]: the index it returns and the array. *)
Definition timestamp (i : Z) (now : Time) (b : bytes) : Z * bytes :=
  let i := i + 17 in
  let d := Z.quot (t_nanosecond now) 1000 in
  let '(i, k, b) := put_digits (dec_fuel d) d i 6 b in
  let '(i, b) := put_zeros (Z.to_nat k) i b in
  let i := i - 1 in
  let b := set_buf i (ch ".") b in
  let d := t_unix now in
  let '(i, _, b) := put_digits (dec_fuel d) d i 0 b in
  (i, b).

(** [jheader], applied to the object [j] that [jbufpool.Get()]
    delivered. The fields [s], [file] and [line] of [j] are not
    assigned: the function writes [buf] and [p] only. *)
Definition jheader (g : Globals) (now : Time) (j : Json)
    (s : severity) (level : Z) (file : bytes) (line : Z) : Json :=
  let year := t_year now in
  let b := jbuf j in
  let b := store 0 ([ch "{"; dq] ++ lit "time" ++ [dq; ch ":"; dq]) b in
  let b := set_buf 12 (at_ digits (Z.rem year 10)) b in
  let year := Z.quot year 10 in
  let b := set_buf 11 (at_ digits (Z.rem year 10)) b in
  let year := Z.quot year 10 in
  let b := set_buf 10 (at_ digits (Z.rem year 10)) b in
  let year := Z.quot year 10 in
  let b := set_buf 9 (at_ digits (Z.rem year 10)) b in
  let b := set_buf 13 (ch "-") b in
  let b := twoDigits 14 (t_month now) b in
  let b := set_buf 16 (ch "-") b in
  let b := twoDigits 17 (t_day now) b in
  let b := set_buf 19 (ch "T") b in
  let b := twoDigits 20 (t_hour now) b in
  let b := set_buf 22 (ch ":") b in
  let b := twoDigits 23 (t_minute now) b in
  let b := set_buf 25 (ch ":") b in
  let b := twoDigits 26 (t_second now) b in
  let offset := t_offset now in
  let '(b, offset) :=
    if offset >? 0 then (set_buf 28 (ch "+") b, Z.quot offset 60)
    else (set_buf 28 (ch "-") b, Z.quot (- offset) 60) in
  let b := twoDigits 29 (Z.quot offset 60) b in
  let b := set_buf 31 (ch ":") b in
  let b := twoDigits 32 (Z.rem offset 60) b in
  let b := store 34 ([dq; ch ","; dq] ++ lit "timestamp" ++ [dq; ch ":"]) b in
  let '(_, b) := timestamp 48 now b in
  let p := firstn 65 b in
  let p := p ++ ([ch ","; dq] ++ lit "level" ++ [dq; ch ":"; dq]) in
  let p := p ++ lowerSeverityName s in
  let p :=
    if negb (is_empty (JVersion g)) then
      let p := p ++ ([dq; ch ","; dq] ++ lit "version" ++ [dq; ch ":"; dq]) in
      p ++ JVersion g
    else p in
  let p := p ++ ([dq; ch ","; dq] ++ lit "host" ++ [dq; ch ":"; dq]) in
  let p := p ++ host g in
  let p := p ++ ([dq; ch ","; dq] ++ lit "pid" ++ [dq; ch ":"]) in
  let p := strconv.AppendInt p (pid g) in
  let p := p ++ ([ch ","; dq] ++ lit "file" ++ [dq; ch ":"; dq]) in
  let p := p ++ file in
  let p := p ++ ([dq; ch ","; dq] ++ lit "line" ++ [dq; ch ":"]) in
  let p := strconv.AppendInt p line in
  mkJson b p (js j) (jfile j) (jline j).


(* ================================================================= *)
(** ** Process state and effects *)

(** [traceLocation]: its methods [isSet] and [match] belong to the
    plain-text front end; the state carries what they answer. *)
Record traceLocation := mkTraceLocation {
  tl_isSet : bool;
  tl_match : bytes -> Z -> bool
}.

(** The fields of [loggingT] the JSON front end uses. [l_file s] tells
    whether [l.file[s]] is non-nil. *)
Record loggingT := mkLogging {
  toStderr : bool;
  alsoToStderr : bool;
  stderrThreshold : severity;
  l_traceLocation : traceLocation;
  l_file : severity -> bool;
  verbosity : Z;
  filterLength : Z;
  vmap : gmap Z Z
}.

(** What the process does to the outside, in order. *)
Inductive event :=
| EvLock                                  (* l.mu.Lock() *)
| EvUnlock                                (* l.mu.Unlock() *)
| EvStderr (data : bytes)                 (* os.Stderr.Write(data) *)
| EvFile (s : severity) (data : bytes)    (* l.file[s].Write(data) *)
| EvFlush (seconds : Z)                   (* timeoutFlush(d) *)
| EvExit (err : bytes).                   (* l.exit(err) *)

(** [OutputStats]: lines and bytes. *)
Record OutputStats := mkStats { st_lines : Z; st_bytes : Z }.

Record world := mkWorld {
  logging : loggingT;
  flag_Parsed : bool;
  fatalNoStacks : Z;
  logExitFunc : bool;
  timeNow : Time;
  jbufpool : list Json;
  severityStats : severity -> option OutputStats;
  trace : list event
}.

Definition with_logging (w : world) (l : loggingT) : world :=
  mkWorld l (flag_Parsed w) (fatalNoStacks w) (logExitFunc w) (timeNow w)
          (jbufpool w) (severityStats w) (trace w).

Definition with_logExitFunc (w : world) (f : bool) : world :=
  mkWorld (logging w) (flag_Parsed w) (fatalNoStacks w) f (timeNow w)
          (jbufpool w) (severityStats w) (trace w).

Definition with_jbufpool (w : world) (pool : list Json) : world :=
  mkWorld (logging w) (flag_Parsed w) (fatalNoStacks w) (logExitFunc w)
          (timeNow w) pool (severityStats w) (trace w).

Definition with_severityStats (w : world)
    (st : severity -> option OutputStats) : world :=
  mkWorld (logging w) (flag_Parsed w) (fatalNoStacks w) (logExitFunc w)
          (timeNow w) (jbufpool w) st (trace w).

Definition with_trace (w : world) (tr : list event) : world :=
  mkWorld (logging w) (flag_Parsed w) (fatalNoStacks w) (logExitFunc w)
          (timeNow w) (jbufpool w) (severityStats w) tr.

Definition with_vmap (l : loggingT) (m : gmap Z Z) : loggingT :=
  mkLogging (toStderr l) (alsoToStderr l) (stderrThreshold l)
            (l_traceLocation l) (l_file l) (verbosity l) (filterLength l) m.

(** How a call ends: it returns, the process exits with a status, or
    the goroutine panics (a nil dereference). *)
Inductive outcome (A : Type) :=
| Returned (a : A) (w : world)
| Exited (code : Z) (w : world)
| Panicked (w : world).
Arguments Returned {A} a w.
Arguments Exited {A} code w.
Arguments Panicked {A} w.

Definition final {A} (o : outcome A) : world :=
  match o with
  | Returned _ w => w
  | Exited _ w => w
  | Panicked w => w
  end.

Definition M (A : Type) : Type := world -> outcome A.

Definition ret {A} (a : A) : M A := fun w => Returned a w.

Definition bind {A B} (m : M A) (k : A -> M B) : M B :=
  fun w =>
    match m w with
    | Returned a w' => k a w'
    | Exited c w' => Exited c w'
    | Panicked w' => Panicked w'
    end.

Declare Scope go_scope.
Delimit Scope go_scope with go.
Notation "x <- m ;; k" := (bind m (fun x => k))
  (at level 100, m at next level, k at level 200, right associativity)
  : go_scope.
Notation "m ;; k" := (bind m (fun _ => k))
  (at level 100, k at level 200, right associativity) : go_scope.
Local Open Scope go_scope.

Definition get {A} (f : world -> A) : M A := fun w => Returned (f w) w.
Definition emit (e : event) : M unit :=
  fun w => Returned tt (with_trace w (trace w ++ [e])).
Definition when (c : bool) (m : M unit) : M unit := if c then m else ret tt.

Definition Lock : M unit := emit EvLock.
Definition Unlock : M unit := emit EvUnlock.
Definition Stderr_Write (data : bytes) : M unit := emit (EvStderr data).

(** [logExitFunc = func(error) {}]. *)
Definition set_logExitFunc : M unit :=
  fun w => Returned tt (with_logExitFunc w true).

(** [os.Exit(code)]. *)
Definition os_Exit {A} (code : Z) : M A := fun w => Exited code w.

(** [l.file[s].Write(data)]: a nil entry panics. *)
Definition file_Write (s : severity) (data : bytes) : M unit :=
  fun w =>
    if l_file (logging w) s then emit (EvFile s data) w else Panicked w.

(** [jbufpool.Get()]: a pooled object, or a new one. *)
Definition jbufpool_Get : M Json :=
  fun w =>
    match jbufpool w with
    | [] => Returned new_Json w
    | j :: pool => Returned j (with_jbufpool w pool)
    end.

(** [jbufpool.Put(buf)]. *)
Definition jbufpool_Put (buf : Json) : M unit :=
  fun w => Returned tt (with_jbufpool w (buf :: jbufpool w)).

(** The two atomic additions on [severityStats[s]], when it is set. *)
Definition add_stats (s : severity) (n : Z) : M unit :=
  fun w =>
    match severityStats w s with
    | Some st =>
        let st' := mkStats (st_lines st + 1) (st_bytes st + n) in
        Returned tt
          (with_severityStats w
             (fun t => if decide (t = s) then Some st' else severityStats w t))
    | None => Returned tt w
    end.

(** The bytes written to standard error, and the chunks written to
    the file of a tier, in a run of events. *)
Definition stderr_of (tr : list event) : bytes :=
  concat (map (fun e => match e with EvStderr d => d | _ => [] end) tr).

Definition file_writes (t : severity) (tr : list event) : list bytes :=
  flat_map (fun e => match e with
                     | EvFile s d => if decide (s = t) then [d] else []
                     | _ => []
                     end) tr.

(* ================================================================= *)
(** ** The sink *)

Section Sink.

(** [stacks(all)]: the stack trace of the current goroutine, or of
    all goroutines. *)
Variable stacks : bool -> bytes.

(** [l.createFiles(s)], of the plain-text front end: the error it
    returns, if any, the state of [l] it leaves and what it does to
    the outside. *)
Variable createFiles :
  severity -> loggingT -> option bytes * loggingT * list event.

(** The exit status of [l.exit]. *)
Variable exit_status : Z.

(** Modelled from the spec: [l.exit(err)] belongs to the plain-text
    front end. Of a file-creation failure the spec says that "the
    condition is treated as fatal to the whole process": the call
    ends the process, with a status the spec leaves open. *)
Definition exit (err : bytes) : M unit :=
  emit (EvExit err) ;; os_Exit exit_status.

(** Modelled from the spec: [timeoutFlush(d)] belongs to the
    plain-text front end; the spec has it "flush everything with a
    bounded timeout". The run records the call and its bound. *)
Definition timeoutFlush (seconds : Z) : M unit := emit (EvFlush seconds).

Definition createFiles_M (s : severity) : M (option bytes) :=
  fun w =>
    let '(err, l', evs) := createFiles s (logging w) in
    Returned err (with_trace (with_logging w l') (trace w ++ evs)).

(** The [switch s] of [outputj], with its [fallthrough]s. *)
Definition fan_out (s : severity) (data : bytes) : M unit :=
  match s with
  | fatalLog =>
      file_Write fatalLog data ;; file_Write errorLog data ;;
      file_Write warningLog data ;; file_Write infoLog data
  | errorLog =>
      file_Write errorLog data ;; file_Write warningLog data ;;
      file_Write infoLog data
  | warningLog =>
      file_Write warningLog data ;; file_Write infoLog data
  | infoLog =>
      file_Write infoLog data
  end.

(** [for log := fatalLog; log >= infoLog; log--] of the fatal
    branch. *)
Definition write_trace (tr : bytes) : M unit :=
  fold_right
    (fun log k =>
       open <- get (fun w => l_file (logging w) log) ;;
       when open (file_Write log tr) ;; k)
    (ret tt)
    [fatalLog; errorLog; warningLog; infoLog].

(** The bytes [outputj] writes: [buf.p], with the stack of the
    current goroutine appended at a matching trace location. *)
Definition record_data (l : loggingT) (buf : Json) (file : bytes)
    (line : Z) : bytes :=
  if tl_isSet (l_traceLocation l)
     && tl_match (l_traceLocation l) file line
  then jp buf ++ stacks false
  else jp buf.

Definition outputj (s : severity) (buf : Json) (file : bytes) (line : Z)
    (alsoToStderr_arg : bool) : M unit :=
  Lock ;;
  l <- get logging ;;
  let buf := with_p buf (record_data l buf file line) in
  let data := jp buf in
  parsed <- get flag_Parsed ;;
  (if negb parsed then
     Stderr_Write (lit "ERROR: logging before flag.Parse: ") ;;
     Stderr_Write data
   else if toStderr l then
     Stderr_Write data
   else
     when (alsoToStderr_arg || alsoToStderr l
           || (sevnum s >=? sevnum (stderrThreshold l)))
          (Stderr_Write data) ;;
     when (negb (l_file l s))
          (err <- createFiles_M s ;;
           match err with
           | Some e => Stderr_Write data ;; exit e
           | None => ret tt
           end) ;;
     fan_out s data) ;;
  if decide (s = fatalLog) then
    noStacks <- get fatalNoStacks ;;
    when (noStacks >? 0)
         (Unlock ;; timeoutFlush 10 ;; os_Exit 1) ;;
    l <- get logging ;;
    when (negb (toStderr l)) (Stderr_Write (stacks false)) ;;
    let tr := stacks true in
    set_logExitFunc ;;
    write_trace tr ;;
    Unlock ;;
    timeoutFlush 10 ;;
    os_Exit 255
  else
    jbufpool_Put buf ;;
    Unlock ;;
    add_stats s (len data).

(** [Msg]. *)
Definition Msg (j : option Json) (t : bytes) : M unit :=
  match j with
  | Some j =>
      let j := with_p j (Msg_bytes (jp j) t) in
      outputj (js j) j (jfile j) (jline j) false
  | None => ret tt
  end.

(** [fmt.Sprintf(format, v...)]. *)
Variable arg : Type.
Variable Sprintf : bytes -> list arg -> bytes.

(** [Msgf]. *)
Definition Msgf (j : option Json) (format : bytes) (v : list arg) : M unit :=
  match j with
  | None => Msg j (Sprintf format v)
  | Some _ => ret tt
  end.

(** [l.setV(pc)], of the plain-text front end: the threshold it
    resolves for the program counter and the state it leaves. *)
Variable setV : Z -> loggingT -> Z * loggingT.

Variable g : Globals.

(** The first lines of [json]: the file and line of the call site.
    [caller] is what [runtime.Caller(2)] reports: the file and line,
    or nothing when [ok] is false. *)
Definition call_site (caller : option (bytes * Z)) : bytes * Z :=
  let '(file, line) :=
    match caller with
    | None => (lit "???", 1)
    | Some (file, line) =>
        let slash := strings.LastIndex file (ch "/") in
        (if slash >=? 0 then slice_from file (slash + 1) else file, line)
    end in
  let line := if line <? 0 then 0 else line in
  (file, line).

Definition jheader_M (s : severity) (level : Z) (file : bytes) (line : Z)
    : M Json :=
  now <- get timeNow ;;
  j <- jbufpool_Get ;;
  ret (jheader g now j s level file line).

(** [json]. [caller] is what [runtime.Caller(2)] reports and [callers]
    are the program counters that [runtime.Callers(2, ...)] stores, of
    which the code reads the first, [logging.pcs[0]]; [json_on] below
    reads both off the stack. *)
Definition json (caller : option (bytes * Z)) (callers : list Z)
    (s : severity) (level : Z) : M (option Json) :=
  let '(file, line) := call_site caller in
  l <- get logging ;;
  if verbosity l >=? level then
    j <- jheader_M s level file line ;; ret (Some j)
  else if filterLength l >? 0 then
    Lock ;;
    match callers with
    | [] => Unlock ;; ret None
    | pc :: _ =>
        l <- get logging ;;
        v <- match vmap l !! pc with
             | Some v => ret v
             | None =>
                 fun w =>
                   let '(v, l') := setV pc (logging w) in
                   Returned v (with_logging w l')
             end ;;
        if v >=? level then
          j <- jheader_M s level file line ;; Unlock ;; ret (Some j)
        else Unlock ;; ret None
    end
  else ret None.

(** [json] on the stack of the goroutine: the frame of [json] first,
    then that of its caller, the wrapper ([J], [JInfo], ...), then that
    of the caller of the wrapper, where the call site is. [Caller]
    counts from the caller of [Caller], so [runtime.Caller(2)] is the
    frame of the call site; [Callers] counts from [Callers] itself, so
    what [runtime.Callers(2, ...)] stores first is the return address
    in the wrapper. Neither call reads the frame of [json] itself. *)
Definition json_on (stack : list runtime.frame) (s : severity) (level : Z)
    : M (option Json) :=
  json (runtime.Caller 2 stack) (runtime.Callers 2 stack) s level.

(** The wrappers; [stack] is the stack when [json] runs. *)
Definition J (stack : list runtime.frame) (level : Z)
    : M (option Json) := json_on stack infoLog level.
Definition JInfo (stack : list runtime.frame)
    : M (option Json) := json_on stack infoLog 0.
Definition JWarning (stack : list runtime.frame)
    : M (option Json) := json_on stack warningLog 0.
Definition JError (stack : list runtime.frame)
    : M (option Json) := json_on stack errorLog 0.
Definition JFatal (stack : list runtime.frame)
    : M (option Json) := json_on stack fatalLog 0.

End Sink.

(* ================================================================= *)
(** ** The JSON grammar (RFC 8259)

    A recognizer for JSON texts over bytes, used to state that a record
    is or is not syntactically valid JSON. Bytes from 128 on are
    accepted inside strings as they are. *)

Module rfc8259.

Definition is_ws (b : Z) : bool :=
  (b =? 32) || (b =? 9) || (b =? 10) || (b =? 13).

Fixpoint skip_ws (t : bytes) : bytes :=
  match t with
  | b :: r => if is_ws b then skip_ws r else t
  | [] => []
  end.

Definition is_digit (b : Z) : bool := (48 <=? b) && (b <=? 57).

Definition is_hex (b : Z) : bool :=
  is_digit b || ((97 <=? b) && (b <=? 102)) || ((65 <=? b) && (b <=? 70)).

Fixpoint skip_digits (t : bytes) : bytes :=
  match t with
  | b :: r => if is_digit b then skip_digits r else t
  | [] => []
  end.

(** One or more digits. *)
Definition digits1 (t : bytes) : option bytes :=
  match t with
  | b :: r => if is_digit b then Some (skip_digits r) else None
  | [] => None
  end.

(** The characters of a string after its opening quote, up to and
    including the closing quote; the rest of the input. *)
Fixpoint chars (t : bytes) : option bytes :=
  match t with
  | [] => None
  | b :: r =>
      if b =? dq then Some r
      else if b =? bsl then
        match r with
        | [] => None
        | e :: r1 =>
            if existsb (Z.eqb e) ([dq; bsl] ++ lit "/bfnrt") then chars r1
            else if e =? ch "u" then
              match r1 with
              | h1 :: h2 :: h3 :: h4 :: r2 =>
                  if is_hex h1 && is_hex h2 && is_hex h3 && is_hex h4
                  then chars r2 else None
              | _ => None
              end
            else None
        end
      else if b <? 32 then None
      else chars r
  end.

Definition exponent (t : bytes) : option bytes :=
  match t with
  | e :: r =>
      if (e =? ch "e") || (e =? ch "E") then
        match r with
        | sg :: r1 =>
            if (sg =? ch "+") || (sg =? ch "-") then digits1 r1
            else digits1 r
        | [] => None
        end
      else Some t
  | [] => Some t
  end.

Definition fraction (t : bytes) : option bytes :=
  match t with
  | d :: r =>
      if d =? ch "." then
        match digits1 r with
        | Some r1 => exponent r1
        | None => None
        end
      else exponent t
  | [] => Some t
  end.

Definition number (t : bytes) : option bytes :=
  let t := match t with
           | m :: r => if m =? ch "-" then r else t
           | [] => t
           end in
  match t with
  | d :: r =>
      if d =? ch "0" then fraction r
      else if is_digit d then fraction (skip_digits r)
      else None
  | [] => None
  end.

(** [t] after the literal [w], when [t] starts with it. *)
Fixpoint after (w t : bytes) : option bytes :=
  match w, t with
  | [], _ => Some t
  | a :: w', b :: t' => if a =? b then after w' t' else None
  | _ :: _, [] => None
  end.

(** What a recognizer answers: the rest of the input, a syntax
    error, or that it ran out of turns. *)
Inductive answer := Rest (t : bytes) | Bad | Short.

Definition of_option (o : option bytes) : answer :=
  match o with Some t => Rest t | None => Bad end.

(** A value; the members of an object after its brace, up to the
    closing brace; the elements of an array after its bracket, up to
    the closing bracket. *)
Fixpoint value (n : nat) (t : bytes) : answer :=
  match n with
  | O => Short
  | S n' =>
      match skip_ws t with
      | [] => Bad
      | b :: r =>
          if b =? ch "{" then
            match skip_ws r with
            | c :: r1 => if c =? ch "}" then Rest r1 else members n' r
            | [] => Bad
            end
          else if b =? ch "[" then
            match skip_ws r with
            | c :: r1 => if c =? ch "]" then Rest r1 else elements n' r
            | [] => Bad
            end
          else if b =? dq then of_option (chars r)
          else if b =? ch "t" then of_option (after (lit "rue") r)
          else if b =? ch "f" then of_option (after (lit "alse") r)
          else if b =? ch "n" then of_option (after (lit "ull") r)
          else of_option (number (b :: r))
      end
  end
with members (n : nat) (t : bytes) : answer :=
  match n with
  | O => Short
  | S n' =>
      match skip_ws t with
      | b :: r =>
          if b =? dq then
            match chars r with
            | Some r1 =>
                match skip_ws r1 with
                | c :: r2 =>
                    if c =? ch ":" then
                      match value n' r2 with
                      | Rest r3 =>
                          match skip_ws r3 with
                          | x :: r4 =>
                              if x =? ch "," then members n' r4
                              else if x =? ch "}" then Rest r4
                              else Bad
                          | [] => Bad
                          end
                      | other => other
                      end
                    else Bad
                | [] => Bad
                end
            | None => Bad
            end
          else Bad
      | [] => Bad
      end
  end
with elements (n : nat) (t : bytes) : answer :=
  match n with
  | O => Short
  | S n' =>
      match value n' t with
      | Rest r =>
          match skip_ws r with
          | x :: r1 =>
              if x =? ch "," then elements n' r1
              else if x =? ch "]" then Rest r1
              else Bad
          | [] => Bad
          end
      | other => other
      end
  end.

(** A JSON text: one value between white space. *)
Definition text (n : nat) (t : bytes) : answer :=
  match value n t with
  | Rest r => if is_empty (skip_ws r) then Rest [] else Bad
  | other => other
  end.

Definition valid (t : bytes) : Prop :=
  exists n, text n t = Rest [].

Definition invalid (t : bytes) : Prop :=
  exists n, text n t = Bad.

End rfc8259.

(* ================================================================= *)
(** ** Searching a record, and a sample process *)

(** [t] starts with [pat]; [pat] occurs in [t]. *)
Fixpoint starts_with (pat t : bytes) : bool :=
  match pat, t with
  | [], _ => true
  | a :: pat', b :: t' => (a =? b) && starts_with pat' t'
  | _ :: _, [] => false
  end.

Fixpoint occurs (pat t : bytes) : bool :=
  starts_with pat t ||
  match t with
  | [] => false
  | _ :: t' => occurs pat t'
  end.

(** The global with another field prefix. *)
Definition with_JFieldPrefix (g : Globals) (pre : bytes) : Globals :=
  mkGlobals (JVersion g) pre (JEscapeHTML g) (host g) (pid g).

(** A concrete process, for the examples: flags parsed, logging to
    files with all four tiers open, stderr echo from ERROR on, no
    vmodule filter, verbosity 0. *)
Module Sample.

Definition g : Globals := mkGlobals [] [] false (lit "db1") 4242.

(** The same with [JEscapeHTML] set. *)
Definition g_html : Globals := mkGlobals [] [] true (lit "db1") 4242.

Definition now : Time :=
  mkTime 2024 3 9 14 5 59 (-18000) 123456789 1710000000.

Definition l : loggingT :=
  mkLogging false false errorLog
            (mkTraceLocation false (fun _ _ => false))
            (fun _ => true) 0 0 ∅.

Definition w : world := mkWorld l true 0 false now [] (fun _ => None) [].

(** The same before [flag.Parse]. *)
Definition w_unparsed : world :=
  mkWorld l false 0 false now [] (fun _ => None) [].

(** The same with no file open yet. *)
Definition w_nofile : world :=
  mkWorld (mkLogging false false errorLog
                     (mkTraceLocation false (fun _ _ => false))
                     (fun _ => false) 0 0 ∅)
          true 0 false now [] (fun _ => None) [].

Definition stacks (all : bool) : bytes :=
  if all then lit "goroutine 1 [running]: goroutine 2 [sleep]:"
  else lit "goroutine 1 [running]:".

(** A [createFiles] that opens the tiers from [s] down, and one that
    fails. *)
Definition createFiles (s : severity) (l : loggingT)
    : option bytes * loggingT * list event :=
  (None,
   mkLogging (toStderr l) (alsoToStderr l) (stderrThreshold l)
             (l_traceLocation l)
             (fun t => l_file l t || sev_leb t s)
             (verbosity l) (filterLength l) (vmap l),
   []).

Definition createFiles_fails (s : severity) (l : loggingT)
    : option bytes * loggingT * list event :=
  (Some (lit "permission denied"), l, []).

Definition setV (pc : Z) (l : loggingT) : Z * loggingT :=
  (0, with_vmap l (<[pc := 0]> (vmap l))).

(** The same with one vmodule filter and the program counter 4096
    cached at threshold 2. *)
Definition w_vmodule : world :=
  mkWorld (mkLogging false false errorLog
                     (mkTraceLocation false (fun _ _ => false))
                     (fun _ => true) 0 1 (<[4096 := 2]> ∅))
          true 0 false now [] (fun _ => None) [].

(** The handle of a call [JInfo()] at main.go:42. *)
Definition handle : Json :=
  jheader g now new_Json infoLog 0 (lit "main.go") 42.

Definition handle_html : Json :=
  jheader g_html now new_Json infoLog 0 (lit "main.go") 42.

End Sample.

(** The bytes of the record that [Msg] hands to the sink for a handle
    and a message; nothing for the nil handle. *)
Definition finish (j : option Json) (t : bytes) : bytes :=
  match j with
  | Some j => Msg_bytes (jp j) t
  | None => []
  end.

(** *** Predicates on what the encoder writes *)

(** The escape sequences the encoder writes. *)
Inductive escape : bytes -> Prop :=
| esc_quote (b : Z) : b = bsl \/ b = dq -> escape [bsl; b]
| esc_n : escape [bsl; ch "n"]
| esc_r : escape [bsl; ch "r"]
| esc_t : escape [bsl; ch "t"]
| esc_ctl (b : Z) :
    b < 128 ->
    escape [bsl; ch "u"; ch "0"; ch "0";
            at_ hex (Z.shiftr b 4); at_ hex (Z.land b 15)]
| esc_bad : escape [bsl; ch "u"; ch "f"; ch "f"; ch "f"; ch "d"]
| esc_sep (c : Z) :
    escape [bsl; ch "u"; ch "2"; ch "0"; ch "2"; at_ hex (Z.land c 15)].

(** The invariant of the loop of [string]: [p] is the opening quote
    and a body that satisfies [Q], and the bytes of [t] from [start]
    to [i], not yet copied, satisfy [R]. *)
Definition encoder_inv (Q : bytes -> Prop) (R : Z -> Prop) (t : bytes)
    (i start : Z) (p : bytes) : Prop :=
  exists done,
    p = dq :: done /\ Q done /\ 0 <= start <= i /\ i <= len t /\
    Forall R (slice t start i).

(** A byte that may stand in a JSON string as it is. *)
Definition raw_ok (b : Z) : Prop := 32 <= b /\ b <> dq /\ b <> bsl.

(** Bytes that the string recognizer reads through. *)
Definition body_ok (x : bytes) : Prop :=
  forall rest, rfc8259.chars (x ++ rest) = rfc8259.chars rest.

(** A byte that is none of <, > and &. *)
Definition no_html (b : Z) : Prop :=
  b <> ch "<" /\ b <> ch ">" /\ b <> ch "&".

(** A computation that only adds to the trace. *)
Definition grows {A} (m : M A) : Prop :=
  forall w, exists evs, trace (final (m w)) = trace w ++ evs.


(* ================================================================= *)
(** ** Definitions for the further properties *)

(** The tiers the sink writes a record of severity [s] to, in the
    order of the writes. *)
Definition tiers_down (s : severity) : list severity :=
  match s with
  | fatalLog => [fatalLog; errorLog; warningLog; infoLog]
  | errorLog => [errorLog; warningLog; infoLog]
  | warningLog => [warningLog; infoLog]
  | infoLog => [infoLog]
  end.

(** One more line of [n] bytes. *)
Definition count_line (n : Z) (st : OutputStats) : OutputStats :=
  mkStats (st_lines st + 1) (st_bytes st + n).



(** ** The encoder, rune by rune *)

(** What the loop of [string] writes for a byte below 128 that is not
    let through: the [switch b]. *)
Definition ascii_escape (b : Z) : bytes :=
  if (b =? bsl) || (b =? dq) then [bsl; b]
  else if b =? 10 then [bsl; ch "n"]
  else if b =? 13 then [bsl; ch "r"]
  else if b =? 9 then [bsl; ch "t"]
  else [bsl; ch "u"; ch "0"; ch "0";
        at_ hex (Z.shiftr b 4); at_ hex (Z.land b 15)].

(** The text [x] that the loop of [string] writes for an input [t],
    one rune after the other: the branches of the loop, without the
    bookkeeping of [start]. *)
Inductive encodes (e : bool) : bytes -> bytes -> Prop :=
| enc_nil : encodes e [] []
| enc_safe (b : Z) (r x : bytes) :
    b < 128 ->
    htmlSafeSet b || (negb e && safeSet b) = true ->
    encodes e r x ->
    encodes e (b :: r) (b :: x)
| enc_escape (b : Z) (r x : bytes) :
    b < 128 ->
    htmlSafeSet b || (negb e && safeSet b) = false ->
    encodes e r x ->
    encodes e (b :: r) (ascii_escape b ++ x)
| enc_bad (b : Z) (r x : bytes) (c size : Z) :
    128 <= b ->
    utf8.DecodeRuneInString (b :: r) = (c, size) ->
    (c =? utf8.RuneError) && (size =? 1) = true ->
    encodes e r x ->
    encodes e (b :: r)
            ([bsl; ch "u"; ch "f"; ch "f"; ch "f"; ch "d"] ++ x)
| enc_sep (b : Z) (r x : bytes) (c size : Z) :
    128 <= b ->
    utf8.DecodeRuneInString (b :: r) = (c, size) ->
    (c =? utf8.RuneError) && (size =? 1) = false ->
    (c =? 8232) || (c =? 8233) = true ->
    encodes e (skipn (Z.to_nat size) (b :: r)) x ->
    encodes e (b :: r)
            ([bsl; ch "u"; ch "2"; ch "0"; ch "2"; at_ hex (Z.land c 15)]
             ++ x)
| enc_rune (b : Z) (r x : bytes) (c size : Z) :
    128 <= b ->
    utf8.DecodeRuneInString (b :: r) = (c, size) ->
    (c =? utf8.RuneError) && (size =? 1) = false ->
    (c =? 8232) || (c =? 8233) = false ->
    encodes e (skipn (Z.to_nat size) (b :: r)) x ->
    encodes e (b :: r) (firstn (Z.to_nat size) (b :: r) ++ x).

(** The invariant of the loop: whatever the rest of the input encodes
    to, the bytes written and the bytes pending, followed by it, are
    an encoding of the whole input. *)
Definition encodes_inv (e : bool) (t : bytes) (i start : Z) (p : bytes)
    : Prop :=
  exists done,
    p = dq :: done /\ 0 <= start <= i /\ i <= len t /\
    forall x, encodes e (slice_from t i) x ->
              encodes e t (done ++ slice t start i ++ x).


(** ** Reading a JSON string back *)

(** The value of a hexadecimal digit. *)
Definition hexval (h : Z) : option Z :=
  if (48 <=? h) && (h <=? 57) then Some (h - 48)
  else if (97 <=? h) && (h <=? 102) then Some (h - 87)
  else if (65 <=? h) && (h <=? 70) then Some (h - 55)
  else None.

Definition hex4 (h1 h2 h3 h4 : Z) : option Z :=
  match hexval h1, hexval h2, hexval h3, hexval h4 with
  | Some a, Some b, Some c, Some d => Some (((a * 16 + b) * 16 + c) * 16 + d)
  | _, _, _, _ => None
  end.

(** The UTF-8 bytes of a code point of the basic plane that is not a
    surrogate ([utf8.AppendRune]). *)
Definition EncodeRune (c : Z) : option bytes :=
  if c <? 0 then None
  else if c <? 128 then Some [c]
  else if c <? 2048 then
    Some [Z.lor 192 (Z.shiftr c 6); Z.lor 128 (Z.land c 63)]
  else if (55296 <=? c) && (c <=? 57343) then None
  else if c <? 65536 then
    Some [Z.lor 224 (Z.shiftr c 12);
          Z.lor 128 (Z.land (Z.shiftr c 6) 63);
          Z.lor 128 (Z.land c 63)]
  else None.

(** The character a two-byte escape stands for (RFC 8259, section
    7). *)
Definition simple_escape (e : Z) : option Z :=
  if e =? dq then Some dq
  else if e =? bsl then Some bsl
  else if e =? ch "/" then Some (ch "/")
  else if e =? ch "b" then Some 8
  else if e =? ch "f" then Some 12
  else if e =? ch "n" then Some 10
  else if e =? ch "r" then Some 13
  else if e =? ch "t" then Some 9
  else None.

(** The text that the characters [x] of a JSON string (what stands
    between the quotes) denote, as UTF-8 bytes; nothing when [x] holds
    a bare quote, a control byte, a broken escape or the escape of a
    surrogate. *)
Fixpoint unescape (x : bytes) : option bytes :=
  match x with
  | [] => Some []
  | b :: r =>
      if b =? bsl then
        match r with
        | [] => None
        | e :: r1 =>
            if e =? ch "u" then
              match r1 with
              | h1 :: h2 :: h3 :: h4 :: r2 =>
                  match hex4 h1 h2 h3 h4 with
                  | Some c =>
                      match EncodeRune c, unescape r2 with
                      | Some u, Some s => Some (u ++ s)
                      | _, _ => None
                      end
                  | None => None
                  end
              | _ => None
              end
            else
              match simple_escape e, unescape r1 with
              | Some c, Some s => Some (c :: s)
              | _, _ => None
              end
        end
      else if (b =? dq) || (b <? 32) then None
      else
        match unescape r with
        | Some s => Some (b :: s)
        | None => None
        end
  end.

(** A text that consists of valid UTF-8 sequences
    ([utf8.ValidString]): [DecodeRuneInString] never answers
    [(RuneError, 1)] at the start of a rune. *)
Inductive ValidString : bytes -> Prop :=
| valid_nil : ValidString []
| valid_ascii (b : Z) (r : bytes) :
    0 <= b < 128 -> ValidString r -> ValidString (b :: r)
| valid_rune (b : Z) (r : bytes) (c size : Z) :
    128 <= b ->
    utf8.DecodeRuneInString (b :: r) = (c, size) ->
    (c =? utf8.RuneError) && (size =? 1) = false ->
    ValidString (skipn (Z.to_nat size) (b :: r)) ->
    ValidString (b :: r).

(** ** Decimal fields of the header *)

(** [digits[d%10]]. *)
Definition digit (d : Z) : Z := at_ digits (Z.rem d 10).

(** The last [n] decimal digits of [d], most significant first. *)
Fixpoint dec (n : nat) (d : Z) : bytes :=
  match n with
  | O => []
  | S n' => dec n' (Z.quot d 10) ++ [digit d]
  end.

(** ** The text of the header *)

(** The zone of the time of day: the sign and the offset in hours and
    minutes. *)
Definition header_zone (offset : Z) : bytes :=
  if offset >? 0 then
    [ch "+"] ++ dec 2 (Z.quot (Z.quot offset 60) 60) ++ [ch ":"]
    ++ dec 2 (Z.rem (Z.quot offset 60) 60)
  else
    [ch "-"] ++ dec 2 (Z.quot (Z.quot (- offset) 60) 60) ++ [ch ":"]
    ++ dec 2 (Z.rem (Z.quot (- offset) 60) 60).

(** The value of the key "time". *)
Definition header_time (now : Time) : bytes :=
  dec 4 (t_year now) ++ [ch "-"] ++ dec 2 (t_month now) ++ [ch "-"]
  ++ dec 2 (t_day now) ++ [ch "T"] ++ dec 2 (t_hour now) ++ [ch ":"]
  ++ dec 2 (t_minute now) ++ [ch ":"] ++ dec 2 (t_second now)
  ++ header_zone (t_offset now).

(** The value of the key "timestamp". *)
Definition header_timestamp (now : Time) : bytes :=
  dec 10 (t_unix now) ++ [ch "."]
  ++ dec 6 (Z.quot (t_nanosecond now) 1000).

(** The header as one text: what a handle holds when a constructor
    returns it. *)
Definition header_text (g : Globals) (now : Time) (s : severity)
    (file : bytes) (line : Z) : bytes :=
  [ch "{"; dq] ++ lit "time" ++ [dq; ch ":"; dq] ++ header_time now
  ++ [dq; ch ","; dq] ++ lit "timestamp" ++ [dq; ch ":"]
  ++ header_timestamp now
  ++ [ch ","; dq] ++ lit "level" ++ [dq; ch ":"; dq] ++ lowerSeverityName s
  ++ (if is_empty (JVersion g) then []
      else [dq; ch ","; dq] ++ lit "version" ++ [dq; ch ":"; dq]
           ++ JVersion g)
  ++ [dq; ch ","; dq] ++ lit "host" ++ [dq; ch ":"; dq] ++ host g
  ++ [dq; ch ","; dq] ++ lit "pid" ++ [dq; ch ":"]
  ++ strconv.AppendInt [] (pid g)
  ++ [ch ","; dq] ++ lit "file" ++ [dq; ch ":"; dq] ++ file
  ++ [dq; ch ","; dq] ++ lit "line" ++ [dq; ch ":"]
  ++ strconv.AppendInt [] line.

(** ** Whole records *)

(** What [jheader] needs of the time: fields that are not negative, a
    time of ten digits of seconds (from 2001-09-09 to 2286-11-20), and
    nanoseconds within one second. *)
Definition Time_ok (now : Time) : Prop :=
  0 <= t_year now /\ 0 <= t_month now /\ 0 <= t_day now /\
  0 <= t_hour now /\ 0 <= t_minute now /\ 0 <= t_second now /\
  10 ^ 9 <= t_unix now < 10 ^ 10 /\
  0 <= t_nanosecond now < 10 ^ 9.

(** What [jheader] needs of the time to index [digits] within its
    bounds: fields that are not negative, and nanoseconds within one
    second. *)
Definition Time_valid (now : Time) : Prop :=
  0 <= t_year now /\ 0 <= t_month now /\ 0 <= t_day now /\
  0 <= t_hour now /\ 0 <= t_minute now /\ 0 <= t_second now /\
  0 <= t_unix now /\
  0 <= t_nanosecond now < 10 ^ 9.

(** A text that needs no escaping between quotes. *)
Definition plain (t : bytes) : Prop := Forall raw_ok t.

(** One call of a builder that takes a name and a scalar, or of
    [Err]. *)
Inductive field :=
| FInt (name : bytes) (i : Z)
| FUint (name : bytes) (i : Z)
| FBool (name : bytes) (b : bool)
| FStr (name : bytes) (t : bytes)
| FErr (err : bytes).

Definition field_name (f : field) : bytes :=
  match f with
  | FInt name _ | FUint name _ | FBool name _ | FStr name _ => name
  | FErr _ => []
  end.

Definition add_field (g : Globals) (j : option Json) (f : field)
    : option Json :=
  match f with
  | FInt name i => Int64 g j name i
  | FUint name i => Uint64 g j name i
  | FBool name b => Bool g j name b
  | FStr name t => Str g j name t
  | FErr err => Err g j err
  end.

(** A chain of builder calls on a handle. *)
Definition build (g : Globals) (j : option Json) (fs : list field)
    : option Json :=
  fold_left (add_field g) fs j.

(** A text between quotes; a member of an object; members that follow
    another, each behind its comma. *)
Definition quoted (s : bytes) : bytes := dq :: s ++ [dq].

Definition member_text (key v : bytes) : bytes :=
  dq :: key ++ dq :: ch ":" :: v.

Fixpoint members_text (ms : list (bytes * bytes)) : bytes :=
  match ms with
  | [] => []
  | (key, v) :: ms' => ch "," :: member_text key v ++ members_text ms'
  end.

(** The members of the header after "time". *)
Definition header_members (g : Globals) (now : Time) (s : severity)
    (file : bytes) (line : Z) : list (bytes * bytes) :=
  [(lit "timestamp", header_timestamp now);
   (lit "level", quoted (lowerSeverityName s))]
  ++ (if is_empty (JVersion g) then []
      else [(lit "version", quoted (JVersion g))])
  ++ [(lit "host", quoted (host g));
      (lit "pid", strconv.AppendInt [] (pid g));
      (lit "file", quoted file);
      (lit "line", strconv.AppendInt [] line)].

(** A byte that ends a member: the comma or the closing brace. *)
Definition delim (c : Z) : Prop := c = ch "," \/ c = ch "}".

(** A text that the value recognizer reads as one value when a
    delimiter follows. *)
Definition scalar (v : bytes) : Prop :=
  forall c rest n, delim c ->
    rfc8259.value (S n) (v ++ c :: rest) = rfc8259.Rest (c :: rest).

(** A tail that closes an object and leaves [r]: the brace, or a
    comma and members up to the brace. *)
Definition closes (tail r : bytes) : Prop :=
  tail = ch "}" :: r \/
  exists n tail', tail = ch "," :: tail' /\
                  rfc8259.members n tail' = rfc8259.Rest r.

(** A buffer that holds an object up to, and without, its closing
    brace. *)
Definition open_record (p : bytes) : Prop :=
  exists body,
    p = ch "{" :: dq :: body /\
    forall tail r, closes tail r ->
      exists n, rfc8259.members n (dq :: body ++ tail) = rfc8259.Rest r.

(** A text without control bytes: in particular, without a newline. *)
Definition printable (x : bytes) : Prop := Forall (fun b => 32 <= b) x.

(** ** The mutex *)

(** An event that is neither the lock nor the unlock. *)
Definition no_lock (e : event) : Prop := e <> EvLock /\ e <> EvUnlock.

(** A computation that leaves the mutex alone: it adds events that
    are neither lock nor unlock, and when it ends the process it does
    so with the given status, the call of [l.exit] being its last
    event. *)
Definition holds_lock {A} (status : Z) (m : M A) : Prop :=
  forall w, exists evs,
    trace (final (m w)) = trace w ++ evs /\
    Forall no_lock evs /\
    match m w with
    | Exited c _ => c = status /\ exists pre err, evs = pre ++ [EvExit err]
    | _ => True
    end.

(** *** More sample values *)

(** The sample process in stderr-only mode. *)
Definition sample_w_stderr : world :=
  mkWorld (mkLogging true false errorLog
                     (mkTraceLocation false (fun _ _ => false))
                     (fun _ => true) 0 0 ∅)
          true 0 false Sample.now [] (fun _ => None) [].

(** A clock that was never set: five seconds after the epoch. *)
Definition sample_early : Time := mkTime 1970 1 1 0 0 5 0 0 5.

(** A text with the letter a, the character <, a newline, the line
    separator U+2028 and a two-byte rune. *)
Definition sample_text : bytes := [97; 60; 10; 226; 128; 168; 195; 169].

(** A chain of builder calls. *)
Definition sample_fields : list field :=
  [FStr (lit "user") sample_text; FInt (lit "n") (-3);
   FUint (lit "size") 10; FBool (lit "ok") true; FErr (lit "boom")].

(** The stack when [json] runs for a call of a wrapper at
    /src/app/main.go:42: the frame of [json], the frame of the wrapper
    with the return address 4096 in json.go, the frame of the caller
    with the return address 8192 at the call site, and the frame of
    the function that started the goroutine. *)
Definition sample_stack : list runtime.frame :=
  [runtime.mkFrame 12288 (lit "/go/src/glog/json.go") 224;
   runtime.mkFrame 4096 (lit "/go/src/glog/json.go") 47;
   runtime.mkFrame 8192 (lit "/src/app/main.go") 42;
   runtime.mkFrame 16384 (lit "/go/src/runtime/proc.go") 250].

(** What [setV] resolves under the one rule main=2: the program
    counter 8192 lies in main.go and gets 2, every other one lies in
    another file and gets 0; the answer is cached. *)
Definition sample_setV_main (pc : Z) (l : loggingT) : Z * loggingT :=
  let v := if pc =? 8192 then 2 else 0 in
  (v, with_vmap l (<[pc := v]> (vmap l))).

(** The sample process with one vmodule filter and nothing cached. *)
Definition sample_w_filter : world :=
  mkWorld (mkLogging false false errorLog
                     (mkTraceLocation false (fun _ _ => false))
                     (fun _ => true) 0 1 ∅)
          true 0 false Sample.now [] (fun _ => None) [].

(* ================================================================= *)
(** * Properties *)

(** ** The string encoder ends, and only appends *)

Lemma DecodeRuneInString_size (b : Z) (t : bytes) :
  1 <= snd (utf8.DecodeRuneInString (b :: t)) <= 4.
Proof.
  unfold utf8.DecodeRuneInString.
  repeat case_match; simpl; lia.
Qed.

Lemma slice_from_cons (t : bytes) (i : Z) :
  0 <= i < len t -> exists b r, slice_from t i = b :: r.
Proof.
  unfold slice_from, len. intros Hi.
  destruct (skipn (Z.to_nat i) t) as [|b r] eqn:E; [|eauto].
  apply (f_equal (@length Z)) in E. rewrite length_skipn in E.
  simpl in E. lia.
Qed.

(** A turn of the loop moves [i] forward and keeps [start <= i]. *)
Lemma string_step_advance (t : bytes) (e : bool) (i start : Z) (p : bytes) :
  0 <= i < len t ->
  i + 1 <= (string_step t e i start p).1.1.
Proof.
  intros Hi. unfold string_step.
  destruct (slice_from_cons t i Hi) as (b & r & ->).
  pose proof (DecodeRuneInString_size b r) as Hsz.
  destruct (utf8.DecodeRuneInString (b :: r)) as [c size]; simpl in Hsz.
  repeat case_match; simpl; lia.
Qed.

Lemma string_loop_total (fuel : nat) (t : bytes) (e : bool)
    (i start : Z) (p : bytes) :
  0 <= i -> len t - i <= Z.of_nat fuel ->
  is_Some (string_loop fuel t e i start p).
Proof.
  revert i start p. induction fuel as [|fuel IH]; intros i start p Hi Hf.
  - simpl. destruct (i <? len t) eqn:E; [apply Z.ltb_lt in E; lia | eauto].
  - simpl. destruct (i <? len t) eqn:E; [|eauto].
    apply Z.ltb_lt in E.
    pose proof (string_step_advance t e i start p (conj Hi E)) as Hadv.
    destruct (string_step t e i start p) as [[i' start'] p']; simpl in Hadv.
    apply IH; lia.
Qed.

(** The loop of [string] always runs to its end within [length t]
    turns: the fall-back branch of [string] is never taken. *)
Lemma string_runs (t : bytes) (e : bool) (p : bytes) :
  exists start p',
    string_loop (length t) t e 0 0 (p ++ [dq]) = Some (start, p') /\
    string t e p =
      (if start <? len t then p' ++ slice_from t start else p') ++ [dq].
Proof.
  destruct (string_loop_total (length t) t e 0 0 (p ++ [dq])) as [[st p'] H];
    [lia | unfold len; lia |].
  exists st, p'. split; [exact H|]. unfold string. rewrite H. reflexivity.
Qed.

Lemma string_step_app (t : bytes) (e : bool) (i start : Z) (p0 p : bytes) :
  string_step t e i start (p0 ++ p) =
  let '(i', start', p') := string_step t e i start p in (i', start', p0 ++ p').
Proof.
  unfold string_step.
  repeat case_match; simplify_eq; rewrite <- ?app_assoc; reflexivity.
Qed.

Lemma string_loop_app (fuel : nat) (t : bytes) (e : bool)
    (i start : Z) (p0 p : bytes) :
  string_loop fuel t e i start (p0 ++ p) =
  match string_loop fuel t e i start p with
  | Some (start', p') => Some (start', p0 ++ p')
  | None => None
  end.
Proof.
  revert i start p. induction fuel as [|fuel IH]; intros i start p; simpl.
  - destruct (i <? len t); reflexivity.
  - destruct (i <? len t); [|reflexivity].
    rewrite string_step_app.
    destruct (string_step t e i start p) as [[i' start'] p']. apply IH.
Qed.

(** [string] appends to [p]: what it adds does not depend on [p]. *)
Lemma string_app (t : bytes) (e : bool) (p : bytes) :
  string t e p = p ++ string t e [].
Proof.
  unfold string. simpl.
  rewrite (string_loop_app (length t) t e 0 0 p [dq]).
  destruct (string_loop (length t) t e 0 0 [dq]) as [[st p']|].
  - destruct (st <? len t); rewrite <- ?app_assoc; reflexivity.
  - reflexivity.
Qed.


(** ** What the string encoder writes *)

Lemma skipn_nth (t : bytes) (n : nat) :
  (n < length t)%nat -> skipn n t = nth n t 0 :: skipn (S n) t.
Proof.
  revert n. induction t as [|b t IH]; intros n Hn; simpl in Hn; [lia|].
  destruct n as [|n]; [reflexivity|]. simpl. apply IH. lia.
Qed.

Lemma slice_from_at (t : bytes) (i : Z) :
  0 <= i < len t -> slice_from t i = at_ t i :: slice_from t (i + 1).
Proof.
  intros Hi. unfold slice_from, at_, len in *.
  rewrite skipn_nth by lia. f_equal. f_equal. lia.
Qed.

Lemma slice_app (t : bytes) (a b c : Z) :
  0 <= a <= b -> b <= c ->
  slice t a c = slice t a b ++ slice t b c.
Proof.
  intros Hab Hbc. unfold slice.
  replace (Z.to_nat (c - a)) with (Z.to_nat (b - a) + Z.to_nat (c - b))%nat
    by lia.
  replace (Z.to_nat b) with (Z.to_nat a + Z.to_nat (b - a))%nat by lia.
  rewrite <- drop_drop, take_take_drop. reflexivity.
Qed.

Lemma slice_width (t : bytes) (i n : Z) :
  0 <= n -> slice t i (i + n) = firstn (Z.to_nat n) (slice_from t i).
Proof.
  intros Hn. unfold slice, slice_from. f_equal. lia.
Qed.

Lemma slice_one (t : bytes) (i : Z) :
  0 <= i < len t -> slice t i (i + 1) = [at_ t i].
Proof.
  intros Hi. rewrite slice_width by lia. rewrite slice_from_at by lia.
  reflexivity.
Qed.

Lemma slice_nil (t : bytes) (i : Z) : slice t i i = [].
Proof. unfold slice. rewrite Z.sub_diag. reflexivity. Qed.

Lemma slice_to_end (t : bytes) (a : Z) :
  0 <= a -> slice t a (len t) = slice_from t a.
Proof.
  intros Ha. unfold slice, slice_from, len.
  apply take_ge. rewrite length_drop. lia.
Qed.

(** Turns boolean comparisons in the hypotheses into propositions. *)
Ltac bool_hyps :=
  repeat match goal with
         | H : (_ <? _) = true |- _ => apply Z.ltb_lt in H
         | H : (_ <? _) = false |- _ => apply Z.ltb_ge in H
         | H : (_ <=? _) = true |- _ => apply Z.leb_le in H
         | H : (_ <=? _) = false |- _ => apply Z.leb_gt in H
         | H : (_ =? _) = true |- _ => apply Z.eqb_eq in H
         | H : (_ =? _) = false |- _ => apply Z.eqb_neq in H
         | H : (_ || _) = false |- _ => apply orb_false_iff in H; destruct H
         | H : (_ || _) = true |- _ => apply orb_true_iff in H
         | H : (_ && _) = true |- _ => apply andb_true_iff in H; destruct H
         | H : negb _ = true |- _ => apply negb_true_iff in H
         | H : negb _ = false |- _ => apply negb_false_iff in H
         end.

Lemma accept_low (s0 : Z) : 128 <= (utf8.accept s0).1.
Proof. unfold utf8.accept. repeat case_match; simpl; lia. Qed.

(** A sequence that decodes to something else than [(RuneError, 1)]
    and starts at or above 128 consists of [size] bytes, all at or
    above 128. *)
Lemma DecodeRuneInString_high (s0 : Z) (r : bytes) (c size : Z) :
  128 <= s0 ->
  utf8.DecodeRuneInString (s0 :: r) = (c, size) ->
  (c =? utf8.RuneError) && (size =? 1) = false ->
  1 <= size /\
  (Z.to_nat size <= length (s0 :: r))%nat /\
  Forall (fun b => 128 <= b) (firstn (Z.to_nat size) (s0 :: r)).
Proof.
  intros Hs0 H Hne. unfold utf8.DecodeRuneInString in H.
  pose proof (accept_low s0) as Hlo.
  unfold utf8.size_of_first, utf8.not_cont, len in H.
  repeat case_match; simplify_eq; bool_hyps; simpl in *;
    try discriminate; try lia.
  all: repeat split; try lia.
  all: change (Z.to_nat 2) with 2%nat; change (Z.to_nat 3) with 3%nat;
       change (Z.to_nat 4) with 4%nat; cbn [firstn];
       repeat constructor; lia.
Qed.

Section EncoderInvariant.

Variable e : bool.
Variable Q : bytes -> Prop.
Variable R : Z -> Prop.
Hypothesis Q_app : forall x y, Q x -> Q y -> Q (x ++ y).
Hypothesis Q_raw : forall x, Forall R x -> Q x.
Hypothesis Q_escape : forall x, escape x -> Q x.
Hypothesis R_safe :
  forall b, htmlSafeSet b || (negb e && safeSet b) = true -> R b.
Hypothesis R_high : forall b, 128 <= b -> R b.

(** Copying the pending bytes and writing an escape sequence. *)
Lemma flush_escape (t : bytes) (i start : Z) (done x : bytes) :
  Q done -> 0 <= start <= i -> Forall R (slice t start i) -> escape x ->
  exists done',
    (if start <? i then (dq :: done) ++ slice t start i else dq :: done) ++ x
    = dq :: done' /\ Q done'.
Proof.
  intros HQ Hst HR Hx. exists (done ++ slice t start i ++ x). split.
  - destruct (start <? i) eqn:E; bool_hyps.
    + cbn [app]. rewrite <- app_assoc. reflexivity.
    + replace start with i by lia. rewrite slice_nil. reflexivity.
  - auto.
Qed.

Lemma string_step_inv (t : bytes) (i start : Z) (p : bytes) :
  i < len t -> encoder_inv Q R t i start p ->
  let '(i', start', p') := string_step t e i start p in
  encoder_inv Q R t i' start' p'.
Proof.
  intros Hi (done & -> & HQ & Hst & Hle & HR). unfold string_step.
  assert (Hi' : 0 <= i < len t) by lia.
  destruct (at_ t i <? utf8.RuneSelf) eqn:Hb.
  - destruct (htmlSafeSet (at_ t i) || negb e && safeSet (at_ t i)) eqn:Hs.
    + (* a byte that needs no escape stays pending *)
      exists done. repeat split; try lia; try assumption.
      rewrite (slice_app t start i (i + 1)), slice_one by lia.
      apply Forall_app. split; [assumption|]. repeat constructor. auto.
    + (* an escaped byte *)
      assert (Hesc : exists x,
        escape x /\
        (if (at_ t i =? bsl) || (at_ t i =? dq)
         then (if start <? i then (dq :: done) ++ slice t start i
               else dq :: done) ++ [bsl; at_ t i]
         else if at_ t i =? 10
         then (if start <? i then (dq :: done) ++ slice t start i
               else dq :: done) ++ [bsl; ch "n"]
         else if at_ t i =? 13
         then (if start <? i then (dq :: done) ++ slice t start i
               else dq :: done) ++ [bsl; ch "r"]
         else if at_ t i =? 9
         then (if start <? i then (dq :: done) ++ slice t start i
               else dq :: done) ++ [bsl; ch "t"]
         else (if start <? i then (dq :: done) ++ slice t start i
               else dq :: done)
              ++ [bsl; ch "u"; ch "0"; ch "0";
                  at_ hex (Z.shiftr (at_ t i) 4);
                  at_ hex (Z.land (at_ t i) 15)])
        = (if start <? i then (dq :: done) ++ slice t start i
           else dq :: done) ++ x).
      { unfold utf8.RuneSelf in Hb.
        repeat case_match; bool_hyps; eexists; (split; [|reflexivity]);
          first [ apply esc_n | apply esc_r | apply esc_t
                | apply esc_ctl; lia
                | apply esc_quote;
                  match goal with H : _ \/ _ |- _ => destruct H end;
                  bool_hyps; auto ]. }
      destruct Hesc as (x & Hx & ->).
      destruct (flush_escape t i start done x HQ Hst HR Hx) as (d' & -> & HQ').
      exists d'. repeat split; try lia; try assumption.
      rewrite slice_nil. constructor.
  - unfold utf8.RuneSelf in Hb. bool_hyps.
    rewrite (slice_from_at t i Hi').
    pose proof (slice_from_at t i Hi') as Hsl.
    destruct (utf8.DecodeRuneInString (at_ t i :: slice_from t (i + 1)))
      as [c size] eqn:Hd.
    pose proof (DecodeRuneInString_size (at_ t i) (slice_from t (i + 1)))
      as Hsz. rewrite Hd in Hsz. cbn [snd] in Hsz.
    assert (Hlen : len (slice_from t i) = len t - i).
    { unfold slice_from, len in *. rewrite length_skipn. lia. }
    destruct ((c =? utf8.RuneError) && (size =? 1)) eqn:Herr.
    + (* an invalid byte *)
      bool_hyps. subst size.
      destruct (flush_escape t i start done _ HQ Hst HR esc_bad)
        as (d' & -> & HQ').
      exists d'. repeat split; try lia; try assumption.
      rewrite slice_nil. constructor.
    + destruct (DecodeRuneInString_high _ _ _ _ Hb Hd Herr)
        as (_ & Hfit & Hhigh).
      rewrite <- Hsl in Hfit, Hhigh.
      assert (Hend : i + size <= len t) by (unfold len in *; lia).
      destruct ((c =? 8232) || (c =? 8233)) eqn:Hsep.
      * (* a line or paragraph separator *)
        destruct (flush_escape t i start done _ HQ Hst HR (esc_sep c))
          as (d' & -> & HQ').
        exists d'. repeat split; try lia; try assumption.
        rewrite slice_nil. constructor.
      * (* any other rune stays pending *)
        exists done. repeat split; try lia; try assumption.
        rewrite (slice_app t start i (i + size)), slice_width by lia.
        apply Forall_app. split; [assumption|].
        eapply Forall_impl; [exact Hhigh|]. auto.
Qed.

Lemma string_loop_inv (fuel : nat) (t : bytes) (i start : Z) (p : bytes)
    (start' : Z) (p' : bytes) :
  encoder_inv Q R t i start p ->
  string_loop fuel t e i start p = Some (start', p') ->
  encoder_inv Q R t (len t) start' p'.
Proof.
  revert i start p. induction fuel as [|fuel IH]; intros i start p Hinv H;
    simpl in H; destruct (i <? len t) eqn:Hi; bool_hyps; try discriminate.
  - injection H as <- <-. destruct Hinv as (done & ? & ? & ? & ? & ?).
    replace (len t) with i by lia. exists done. auto.
  - pose proof (string_step_inv t i start p Hi Hinv) as Hstep.
    destruct (string_step t e i start p) as [[i1 start1] p1]. eauto.
  - injection H as <- <-. destruct Hinv as (done & ? & ? & ? & ? & ?).
    replace (len t) with i by lia. exists done. auto.
Qed.

(** What [string] writes is a quote, a body that satisfies [Q] and a
    quote. *)
Lemma string_body (t : bytes) :
  exists body, string t e [] = dq :: body ++ [dq] /\ Q body.
Proof.
  destruct (string_runs t e []) as (start & p & Hloop & ->).
  cbn [app] in Hloop.
  assert (H0 : encoder_inv Q R t 0 0 [dq]).
  { exists []. split; [reflexivity|]. split; [apply Q_raw; constructor|].
    split; [lia|]. split; [unfold len; lia|].
    rewrite slice_nil. constructor. }
  destruct (string_loop_inv _ _ _ _ _ _ _ H0 Hloop)
    as (done & -> & HQ & Hst & _ & HR).
  exists (done ++ slice t start (len t)). split.
  - rewrite slice_to_end by lia.
    destruct (start <? len t) eqn:E; bool_hyps.
    + cbn [app]. rewrite <- !app_assoc. reflexivity.
    + unfold slice_from. rewrite skipn_all2 by (unfold len in *; lia).
      rewrite app_nil_r. reflexivity.
  - auto.
Qed.

End EncoderInvariant.

Lemma table_forall (P : Z -> bool) (tbl : bytes) (b : Z) :
  forallb P tbl = true -> existsb (Z.eqb b) tbl = true -> P b = true.
Proof.
  intros Hall Hex. apply existsb_exists in Hex as (x & Hin & Heq).
  apply Z.eqb_eq in Heq. subst x.
  rewrite forallb_forall in Hall. auto.
Qed.

Lemma safeSet_raw (b : Z) : safeSet b = true -> raw_ok b.
Proof.
  intros H.
  pose proof (table_forall
    (fun x => (32 <=? x) && negb (x =? dq) && negb (x =? bsl))
    safeSet_true b eq_refl H) as Hb.
  cbv beta in Hb. bool_hyps. repeat split; assumption.
Qed.

Lemma htmlSafeSet_raw (b : Z) : htmlSafeSet b = true -> raw_ok b /\ no_html b.
Proof.
  intros H.
  pose proof (table_forall
    (fun x => (32 <=? x) && negb (x =? dq) && negb (x =? bsl)
              && negb (x =? ch "<") && negb (x =? ch ">")
              && negb (x =? ch "&"))
    htmlSafeSet_true b eq_refl H) as Hb.
  cbv beta in Hb. bool_hyps. repeat split; assumption.
Qed.

Lemma hex_digit (k : Z) : k <= 15 -> rfc8259.is_hex (at_ hex k) = true.
Proof.
  intros Hk. unfold at_.
  assert (Hn : (Z.to_nat k <= 15)%nat) by lia.
  revert Hn. generalize (Z.to_nat k). intros n Hn.
  do 16 (destruct n as [|n]; [reflexivity|]). lia.
Qed.

Lemma hex_no_html (k : Z) : no_html (at_ hex k).
Proof.
  unfold at_. generalize (Z.to_nat k). intros n.
  do 16 (destruct n as [|n]; [repeat split; discriminate|]).
  destruct n; repeat split; discriminate.
Qed.

Lemma body_ok_app (x y : bytes) : body_ok x -> body_ok y -> body_ok (x ++ y).
Proof.
  intros Hx Hy rest. rewrite <- app_assoc, Hx, Hy. reflexivity.
Qed.

Lemma body_ok_raw (x : bytes) : Forall raw_ok x -> body_ok x.
Proof.
  induction 1 as [|b x (Hlo & Hq & Hb) _ IH]; intros rest; [reflexivity|].
  cbn [app rfc8259.chars].
  destruct (b =? dq) eqn:E1; bool_hyps; [contradiction|].
  destruct (b =? bsl) eqn:E2; bool_hyps; [contradiction|].
  destruct (b <? 32) eqn:E3; bool_hyps; [lia|]. apply IH.
Qed.

Lemma chars_escape_u (h1 h2 h3 h4 : Z) (r : bytes) :
  rfc8259.is_hex h1 = true -> rfc8259.is_hex h2 = true ->
  rfc8259.is_hex h3 = true -> rfc8259.is_hex h4 = true ->
  rfc8259.chars (bsl :: ch "u" :: h1 :: h2 :: h3 :: h4 :: r)
  = rfc8259.chars r.
Proof.
  intros H1 H2 H3 H4.
  change (rfc8259.chars (bsl :: ch "u" :: h1 :: h2 :: h3 :: h4 :: r))
    with (if rfc8259.is_hex h1 && rfc8259.is_hex h2 && rfc8259.is_hex h3
             && rfc8259.is_hex h4
          then rfc8259.chars r else None).
  rewrite H1, H2, H3, H4. reflexivity.
Qed.

Lemma body_ok_escape (x : bytes) : escape x -> body_ok x.
Proof.
  intros Hx rest. destruct Hx as [b [-> | ->]| | | |b Hb| |c];
    try reflexivity; cbn [app]; apply chars_escape_u;
    try reflexivity; apply hex_digit.
  - rewrite Z.shiftr_div_pow2 by lia. change (2 ^ 4) with 16.
    pose proof (Z.div_lt_upper_bound b 16 8). lia.
  - change 15 with (Z.ones 4) at 1. rewrite (Z.land_ones b 4) by lia.
    change (2 ^ 4) with 16. pose proof (Z.mod_pos_bound b 16). lia.
  - change 15 with (Z.ones 4) at 1. rewrite (Z.land_ones c 4) by lia.
    change (2 ^ 4) with 16. pose proof (Z.mod_pos_bound c 16). lia.
Qed.

(** X1. [string] writes a JSON string: a quote, characters the string
    recognizer reads through, and the closing quote. *)
Theorem string_is_JSON_string (t : bytes) (e : bool) (rest : bytes) :
  exists body,
    string t e [] = dq :: body ++ [dq] /\
    rfc8259.chars (body ++ dq :: rest) = Some rest.
Proof.
  destruct (string_body e body_ok raw_ok body_ok_app body_ok_raw
              body_ok_escape) with (t := t) as (body & Hs & Hb).
  - intros b Hb. apply orb_true_iff in Hb as [Hb|Hb].
    + apply htmlSafeSet_raw in Hb. tauto.
    + apply andb_true_iff in Hb as [_ Hb]. apply safeSet_raw. exact Hb.
  - intros b Hb. unfold raw_ok, dq, bsl. lia.
  - exists body. split; [exact Hs|]. rewrite Hb. reflexivity.
Qed.

(** X2. With HTML escaping, what [string] writes between the quotes
    holds none of <, > and &. *)
Theorem string_escapes_HTML (t : bytes) :
  exists body,
    string t true [] = dq :: body ++ [dq] /\ Forall no_html body.
Proof.
  apply (string_body true (Forall no_html) no_html).
  - intros x y Hx Hy. apply Forall_app. auto.
  - auto.
  - intros x Hx. destruct Hx as [b [-> | ->]| | | |b Hb| |c];
      repeat (apply List.Forall_cons;
              [first [apply hex_no_html | repeat split; discriminate]|]);
      apply List.Forall_nil.
  - intros b Hb. cbn [negb andb] in Hb. rewrite orb_false_r in Hb.
    apply htmlSafeSet_raw in Hb. tauto.
  - intros b Hb. unfold no_html, ch. cbn. lia.
Qed.

Lemma safeSet_ascii (b : Z) : safeSet b = true -> b < 128.
Proof.
  intros H.
  pose proof (table_forall (fun x => x <? 128) safeSet_true b eq_refl H) as Hb.
  cbv beta in Hb. bool_hyps. assumption.
Qed.

Lemma at_In (t : bytes) (i : Z) : 0 <= i < len t -> In (at_ t i) t.
Proof. intros Hi. unfold at_, len in *. apply nth_In. lia. Qed.

(** Without HTML escaping, a text made of bytes of [safeSet] goes
    through the loop untouched. *)
Lemma string_loop_safe (fuel : nat) (t : bytes) (i : Z) (p : bytes) :
  Forall (fun b => safeSet b = true) t ->
  0 <= i -> len t - i <= Z.of_nat fuel ->
  string_loop fuel t false i 0 p = Some (0, p).
Proof.
  intros Hsafe. revert i. induction fuel as [|fuel IH]; intros i Hi Hf;
    simpl; destruct (i <? len t) eqn:E; bool_hyps; try reflexivity;
    try lia.
  unfold string_step.
  assert (Hb : safeSet (at_ t i) = true).
  { rewrite List.Forall_forall in Hsafe. apply Hsafe, at_In. lia. }
  pose proof (safeSet_ascii _ Hb) as Hlt.
  apply Z.ltb_lt in Hlt. unfold utf8.RuneSelf. rewrite Hlt, Hb.
  cbn [negb andb]. rewrite orb_true_r. apply IH; lia.
Qed.

(** Without HTML escaping, [string] writes a text made of bytes of
    [safeSet] as it is, between quotes. The characters <, > and & are
    bytes of [safeSet]. *)
Lemma string_safe_verbatim (t : bytes) :
  Forall (fun b => safeSet b = true) t ->
  string t false [] = dq :: t ++ [dq].
Proof.
  intros Hsafe. unfold string.
  rewrite (string_loop_safe (length t) t 0 ([] ++ [dq]) Hsafe)
    by (unfold len; lia).
  destruct (0 <? len t) eqn:E; bool_hyps.
  - reflexivity.
  - destruct t; [reflexivity|]. unfold len in E. simpl in E. lia.
Qed.

(** Whatever [JEscapeHTML] is, [Msg] completes the record with the
    message as it is when the message is made of bytes of [safeSet]. *)
Lemma Msg_keeps_safe_text (j : Json) (t : bytes) :
  t <> [] ->
  Forall (fun b => safeSet b = true) t ->
  finish (Some j) t =
    jp j ++ [ch ","; dq] ++ lit "message" ++ [dq; ch ":"; dq]
    ++ t ++ [dq; ch "}"; 10].
Proof.
  intros Ht Hsafe. unfold finish, Msg_bytes.
  destruct t as [|b t]; [contradiction|]. cbn [is_empty negb].
  rewrite string_app, string_safe_verbatim by assumption.
  rewrite <- !app_assoc. cbn [app]. rewrite <- !app_assoc. reflexivity.
Qed.

Lemma html_characters_are_safeSet :
  Forall (fun b => safeSet b = true) (lit "<>&").
Proof. repeat constructor. Qed.

(** ** Field names *)

Lemma Strs_loop_app (e : Globals) (rest : list bytes) (i n : Z) (p0 p : bytes) :
  Strs_loop e rest i n (p0 ++ p) = p0 ++ Strs_loop e rest i n p.
Proof.
  revert i p. induction rest as [|t rest IH]; intros i p; simpl; [reflexivity|].
  rewrite (string_app t _ (p0 ++ p)), (string_app t _ p).
  destruct (i <? n - 1); rewrite <- ?app_assoc; rewrite <- IH;
    rewrite <- ?app_assoc; reflexivity.
Qed.

Lemma prefix_or_not (pre p : bytes) :
  (if negb (is_empty pre) then p ++ pre else p) = p ++ pre.
Proof. destruct pre; simpl; [rewrite app_nil_r|]; reflexivity. Qed.

(** C10. [Err] writes its value under the key "error" whatever the
    configured field prefix is, and each named builder ([Int64],
    [Uint64], [Float64], [Bool], [Str], [Strs]) writes the prefix in
    front of the name the caller gave (an empty prefix adds nothing). *)
Theorem field_name_prefix (float : Type) (AppendFloat : bytes -> float -> Z -> bytes)
    (g : Globals) (pre : bytes) (j : Json) (name : bytes)
    (i u : Z) (f : float) (b : bool) (t : bytes) (ss : list bytes)
    (err : bytes) :
  let g' := with_JFieldPrefix g pre in
  Err g' (Some j) err =
    Some (with_p j (jp j ++ [ch ","; dq] ++ lit "error" ++ [dq; ch ":"]
                         ++ string err (JEscapeHTML g) [])) /\
  Int64 g' (Some j) name i =
    Some (with_p j (jp j ++ [ch ","; dq] ++ pre ++ name ++ [dq; ch ":"]
                         ++ strconv.AppendInt [] i)) /\
  Uint64 g' (Some j) name u =
    Some (with_p j (jp j ++ [ch ","; dq] ++ pre ++ name ++ [dq; ch ":"]
                         ++ strconv.AppendUint [] u)) /\
  Float64 float AppendFloat g' (Some j) name f =
    Some (with_p j (AppendFloat
                      (jp j ++ [ch ","; dq] ++ pre ++ name ++ [dq; ch ":"])
                      f 64)) /\
  Bool g' (Some j) name b =
    Some (with_p j (jp j ++ [ch ","; dq] ++ pre ++ name ++ [dq; ch ":"]
                         ++ (if b then lit "true" else lit "false"))) /\
  Str g' (Some j) name t =
    Some (with_p j (jp j ++ [ch ","; dq] ++ pre ++ name ++ [dq; ch ":"]
                         ++ string t (JEscapeHTML g) [])) /\
  Strs g' (Some j) name ss =
    Some (with_p j (jp j ++ [dq] ++ pre ++ name ++ [dq; ch ":"; ch "["]
                         ++ Strs_loop g' ss 0 (Z.of_nat (length ss)) []
                         ++ [ch "]"; ch ","])).
Proof.
  intros g'.
  unfold Err, Int64, Uint64, Float64, Bool, Str, Strs,
    strconv.AppendInt, strconv.AppendUint.
  cbn [JFieldPrefix JEscapeHTML g' with_JFieldPrefix].
  rewrite !prefix_or_not.
  repeat split; f_equal; f_equal.
  - rewrite string_app, <- !app_assoc. reflexivity.
  - rewrite <- !app_assoc. reflexivity.
  - rewrite <- !app_assoc. reflexivity.
  - rewrite <- !app_assoc. reflexivity.
  - destruct b; rewrite <- !app_assoc; reflexivity.
  - rewrite string_app, <- !app_assoc. reflexivity.
  - rewrite <- (app_nil_r (((_ ++ _) ++ name) ++ _)) at 1.
    rewrite Strs_loop_app, <- !app_assoc. reflexivity.
Qed.

(** On the nil handle every field builder returns the nil handle. *)
Lemma nil_handle_builders (float : Type)
    (AppendFloat : bytes -> float -> Z -> bytes) (g : Globals)
    (name : bytes) (i : Z) (f : float) (b : bool) (t : bytes)
    (ss : list bytes) :
  Int64 g None name i = None /\ Uint64 g None name i = None /\
  Float32 float AppendFloat g None name f = None /\
  Float64 float AppendFloat g None name f = None /\
  Bool g None name b = None /\ Err g None t = None /\
  Str g None name t = None /\ Strs g None name ss = None.
Proof. repeat split; reflexivity. Qed.

(** A record with a [Strs] field as its last field, finished with a
    message that is not empty: the bracket of the array is followed by
    two commas, and no comma stands before the key of the array. *)
Lemma Strs_then_Msg (g : Globals) (j : Json) (name : bytes)
    (ss : list bytes) (t : bytes) :
  t <> [] ->
  finish (Strs g (Some j) name ss) t =
    jp j ++ [dq] ++ JFieldPrefix g ++ name ++ [dq; ch ":"; ch "["]
    ++ Strs_loop g ss 0 (Z.of_nat (length ss)) []
    ++ [ch "]"; ch ","]
    ++ [ch ","; dq] ++ lit "message" ++ [dq; ch ":"]
    ++ string t false [] ++ [ch "}"; 10].
Proof.
  intros Ht. unfold finish, Strs, Msg_bytes. cbn [jp with_p].
  rewrite prefix_or_not.
  destruct t as [|b t]; [contradiction|]. cbn [is_empty negb].
  rewrite string_app.
  rewrite <- (app_nil_r (((_ ++ _) ++ name) ++ _)) at 1.
  rewrite Strs_loop_app, <- !app_assoc. reflexivity.
Qed.

(** ** Runs only add events *)

Lemma grows_ret {A} (a : A) : grows (ret a).
Proof. intros w. exists []. simpl. rewrite app_nil_r. reflexivity. Qed.

Lemma grows_bind {A B} (m : M A) (k : A -> M B) :
  grows m -> (forall a, grows (k a)) -> grows (bind m k).
Proof.
  intros Hm Hk w. unfold bind. destruct (Hm w) as [e1 H1].
  destruct (m w) as [a w1|c w1|w1]; simpl in *.
  - destruct (Hk a w1) as [e2 H2]. exists (e1 ++ e2).
    rewrite H2, H1, app_assoc. reflexivity.
  - eauto.
  - eauto.
Qed.

Lemma grows_get {A} (f : world -> A) : grows (get f).
Proof. intros w. exists []. simpl. rewrite app_nil_r. reflexivity. Qed.

Lemma grows_emit (e : event) : grows (emit e).
Proof. intros w. exists [e]. reflexivity. Qed.

Lemma grows_when (c : bool) (m : M unit) : grows m -> grows (when c m).
Proof. destruct c; simpl; intros H; [exact H | apply grows_ret]. Qed.

Lemma grows_os_Exit {A} (c : Z) : grows (@os_Exit A c).
Proof. intros w. exists []. simpl. rewrite app_nil_r. reflexivity. Qed.

Lemma grows_file_Write (s : severity) (d : bytes) : grows (file_Write s d).
Proof.
  intros w. unfold file_Write. destruct (l_file (logging w) s).
  - exists [EvFile s d]. reflexivity.
  - exists []. simpl. rewrite app_nil_r. reflexivity.
Qed.

Lemma grows_jbufpool_Put (j : Json) : grows (jbufpool_Put j).
Proof. intros w. exists []. simpl. rewrite app_nil_r. reflexivity. Qed.

Lemma grows_jbufpool_Get : grows jbufpool_Get.
Proof.
  intros w. exists []. unfold jbufpool_Get.
  destruct (jbufpool w); simpl; rewrite app_nil_r; reflexivity.
Qed.

Lemma grows_add_stats (s : severity) (n : Z) : grows (add_stats s n).
Proof.
  intros w. exists []. unfold add_stats.
  destruct (severityStats w s); simpl; rewrite app_nil_r; reflexivity.
Qed.

Lemma grows_set_logExitFunc : grows set_logExitFunc.
Proof. intros w. exists []. simpl. rewrite app_nil_r. reflexivity. Qed.

Lemma grows_Lock : grows Lock.
Proof. apply grows_emit. Qed.

Lemma grows_Unlock : grows Unlock.
Proof. apply grows_emit. Qed.

Lemma grows_Stderr_Write (d : bytes) : grows (Stderr_Write d).
Proof. apply grows_emit. Qed.

Create HintDb grows.
#[export] Hint Resolve grows_ret grows_get grows_emit grows_when
  grows_os_Exit grows_file_Write grows_jbufpool_Put grows_jbufpool_Get
  grows_add_stats grows_set_logExitFunc grows_Lock grows_Unlock
  grows_Stderr_Write : grows.

Ltac grows_tac :=
  repeat first
    [ progress intros
    | apply grows_bind
    | apply grows_when
    | solve [auto with grows]
    | match goal with
      | |- grows (if ?c then _ else _) => destruct c
      | |- grows (match ?x with _ => _ end) => destruct x
      end ].

(** Unfolds the monad and its primitive actions. *)
Ltac unfold_M :=
  cbv beta iota delta
    [bind ret get emit when Lock Unlock Stderr_Write os_Exit
     set_logExitFunc jheader_M jbufpool_Get jbufpool_Put].

(** Reduces the projections of the world and of the sink state. *)
Ltac simp_world :=
  cbv beta iota;
  cbn [logging flag_Parsed fatalNoStacks logExitFunc timeNow jbufpool
       severityStats trace with_trace with_logging with_jbufpool
       with_logExitFunc with_severityStats toStderr alsoToStderr
       stderrThreshold l_traceLocation l_file verbosity filterLength vmap
       fst snd final].

(** Every event of a list is the lock, a write to standard error or
    a write of the record to a file. *)
Ltac record_events :=
  repeat (apply List.Forall_cons;
          [first [ left; reflexivity
                 | right; left; eexists; reflexivity
                 | right; right; eexists; reflexivity ]|]);
  apply List.Forall_nil.

(** Goes through the events of a concrete list [H : In e evs]. *)
Ltac event_cases H :=
  cbn [In app] in H;
  repeat (destruct H as [H|H];
          [first [ discriminate H
                 | injection H as <- <-; split; reflexivity ]|]);
  contradiction.

Section SinkProperties.

Variable stacks : bool -> bytes.
Variable createFiles :
  severity -> loggingT -> option bytes * loggingT * list event.
Variable exit_status : Z.
Variable arg : Type.
Variable Sprintf : bytes -> list arg -> bytes.
Variable setV : Z -> loggingT -> Z * loggingT.
Variable g : Globals.

Set Default Proof Using "Type".

Local Abbreviation outputj' := (outputj stacks createFiles exit_status).
Local Abbreviation Msg' := (Msg stacks createFiles exit_status).
Local Abbreviation Msgf' := (Msgf stacks createFiles exit_status arg Sprintf).
Local Abbreviation json' := (json setV g).

Lemma grows_createFiles_M (s : severity) : grows (createFiles_M createFiles s).
Proof.
  intros w. unfold createFiles_M.
  destruct (createFiles s (logging w)) as [[err l'] evs].
  exists evs. reflexivity.
Qed.

Lemma grows_exit (e : bytes) : grows (exit exit_status e).
Proof. unfold exit. grows_tac. Qed.

Lemma grows_timeoutFlush (d : Z) : grows (timeoutFlush d).
Proof. unfold timeoutFlush. grows_tac. Qed.

Lemma grows_fan_out (s : severity) (d : bytes) : grows (fan_out s d).
Proof. destruct s; unfold fan_out; grows_tac. Qed.

Lemma grows_write_trace (tr : bytes) : grows (write_trace tr).
Proof. unfold write_trace; simpl. grows_tac. Qed.

#[local] Hint Resolve grows_createFiles_M grows_exit grows_timeoutFlush
  grows_fan_out grows_write_trace : grows.

(** A call of the sink takes the lock first and from then on only
    adds events. *)
Lemma outputj_begins (s : severity) (buf : Json) (file : bytes) (line : Z)
    (also : bool) (w : world) :
  exists evs,
    trace (final (outputj' s buf file line also w)) = trace w ++ EvLock :: evs.
Proof.
  unfold outputj.
  match goal with
  | |- context [bind Lock ?k] =>
      assert (Hk : grows (k tt)) by grows_tac;
      set (rest := k) in *
  end.
  unfold bind at 1. unfold Lock, emit.
  destruct (Hk (with_trace w (trace w ++ [EvLock]))) as [evs Hevs].
  exists evs. rewrite Hevs. simpl. rewrite <- app_assoc. reflexivity.
Qed.

(** *** Finishing a record *)

(** C3, as the code has it. [Msgf] on a live handle returns at once:
    the world is as before, nothing is formatted and nothing reaches
    the sink, while [Msg] on the same handle does call the sink. The
    test [j == nil] of [Msgf] is the reverse of the test [j != nil] of
    [Msg]. *)
Theorem Msgf_live_handle_is_dropped (j : Json) (format : bytes)
    (v : list arg) (w : world) :
  Msgf' (Some j) format v w = Returned tt w /\
  exists evs,
    trace (final (Msg' (Some j) (Sprintf format v) w))
    = trace w ++ EvLock :: evs.
Proof.
  split; [reflexivity|]. unfold Msg. apply outputj_begins.
Qed.

(** On the nil handle [Msg] and [Msgf] return without any effect. *)
Lemma nil_handle_finish (format t : bytes) (v : list arg) (w : world) :
  Msg' None t w = Returned tt w /\ Msgf' None format v w = Returned tt w.
Proof. split; reflexivity. Qed.

(** C9, amended. [Msg] hands to the sink the bytes built so far,
    followed by the key "message" and the encoded text when the text is
    not empty, and by nothing when it is empty, and then by the closing
    brace and a newline. *)
Theorem Msg_record (j : Json) (t : bytes) :
  Msg' (Some j) t =
  outputj' (js j)
    (with_p j
       (jp j
        ++ (if is_empty t then []
            else [ch ","; dq] ++ lit "message" ++ [dq; ch ":"]
                 ++ string t false [])
        ++ [ch "}"; 10]))
    (jfile j) (jline j) false.
Proof.
  unfold Msg, Msg_bytes. cbn [js jfile jline with_p].
  destruct t as [|b t]; cbn [is_empty negb].
  - reflexivity.
  - rewrite string_app, <- !app_assoc. reflexivity.
Qed.

(** *** The record constructor *)

(** The branches of [json]: it returns, and what it returns is a live
    handle exactly when the requested level is at most the global
    verbosity, or a vmodule filter is present, [runtime.Callers] stored
    a program counter and the level is at most the threshold of the
    first one stored: the cached one, or the one [setV] resolves. A
    live handle is the header [jheader] writes. *)
Theorem json_active_iff (caller : option (bytes * Z)) (callers : list Z)
    (s : severity) (level : Z) (w : world) :
  let l := logging w in
  let threshold pc :=
    match vmap l !! pc with
    | Some v => v
    | None => (setV pc l).1
    end in
  exists r w',
    json' caller callers s level w = Returned r w' /\
    (is_Some r <->
       level <= verbosity l \/
       (0 < filterLength l /\
        exists pc rest, callers = pc :: rest /\ level <= threshold pc)) /\
    (forall j, r = Some j ->
       exists j0,
         j = jheader g (timeNow w) j0 s level
               (call_site caller).1 (call_site caller).2).
Proof.
  intros l threshold. subst l threshold. cbv beta. unfold json.
  destruct (call_site caller) as [file line]. cbn [fst snd].
  destruct w as [l parsed noStacks lef now pool st tr].
  unfold_M. simp_world.
  destruct (verbosity l >=? level) eqn:Hv; simp_world.
  - (* the global verbosity admits the level *)
    apply Z.geb_le in Hv.
    destruct pool as [|j0 pool]; do 2 eexists;
      (split; [reflexivity|]); (split; [split; eauto|]);
      intros j [= <-]; eauto.
  - rewrite Z.geb_leb in Hv; apply Z.leb_gt in Hv.
    destruct (filterLength l >? 0) eqn:Hf; simp_world.
    + rewrite Z.gtb_ltb in Hf; apply Z.ltb_lt in Hf.
      destruct callers as [|pc rest]; simp_world.
      * (* no program counter: nil *)
        do 2 eexists. split; [reflexivity|]. split.
        -- split; [intros [? [=]]|].
           intros [?|(_ & ? & ? & [=] & _)]. lia.
        -- intros j [=].
      * assert (Hlive : forall v : Z,
                  match vmap l !! pc with
                  | Some v0 => v0
                  | None => (setV pc l).1
                  end = v ->
                  level <= v ->
                  level <= verbosity l \/
                  0 < filterLength l /\
                  exists pc0 rest0,
                    pc :: rest = pc0 :: rest0 /\
                    level <= match vmap l !! pc0 with
                             | Some v0 => v0
                             | None => (setV pc0 l).1
                             end).
        { intros v Hthr Hle. right. split; [lia|].
          exists pc, rest. split; [reflexivity|]. rewrite Hthr. exact Hle. }
        assert (Hdead : forall v : Z,
                  match vmap l !! pc with
                  | Some v0 => v0
                  | None => (setV pc l).1
                  end = v ->
                  v < level ->
                  ~ (level <= verbosity l \/
                     0 < filterLength l /\
                     exists pc0 rest0,
                       pc :: rest = pc0 :: rest0 /\
                       level <= match vmap l !! pc0 with
                                | Some v0 => v0
                                | None => (setV pc0 l).1
                                end)).
        { intros v Hthr Hlt [?|(_ & pc' & rest' & [= <- <-] & Hle)]; [lia|].
          rewrite Hthr in Hle. lia. }
        destruct (vmap l !! pc) as [v|] eqn:Hm; simp_world.
        -- specialize (Hlive v eq_refl). specialize (Hdead v eq_refl).
           destruct (v >=? level) eqn:Hl; simp_world.
           ++ apply Z.geb_le in Hl.
              destruct pool as [|j0 pool]; do 2 eexists;
                (split; [reflexivity|]); (split; [split; eauto|]);
                intros j [= <-]; eauto.
           ++ rewrite Z.geb_leb in Hl; apply Z.leb_gt in Hl.
              do 2 eexists. split; [reflexivity|]. split.
              ** split; [intros [? [=]]|]. intros H. destruct (Hdead Hl H).
              ** intros j [=].
        -- destruct (setV pc l) as [v l'] eqn:Hs. cbn [fst] in *. simp_world.
           specialize (Hlive v eq_refl). specialize (Hdead v eq_refl).
           destruct (v >=? level) eqn:Hl; simp_world.
           ++ apply Z.geb_le in Hl.
              destruct pool as [|j0 pool]; do 2 eexists;
                (split; [reflexivity|]); (split; [split; eauto|]);
                intros j [= <-]; eauto.
           ++ rewrite Z.geb_leb in Hl; apply Z.leb_gt in Hl.
              do 2 eexists. split; [reflexivity|]. split.
              ** split; [intros [? [=]]|]. intros H. destruct (Hdead Hl H).
              ** intros j [=].
    + (* no vmodule filter: nil *)
      rewrite Z.gtb_ltb in Hf; apply Z.ltb_ge in Hf.
      do 2 eexists. split; [reflexivity|]. split.
      * split; [intros [? [=]]|]. intros [?|(? & _)]; lia.
      * intros j [=].
Qed.

(** *** The sink *)

(** Unfolds the sink down to the primitive actions. *)
Ltac unfold_sink :=
  unfold outputj, fan_out, write_trace, exit, timeoutFlush, file_Write,
    createFiles_M, add_stats;
  cbn [fold_right];
  unfold_M; simp_world.

(** C1. In file mode, with the files of the tiers up to [s] open, the
    sink writes the record to the file of [s] and of every tier below
    it, once each, and to no file of a tier above [s]. (At FATAL the
    stack trace of the fatal branch follows the record in each
    file.) *)
Theorem outputj_fan_out (s : severity) (buf : Json) (file : bytes)
    (line : Z) (also : bool) (w : world) :
  flag_Parsed w = true ->
  toStderr (logging w) = false ->
  (forall t, sev_le t s -> l_file (logging w) t = true) ->
  let data := record_data stacks (logging w) buf file line in
  exists evs,
    trace (final (outputj' s buf file line also w)) = trace w ++ evs /\
    forall t,
      file_writes t evs =
        if sev_leb t s then
          data :: (if decide (s = fatalLog)
                   then if fatalNoStacks w >? 0 then [] else [stacks true]
                   else [])
        else [].
Proof.
  intros Hparsed Hmode Hopen data.
  destruct w as [l parsed noStacks lef now pool st tr].
  destruct l as [ts als thr tl lf vb fl vm].
  cbn in Hparsed, Hmode, Hopen. subst parsed ts.
  assert (Hi : sev_le infoLog s -> lf infoLog = true) by apply Hopen.
  assert (Hw : sev_le warningLog s -> lf warningLog = true) by apply Hopen.
  assert (He : sev_le errorLog s -> lf errorLog = true) by apply Hopen.
  assert (Hf : sev_le fatalLog s -> lf fatalLog = true) by apply Hopen.
  clear Hopen. unfold sev_le in *.
  unfold_sink. fold data.
  destruct (also || als || (sevnum s >=? sevnum thr)); simp_world;
    destruct s; cbn in Hi, Hw, He, Hf;
    repeat first
      [ progress simp_world
      | progress cbn [negb]
      | progress (rewrite ?Hi, ?Hw, ?He, ?Hf by lia)
      | match goal with
        | |- context [decide (?a = ?b)] =>
            destruct (decide (a = b)) as [Heq|Hne];
            [try discriminate Heq | try (destruct (Hne eq_refl))]
        | |- context [noStacks >? 0] => destruct (noStacks >? 0)
        | |- context [st ?t] => destruct (st t)
        end ].
  all: (eexists; split;
        [rewrite <- !app_assoc; cbn [app]; reflexivity
        |intros t; destruct t; reflexivity]).
Qed.

(** The case analysis a run of the sink needs, once the world is a
    record of variables: reduce, and split on what the code tests. *)
Ltac sink_cases :=
  repeat first
    [ progress simp_world
    | progress cbn [negb andb orb]
    | match goal with
      | H : ?x = _ |- context [?x] => rewrite H
      | |- context [decide (?a = ?b)] =>
          destruct (decide (a = b)) as [?Heq|?Hne];
          [try discriminate | try contradiction]
      | |- context [if negb ?c then _ else _] => destruct c eqn:?
      | |- context [if ?c then _ else _] =>
          match c with
          | context [if _ then _ else _] => fail 1
          | _ => destruct c eqn:?
          end
      | |- context [match ?c with Some _ => _ | None => _ end] =>
          match c with
          | context [match _ with _ => _ end] => fail 1
          | _ => destruct c eqn:?
          end
      end ].

(** C7. Before [flag.Parse] the sink writes the diagnostic prefix and
    then the record to standard error. The record goes to no file and
    the error exit is not taken; below FATAL the call then unlocks and
    returns. (At FATAL the fatal branch follows, as in every mode.) *)
Theorem outputj_before_flag_Parse (s : severity) (buf : Json) (file : bytes)
    (line : Z) (also : bool) (w : world) :
  flag_Parsed w = false ->
  let data := record_data stacks (logging w) buf file line in
  exists rest,
    trace (final (outputj' s buf file line also w)) =
      trace w ++ [EvLock;
                  EvStderr (lit "ERROR: logging before flag.Parse: ");
                  EvStderr data] ++ rest /\
    (forall e, ~ In (EvExit e) rest) /\
    (forall t d, In (EvFile t d) rest -> s = fatalLog /\ d = stacks true) /\
    (s <> fatalLog ->
     rest = [EvUnlock] /\
     exists w', outputj' s buf file line also w = Returned tt w').
Proof.
  intros Hparsed data.
  destruct w as [l parsed noStacks lef now pool st tr].
  destruct l as [ts als thr tl lf vb fl vm].
  cbn in Hparsed. subst parsed.
  unfold_sink. fold data.
  destruct s; sink_cases.
  all: eexists; split; [rewrite <- !app_assoc; cbn [app]; reflexivity|].
  all: split; [intros e Hin; event_cases Hin|].
  all: split; [intros t d Hin; event_cases Hin|].
  all: intros Hs; first [contradiction | split; [reflexivity|eauto]].
Qed.

(** C8. In file mode, when the file of the tier is not open and
    [createFiles] fails, the sink writes the record to standard error
    and calls [l.exit] with the error, which ends the process. *)
Theorem outputj_createFiles_failure (s : severity) (buf : Json)
    (file : bytes) (line : Z) (also : bool) (w : world)
    (err : bytes) (l' : loggingT) (evs : list event) :
  flag_Parsed w = true ->
  toStderr (logging w) = false ->
  l_file (logging w) s = false ->
  createFiles s (logging w) = (Some err, l', evs) ->
  let data := record_data stacks (logging w) buf file line in
  let echo :=
    if also || alsoToStderr (logging w)
       || (sevnum s >=? sevnum (stderrThreshold (logging w)))
    then [EvStderr data] else [] in
  exists w',
    outputj' s buf file line also w = Exited exit_status w' /\
    trace w' =
      trace w ++ [EvLock] ++ echo ++ evs ++ [EvStderr data; EvExit err].
Proof.
  intros Hparsed Hmode Hnil Hcreate data echo.
  destruct w as [l parsed noStacks lef now pool st tr].
  destruct l as [ts als thr tl lf vb fl vm].
  cbn in Hparsed, Hmode, Hnil, Hcreate, echo. subst parsed ts.
  unfold_sink. fold data. subst echo.
  (* the echo to standard error, or not *)
  destruct (also || als || (sevnum s >=? sevnum thr)); simp_world;
    rewrite Hnil; cbn [negb]; simp_world;
    rewrite Hcreate; simp_world;
    (eexists; split; [reflexivity|]);
    simp_world; rewrite <- !app_assoc; reflexivity.
Qed.

(** C6, amended. A FATAL record ends the process. Outside file mode,
    or in file mode with the four files open, the status is 1 when
    [fatalNoStacks] is set and 255 otherwise. In the second case,
    unless the sink logs to standard error only, it first writes the
    stack of the current goroutine to standard error; it then writes
    the stacks of all goroutines to every open file. In both cases it
    unlocks and flushes with a bound of ten seconds before it exits. *)
Theorem outputj_fatal (buf : Json) (file : bytes) (line : Z) (also : bool)
    (w : world) :
  (flag_Parsed w = true -> toStderr (logging w) = false ->
   forall t, l_file (logging w) t = true) ->
  let l := logging w in
  let data := record_data stacks l buf file line in
  exists pre on_stderr w',
    outputj' fatalLog buf file line also w =
      Exited (if fatalNoStacks w >? 0 then 1 else 255) w' /\
    trace w' =
      trace w ++ pre
      ++ (if fatalNoStacks w >? 0 then []
          else on_stderr
               ++ map (fun t => EvFile t (stacks true))
                      (List.filter (l_file l)
                         [fatalLog; errorLog; warningLog; infoLog]))
      ++ [EvUnlock; EvFlush 10] /\
    (toStderr l = false -> on_stderr = [EvStderr (stacks false)]) /\
    Forall (fun e => e = EvLock \/ (exists d, e = EvStderr d)
                     \/ (exists t, e = EvFile t data)) pre.
Proof.
  intros Hopen l data. subst l.
  destruct w as [l parsed noStacks lef now pool st tr].
  destruct l as [ts als thr tl lf vb fl vm].
  cbn in Hopen. cbn [List.filter map]. simp_world.
  unfold_sink. fold data.
  destruct parsed; [destruct ts|]; simp_world.
  - (* standard error only *)
    exists [EvLock; EvStderr data], [].
    sink_cases; cbn [map app]; eexists;
      (split; [reflexivity|]); simp_world;
      (split; [rewrite <- !app_assoc; reflexivity|]);
      (split; [discriminate|]); record_events.
  - (* file mode *)
    specialize (Hopen eq_refl eq_refl).
    pose proof (Hopen fatalLog) as Hf. pose proof (Hopen errorLog) as He.
    pose proof (Hopen warningLog) as Hw. pose proof (Hopen infoLog) as Hi.
    clear Hopen. rewrite ?Hf, ?He, ?Hw, ?Hi. cbn [negb]. simp_world.
    destruct (also || als || (sevnum fatalLog >=? sevnum thr)); simp_world;
      [ exists [EvLock; EvStderr data; EvFile fatalLog data;
                EvFile errorLog data; EvFile warningLog data;
                EvFile infoLog data]
      | exists [EvLock; EvFile fatalLog data; EvFile errorLog data;
                EvFile warningLog data; EvFile infoLog data] ];
      exists [EvStderr (stacks false)];
      sink_cases; cbn [map app];
      eexists; (split; [reflexivity|]); simp_world;
      (split; [rewrite <- !app_assoc; reflexivity|]);
      (split; [reflexivity|]); record_events.
  - (* before flag.Parse *)
    exists [EvLock;
            EvStderr (lit "ERROR: logging before flag.Parse: ");
            EvStderr data].
    exists (if ts then [] else [EvStderr (stacks false)]).
    sink_cases; cbn [map app]; eexists;
      (split; [reflexivity|]); simp_world;
      (split; [rewrite <- !app_assoc; reflexivity|]);
      (split; [first [discriminate | reflexivity]|]); record_events.
Qed.

End SinkProperties.

(** ** The JSON recognizer does not depend on its fuel *)

Import rfc8259.

(** Once the recognizer answers with some fuel, it gives the same
    answer with more. *)
Lemma fuel_mono (n : nat) :
  forall m, (n <= m)%nat ->
    (forall t a, value n t = a -> a <> Short -> value m t = a) /\
    (forall t a, members n t = a -> a <> Short -> members m t = a) /\
    (forall t a, elements n t = a -> a <> Short -> elements m t = a).
Proof.
  induction n as [|n IH]; intros m Hle.
  - repeat split; intros t a H Ha; cbn [value members elements] in H;
      congruence.
  - destruct m as [|m]; [lia|].
    destruct (IH m ltac:(lia)) as (IHv & IHm & IHe).
    repeat split; intros t a H Ha; cbn [value members elements] in H |- *.
    + destruct (skip_ws t) as [|b r]; [exact H|].
      repeat match goal with
             | |- context [if ?c then _ else _] => destruct c
             | |- context [match skip_ws ?x with _ => _ end] =>
                 destruct (skip_ws x)
             end; eauto.
    + destruct (skip_ws t) as [|b r]; [exact H|].
      destruct (b =? dq); [|exact H].
      destruct (chars r) as [r1|]; [|exact H].
      destruct (skip_ws r1) as [|c r2]; [exact H|].
      destruct (c =? ch ":"); [|exact H].
      destruct (value n r2) as [r3| |] eqn:E.
      * rewrite (IHv _ _ E) by discriminate.
        destruct (skip_ws r3) as [|x r4]; [exact H|].
        destruct (x =? ch ","); [eauto|exact H].
      * rewrite (IHv _ _ E) by discriminate. exact H.
      * congruence.
    + destruct (value n t) as [r| |] eqn:E.
      * rewrite (IHv _ _ E) by discriminate.
        destruct (skip_ws r) as [|x r1]; [exact H|].
        destruct (x =? ch ","); [eauto|exact H].
      * rewrite (IHv _ _ E) by discriminate. exact H.
      * congruence.
Qed.

Lemma text_mono (n m : nat) (t : bytes) (a : answer) :
  (n <= m)%nat -> text n t = a -> a <> Short -> text m t = a.
Proof.
  intros Hle H Ha. unfold text in *.
  destruct (value n t) as [r| |] eqn:E.
  - rewrite (proj1 (fuel_mono n m Hle) _ _ E) by discriminate. exact H.
  - rewrite (proj1 (fuel_mono n m Hle) _ _ E) by discriminate. exact H.
  - congruence.
Qed.

(** A text the recognizer rejects is not valid. *)
Lemma invalid_not_valid (t : bytes) : invalid t -> ~ valid t.
Proof.
  intros [n Hn] [m Hm].
  destruct (Nat.le_ge_cases n m) as [Hle|Hle].
  - rewrite (text_mono n m t Bad Hle Hn) in Hm by discriminate. discriminate.
  - rewrite (text_mono m n t (Rest []) Hle Hm) in Hn by discriminate.
    discriminate.
Qed.

(** ** Records that are, and are not, JSON *)

(** C4, as the code has it. [Strs] writes no comma before its key
    and a comma after its closing bracket, so the record of a call
    [JInfo().Strs("tags", ["a", "b"]).Msg("done")] has its key glued
    to the line number and two commas before "message": it is not a
    JSON text. The same record built with [Str] is one. *)
Theorem Strs_record_is_not_JSON :
  let tags :=
    Strs Sample.g (Some Sample.handle) (lit "tags") [lit "a"; lit "b"] in
  let tag := Str Sample.g (Some Sample.handle) (lit "tag") (lit "a") in
  finish tags (lit "done") =
    jp Sample.handle
    ++ [dq] ++ lit "tags"
    ++ [dq; ch ":"; ch "["; dq; ch "a"; dq; ch ","; dq; ch "b"; dq;
        ch "]"; ch ","]
    ++ [ch ","; dq] ++ lit "message" ++ [dq; ch ":"; dq] ++ lit "done"
    ++ [dq; ch "}"; 10] /\
  ~ valid (finish tags (lit "done")) /\
  valid (finish tag (lit "done")).
Proof.
  split; [vm_compute; reflexivity|]. split.
  - apply invalid_not_valid. exists 400%nat. vm_compute. reflexivity.
  - exists 400%nat. vm_compute. reflexivity.
Qed.

(** C5, as the code has it. With [JEscapeHTML] set, [Msg] still
    writes the characters <, & and > of the message as they are (it
    calls the encoder with [false]), while [Str] escapes them. The
    quote, the backslash, the newline, the byte 1 and U+2028 and
    U+2029 are escaped in the message, and that record is a JSON
    text. *)
Theorem Msg_does_not_escape_HTML :
  JEscapeHTML Sample.g_html = true /\
  finish (Some Sample.handle_html) (lit "<&>") =
    jp Sample.handle_html
    ++ [ch ","; dq] ++ lit "message" ++ [dq; ch ":"; dq]
    ++ lit "<&>" ++ [dq; ch "}"; 10] /\
  Str Sample.g_html (Some Sample.handle_html) (lit "k") (lit "<&>") =
    Some (with_p Sample.handle_html
            (jp Sample.handle_html
             ++ [ch ","; dq; ch "k"; dq; ch ":"; dq]
             ++ [bsl] ++ lit "u003c" ++ [bsl] ++ lit "u0026"
             ++ [bsl] ++ lit "u003e" ++ [dq])) /\
  finish (Some Sample.handle_html)
         [dq; bsl; 10; 1; 226; 128; 168; 226; 128; 169] =
    jp Sample.handle_html
    ++ [ch ","; dq] ++ lit "message" ++ [dq; ch ":"; dq]
    ++ [bsl; dq; bsl; bsl; bsl; ch "n"] ++ [bsl] ++ lit "u0001"
    ++ [bsl] ++ lit "u2028" ++ [bsl] ++ lit "u2029" ++ [dq; ch "}"; 10] /\
  valid (finish (Some Sample.handle_html)
                [dq; bsl; 10; 1; 226; 128; 168; 226; 128; 169]).
Proof.
  repeat split; try (vm_compute; reflexivity).
  exists 400%nat. vm_compute. reflexivity.
Qed.

(** ** Concrete runs *)

(** C9 fails for the empty message: the record of [JInfo().Msg("")]
    ends right after the header and holds no "message" key. *)
Lemma Msg_empty_has_no_message_key :
  finish (Some Sample.handle) [] = jp Sample.handle ++ [ch "}"; 10] /\
  occurs ([dq] ++ lit "message" ++ [dq]) (finish (Some Sample.handle) [])
  = false /\
  trace (final (Msg Sample.stacks Sample.createFiles 2
                    (Some Sample.handle) [] Sample.w))
  = [EvLock; EvFile infoLog (finish (Some Sample.handle) []); EvUnlock].
Proof. repeat split; vm_compute; reflexivity. Qed.

(** C6 fails on standard error: at a FATAL record the process exits
    with 255, and standard error has received the record and the stack
    of the current goroutine, not the stacks of all goroutines. *)
Lemma fatal_stderr_gets_one_stack :
  let o := outputj Sample.stacks Sample.createFiles 2 fatalLog
                   Sample.handle (lit "main.go") 42 false Sample.w in
  (exists w', o = Exited 255 w') /\
  stderr_of (trace (final o)) = jp Sample.handle ++ Sample.stacks false /\
  ~ In (EvStderr (Sample.stacks true)) (trace (final o)) /\
  occurs (Sample.stacks true) (stderr_of (trace (final o))) = false.
Proof.
  repeat split; try (vm_compute; reflexivity).
  - eexists. vm_compute. reflexivity.
  - vm_compute. intuition discriminate.
Qed.

(** An ERROR record in file mode goes to the ERROR, WARNING and INFO
    files and not to the FATAL file. *)
Lemma outputj_fan_out_witness :
  exists evs,
    trace (final (outputj Sample.stacks Sample.createFiles 2 errorLog
                          Sample.handle (lit "main.go") 42 false Sample.w))
    = trace Sample.w ++ evs /\
    forall t,
      file_writes t evs =
        if sev_leb t errorLog then
          record_data Sample.stacks (logging Sample.w) Sample.handle
                      (lit "main.go") 42
          :: (if decide (errorLog = fatalLog)
              then if fatalNoStacks Sample.w >? 0 then []
                   else [Sample.stacks true]
              else [])
        else [].
Proof.
  apply (outputj_fan_out Sample.stacks Sample.createFiles 2 errorLog
           Sample.handle (lit "main.go") 42 false Sample.w).
  - reflexivity.
  - reflexivity.
  - intros t _. reflexivity.
Defined.

(** A FATAL record in file mode with the four files open. *)
Lemma outputj_fatal_witness :
  exists pre on_stderr w',
    outputj Sample.stacks Sample.createFiles 2 fatalLog Sample.handle
            (lit "main.go") 42 false Sample.w
    = Exited (if fatalNoStacks Sample.w >? 0 then 1 else 255) w' /\
    trace w' =
      trace Sample.w ++ pre
      ++ (if fatalNoStacks Sample.w >? 0 then []
          else on_stderr
               ++ map (fun t => EvFile t (Sample.stacks true))
                      (List.filter (l_file (logging Sample.w))
                         [fatalLog; errorLog; warningLog; infoLog]))
      ++ [EvUnlock; EvFlush 10] /\
    (toStderr (logging Sample.w) = false ->
     on_stderr = [EvStderr (Sample.stacks false)]) /\
    Forall (fun e => e = EvLock \/ (exists d, e = EvStderr d)
                     \/ (exists t,
                           e = EvFile t
                                 (record_data Sample.stacks
                                    (logging Sample.w) Sample.handle
                                    (lit "main.go") 42))) pre.
Proof.
  apply (outputj_fatal Sample.stacks Sample.createFiles 2 Sample.handle
           (lit "main.go") 42 false Sample.w).
  intros _ _ t. reflexivity.
Defined.

(** A WARNING record before [flag.Parse]. *)
Lemma outputj_before_flag_Parse_witness :
  exists rest,
    trace (final (outputj Sample.stacks Sample.createFiles 2 warningLog
                          Sample.handle (lit "main.go") 42 false
                          Sample.w_unparsed))
    = trace Sample.w_unparsed
      ++ [EvLock;
          EvStderr (lit "ERROR: logging before flag.Parse: ");
          EvStderr (record_data Sample.stacks (logging Sample.w_unparsed)
                                Sample.handle (lit "main.go") 42)]
      ++ rest /\
    (forall e, ~ In (EvExit e) rest) /\
    (forall t d, In (EvFile t d) rest ->
                 warningLog = fatalLog /\ d = Sample.stacks true) /\
    (warningLog <> fatalLog ->
     rest = [EvUnlock] /\
     exists w',
       outputj Sample.stacks Sample.createFiles 2 warningLog Sample.handle
               (lit "main.go") 42 false Sample.w_unparsed
       = Returned tt w').
Proof.
  apply (outputj_before_flag_Parse Sample.stacks Sample.createFiles 2
           warningLog Sample.handle (lit "main.go") 42 false
           Sample.w_unparsed).
  reflexivity.
Defined.

(** An INFO record when the INFO file cannot be created. *)
Lemma outputj_createFiles_failure_witness :
  exists w',
    outputj Sample.stacks Sample.createFiles_fails 2 infoLog Sample.handle
            (lit "main.go") 42 false Sample.w_nofile
    = Exited 2 w' /\
    trace w' =
      trace Sample.w_nofile ++ [EvLock]
      ++ (if false || alsoToStderr (logging Sample.w_nofile)
             || (sevnum infoLog
                 >=? sevnum (stderrThreshold (logging Sample.w_nofile)))
          then [EvStderr (record_data Sample.stacks
                            (logging Sample.w_nofile) Sample.handle
                            (lit "main.go") 42)]
          else [])
      ++ []
      ++ [EvStderr (record_data Sample.stacks (logging Sample.w_nofile)
                                Sample.handle (lit "main.go") 42);
          EvExit (lit "permission denied")].
Proof.
  apply (outputj_createFiles_failure Sample.stacks Sample.createFiles_fails 2
           infoLog Sample.handle (lit "main.go") 42 false Sample.w_nofile
           (lit "permission denied") (logging Sample.w_nofile) []).
  - reflexivity.
  - reflexivity.
  - reflexivity.
  - reflexivity.
Defined.

(** [JInfo()] at /src/app/main.go:42 with verbosity 0 is live; [J(2)]
    is nil without a vmodule filter, and live when the return address
    in the wrapper, 4096, is cached at threshold 2. *)
Example JInfo_is_live :
  JInfo Sample.setV Sample.g sample_stack Sample.w
  = Returned (Some Sample.handle) Sample.w.
Proof. vm_compute. reflexivity. Qed.

Example J_2_is_nil :
  J Sample.setV Sample.g sample_stack 2 Sample.w
  = Returned None Sample.w.
Proof. vm_compute. reflexivity. Qed.

Example J_2_is_live_with_vmodule :
  exists w',
    J Sample.setV Sample.g sample_stack 2 Sample.w_vmodule
    = Returned (Some Sample.handle) w' /\
    trace w' = [EvLock; EvUnlock].
Proof. eexists. split; vm_compute; reflexivity. Qed.

(** *** The threshold of a call *)

Section Threshold.

Variable setV : Z -> loggingT -> Z * loggingT.
Variable g : Globals.

Set Default Proof Using "Type".

(** C2. The threshold that [json] compares is that of the wrapper, not
    that of the call site. On a stack with the frame of [json], the
    frame of the wrapper and the frame of the call site, and with a
    time whose fields are not negative, [json] returns, and what it
    returns is a live handle exactly when the level is at most the
    global verbosity, or a vmodule filter is present and the level is
    at most the threshold, cached or resolved by [setV], of the return
    address in the wrapper: the threshold of the call site plays no
    part. The file and the line of a live handle are those of the call
    site. *)
Theorem json_compares_the_wrapper_threshold
    (fj fw fs : runtime.frame) (rest : list runtime.frame)
    (s : severity) (level : Z) (w : world) :
  Time_valid (timeNow w) ->
  let l := logging w in
  let threshold pc :=
    match vmap l !! pc with
    | Some v => v
    | None => (setV pc l).1
    end in
  let site := call_site (Some (runtime.f_file fs, runtime.f_line fs)) in
  exists r w',
    json_on setV g (fj :: fw :: fs :: rest) s level w = Returned r w' /\
    (is_Some r <->
       level <= verbosity l \/
       (0 < filterLength l /\ level <= threshold (runtime.f_pc fw))) /\
    (forall j, r = Some j ->
       exists j0, j = jheader g (timeNow w) j0 s level site.1 site.2).
Proof.
  intros _ l threshold site. subst l threshold site. cbv beta.
  unfold json_on, runtime.Caller, runtime.Callers.
  cbn [nth_error Nat.pred skipn map].
  destruct (json_active_iff setV g
              (Some (runtime.f_file fs, runtime.f_line fs))
              (runtime.f_pc fw :: runtime.f_pc fs :: map runtime.f_pc rest)
              s level w) as (r & w' & Hrun & Hlive & Hhead).
  exists r, w'. split; [exact Hrun|]. split; [|exact Hhead].
  rewrite Hlive. split.
  - intros [H|(Hf & pc & tail & Heq & Hle)]; [left; exact H|].
    right. split; [exact Hf|]. injection Heq as <- _. exact Hle.
  - intros [H|(Hf & Hle)]; [left; exact H|].
    right. split; [exact Hf|]. eauto.
Qed.

End Threshold.

(** Under the rule main=2, with verbosity 0: the rule gives the call
    site in main.go the threshold 2, and [J(2)] there is nil, because
    the return address in the wrapper lies in json.go and gets 0. *)
Lemma J_2_in_main_is_nil_under_vmodule :
  (sample_setV_main 8192 (logging sample_w_filter)).1 = 2 /\
  exists w',
    J sample_setV_main Sample.g sample_stack 2 sample_w_filter
    = Returned None w' /\
    trace w' = [EvLock; EvUnlock] /\
    vmap (logging w') = <[4096 := 0]> ∅.
Proof.
  split; [reflexivity|]. eexists. repeat split; vm_compute; reflexivity.
Qed.

(** The same call, in general. *)
Lemma json_compares_the_wrapper_threshold_witness :
  exists r w',
    json_on sample_setV_main Sample.g sample_stack infoLog 2 sample_w_filter
    = Returned r w' /\
    (is_Some r <->
       2 <= verbosity (logging sample_w_filter) \/
       (0 < filterLength (logging sample_w_filter) /\
        2 <= match vmap (logging sample_w_filter) !! 4096 with
             | Some v => v
             | None =>
                 (sample_setV_main 4096 (logging sample_w_filter)).1
             end)) /\
    (forall j, r = Some j ->
       exists j0,
         j = jheader Sample.g (timeNow sample_w_filter) j0 infoLog 2
               (call_site (Some (lit "/src/app/main.go", 42))).1
               (call_site (Some (lit "/src/app/main.go", 42))).2).
Proof.
  apply (json_compares_the_wrapper_threshold sample_setV_main Sample.g
           (runtime.mkFrame 12288 (lit "/go/src/glog/json.go") 224)
           (runtime.mkFrame 4096 (lit "/go/src/glog/json.go") 47)
           (runtime.mkFrame 8192 (lit "/src/app/main.go") 42)
           [runtime.mkFrame 16384 (lit "/go/src/runtime/proc.go") 250]
           infoLog 2 sample_w_filter).
  unfold Time_valid. cbn. lia.
Defined.

(* ================================================================= *)
(** * Further properties *)

(** Unfolds a run of the sink down to the primitive actions. *)
Ltac run_sink :=
  unfold outputj, fan_out, write_trace, exit, timeoutFlush, file_Write,
    createFiles_M, add_stats;
  cbn [fold_right];
  unfold_M; simp_world.

(** Reduces a run and splits on what the code tests. *)
Ltac run_cases :=
  repeat first
    [ progress simp_world
    | progress cbn [negb andb orb]
    | match goal with
      | H : ?x = _ |- context [?x] => rewrite H
      | |- context [decide (?a = ?b)] =>
          destruct (decide (a = b)) as [?Heq|?Hne];
          [try discriminate | try contradiction]
      | |- context [if negb ?c then _ else _] => destruct c eqn:?
      | |- context [if ?c then _ else _] =>
          match c with
          | context [if _ then _ else _] => fail 1
          | _ => destruct c eqn:?
          end
      | |- context [match ?c with Some _ => _ | None => _ end] =>
          match c with
          | context [match _ with _ => _ end] => fail 1
          | _ => destruct c eqn:?
          end
      end ].

(** ** Runs of the sink below FATAL *)

Section SinkRuns.

Variable stacks : bool -> bytes.
Variable createFiles :
  severity -> loggingT -> option bytes * loggingT * list event.
Variable exit_status : Z.

Set Default Proof Using "Type".

Local Abbreviation outputj' := (outputj stacks createFiles exit_status).

(** X9. In file mode, after [flag.Parse], with the files of the tiers
    up to [s] open, a record below FATAL runs the sink to its end: the
    lock, the echo on standard error when asked for or when [s]
    reaches the threshold, one write of the record to the file of [s]
    and of each lower tier, from [s] down, and the unlock, in that
    order and nothing else; the call returns, [l] is as before, the
    object is back in the pool, and the counters of [s], when set,
    count one line and the bytes of the record. *)
Theorem outputj_file_mode_run (s : severity) (buf : Json) (file : bytes)
    (line : Z) (also : bool) (w : world) :
  s <> fatalLog ->
  flag_Parsed w = true ->
  toStderr (logging w) = false ->
  (forall t, sev_le t s -> l_file (logging w) t = true) ->
  let l := logging w in
  let data := record_data stacks l buf file line in
  let echo :=
    if also || alsoToStderr l || (sevnum s >=? sevnum (stderrThreshold l))
    then [EvStderr data] else [] in
  exists w',
    outputj' s buf file line also w = Returned tt w' /\
    trace w' =
      trace w ++ [EvLock] ++ echo
      ++ map (fun t => EvFile t data) (tiers_down s) ++ [EvUnlock] /\
    logging w' = logging w /\
    jbufpool w' = with_p buf data :: jbufpool w /\
    forall t,
      severityStats w' t =
        if decide (t = s)
        then option_map (count_line (len data)) (severityStats w s)
        else severityStats w t.
Proof.
  intros Hs Hparsed Hmode Hopen l data echo. subst l.
  destruct w as [l parsed noStacks lef now pool st tr].
  destruct l as [ts als thr tl lf vb fl vm].
  cbn in Hparsed, Hmode, Hopen, echo. subst parsed ts.
  assert (Hi : sev_le infoLog s -> lf infoLog = true) by apply Hopen.
  assert (Hw : sev_le warningLog s -> lf warningLog = true) by apply Hopen.
  assert (He : sev_le errorLog s -> lf errorLog = true) by apply Hopen.
  clear Hopen. unfold sev_le in *. subst echo.
  run_sink. fold data.
  destruct (also || als || (sevnum s >=? sevnum thr)); simp_world;
    destruct s; try contradiction; cbn in Hi, Hw, He;
    rewrite ?Hi, ?Hw, ?He by lia; cbn [negb]; simp_world;
    repeat (rewrite ?Hi, ?Hw, ?He by lia; simp_world);
    (destruct (decide _) as [Heq|_]; [discriminate Heq|]); simp_world;
    destruct (st _) as [c|] eqn:Hst; simp_world;
    (eexists; split; [reflexivity|]); simp_world;
    (split; [rewrite <- !app_assoc; reflexivity|]);
    (split; [reflexivity|]); (split; [reflexivity|]);
    intros t; destruct t; cbn [decide]; rewrite ?Hst; reflexivity.
Qed.


(** X10. In stderr-only mode, after [flag.Parse], a record below FATAL
    is written once to standard error between the lock and the unlock
    and to no file, whatever files are open and whatever the threshold
    is; the call returns and the object is back in the pool. *)
Theorem outputj_stderr_only_run (s : severity) (buf : Json) (file : bytes)
    (line : Z) (also : bool) (w : world) :
  s <> fatalLog ->
  flag_Parsed w = true ->
  toStderr (logging w) = true ->
  let data := record_data stacks (logging w) buf file line in
  exists w',
    outputj' s buf file line also w = Returned tt w' /\
    trace w' = trace w ++ [EvLock; EvStderr data; EvUnlock] /\
    logging w' = logging w /\
    jbufpool w' = with_p buf data :: jbufpool w.
Proof.
  intros Hs Hparsed Hmode data.
  destruct w as [l parsed noStacks lef now pool st tr].
  destruct l as [ts als thr tl lf vb fl vm].
  cbn in Hparsed, Hmode. subst parsed ts.
  run_sink. fold data.
  destruct s; try contradiction; run_cases;
    (eexists; split; [reflexivity|]); simp_world;
    (split; [rewrite <- !app_assoc; reflexivity|]);
    split; reflexivity.
Qed.

(** X11. In file mode, for a record below FATAL, when the file of [s]
    is not open and [createFiles] succeeds and leaves the files of the
    tiers up to [s] open, the sink creates the files after the echo on
    standard error and before the first write to a file, writes the
    record to the tiers from [s] down, and leaves [l] as [createFiles]
    left it. *)
Theorem outputj_creates_files (s : severity) (buf : Json) (file : bytes)
    (line : Z) (also : bool) (w : world) (l' : loggingT)
    (created : list event) :
  s <> fatalLog ->
  flag_Parsed w = true ->
  toStderr (logging w) = false ->
  l_file (logging w) s = false ->
  createFiles s (logging w) = (None, l', created) ->
  (forall t, sev_le t s -> l_file l' t = true) ->
  let l := logging w in
  let data := record_data stacks l buf file line in
  let echo :=
    if also || alsoToStderr l || (sevnum s >=? sevnum (stderrThreshold l))
    then [EvStderr data] else [] in
  exists w',
    outputj' s buf file line also w = Returned tt w' /\
    trace w' =
      trace w ++ [EvLock] ++ echo ++ created
      ++ map (fun t => EvFile t data) (tiers_down s) ++ [EvUnlock] /\
    logging w' = l'.
Proof.
  intros Hs Hparsed Hmode Hnil Hcreate Hopen l data echo. subst l.
  destruct w as [l parsed noStacks lef now pool st tr].
  destruct l as [ts als thr tl lf vb fl vm].
  cbn in Hparsed, Hmode, Hnil, Hcreate, echo. subst parsed ts.
  assert (Hi : sev_le infoLog s -> l_file l' infoLog = true) by apply Hopen.
  assert (Hw : sev_le warningLog s -> l_file l' warningLog = true)
    by apply Hopen.
  assert (He : sev_le errorLog s -> l_file l' errorLog = true) by apply Hopen.
  clear Hopen. unfold sev_le in *. subst echo.
  run_sink. fold data.
  destruct (also || als || (sevnum s >=? sevnum thr)); simp_world;
    rewrite Hnil; cbn [negb]; simp_world; rewrite Hcreate; simp_world;
    destruct s; try contradiction; cbn in Hi, Hw, He;
    repeat (rewrite ?Hi, ?Hw, ?He by lia; simp_world);
    (destruct (decide _) as [Heq|_]; [discriminate Heq|]); simp_world;
    destruct (st _) as [c|] eqn:Hst; simp_world;
    (eexists; split; [reflexivity|]); simp_world;
    (split; [rewrite <- !app_assoc; reflexivity|]); reflexivity.
Qed.

End SinkRuns.

(** ** The constructor *)


(** [jheader] assigns [buf] and [p] and leaves the other fields of the
    pooled object as they are. *)
Lemma jheader_keeps_routing (g : Globals) (now : Time) (j : Json)
    (s : severity) (level : Z) (file : bytes) (line : Z) :
  js (jheader g now j s level file line) = js j /\
  jfile (jheader g now j s level file line) = jfile j /\
  jline (jheader g now j s level file line) = jline j.
Proof.
  unfold jheader. destruct (t_offset now >? 0); cbv zeta;
    repeat match goal with
           | |- context [let '(_, _) := ?x in _] => destruct x
           end; repeat split; reflexivity.
Qed.

Section Constructor.

Variable stacks : bool -> bytes.
Variable createFiles :
  severity -> loggingT -> option bytes * loggingT * list event.
Variable exit_status : Z.
Variable setV : Z -> loggingT -> Z * loggingT.
Variable g : Globals.

Set Default Proof Using "Type".

(** What [json] does to the world, whatever it answers. *)
Lemma json_effects (caller : option (bytes * Z)) (callers : list Z)
    (s : severity) (level : Z) (w : world) :
  exists r w',
    json setV g caller callers s level w = Returned r w' /\
    (trace w' = trace w \/ trace w' = trace w ++ [EvLock; EvUnlock]) /\
    match r with
    | Some j =>
        j = jheader g (timeNow w) (hd new_Json (jbufpool w)) s level
              (call_site caller).1 (call_site caller).2 /\
        jbufpool w' = tl (jbufpool w)
    | None => jbufpool w' = jbufpool w
    end /\
    flag_Parsed w' = flag_Parsed w /\
    fatalNoStacks w' = fatalNoStacks w /\
    severityStats w' = severityStats w /\
    (match callers with
     | pc :: _ => is_Some (vmap (logging w) !! pc)
     | [] => True
     end -> logging w' = logging w).
Proof.
  unfold json. destruct (call_site caller) as [file line]. cbn [fst snd].
  destruct w as [l parsed noStacks lef now pool st tr].
  unfold_M. simp_world.
  destruct (verbosity l >=? level); simp_world.
  - destruct pool as [|j0 pool]; do 2 eexists; simp_world;
      (split; [reflexivity|]); simp_world; cbn [hd tl];
      rewrite ?app_nil_r; auto 10.
  - destruct (filterLength l >? 0); simp_world.
    + destruct callers as [|pc rest]; simp_world.
      * do 2 eexists. split; [reflexivity|]. simp_world.
        rewrite <- app_assoc. auto 10.
      * destruct (vmap l !! pc) as [v|] eqn:Hm; simp_world.
        -- destruct (v >=? level); simp_world;
             [destruct pool as [|j0 pool]|]; do 2 eexists; simp_world;
             (split; [reflexivity|]); simp_world; cbn [hd tl];
             rewrite <- ?app_assoc; auto 10.
        -- destruct (setV pc l) as [v l']; simp_world.
           destruct (v >=? level); simp_world;
             [destruct pool as [|j0 pool]|]; do 2 eexists; simp_world;
             (split; [reflexivity|]); simp_world; cbn [hd tl];
             rewrite <- ?app_assoc;
             (repeat split; auto); intros [? [=]].
    + do 2 eexists. split; [reflexivity|]. simp_world. auto 10.
Qed.


Local Abbreviation json' := (json setV g).
Local Abbreviation Msg' := (Msg stacks createFiles exit_status).


(** X8. [jheader] does not assign the severity, the file and the line
    of the object it fills. With a pool whose objects carry the
    severity INFO (as every new object does), the handle that any
    constructor returns carries INFO whatever tier [s] it was asked
    for, the pool keeps that property, and [Msg] on this handle, in
    file mode with the INFO file open, writes the record to the INFO
    file and to no other. *)
Theorem json_records_are_routed_as_INFO (caller : option (bytes * Z))
    (callers : list Z) (s : severity) (level : Z) (t : bytes)
    (w w1 : world) (j : Json) :
  Forall (fun j0 => js j0 = infoLog) (jbufpool w) ->
  json' caller callers s level w = Returned (Some j) w1 ->
  flag_Parsed w1 = true ->
  toStderr (logging w1) = false ->
  l_file (logging w1) infoLog = true ->
  js j = infoLog /\
  Forall (fun j0 => js j0 = infoLog) (jbufpool w1) /\
  exists w2 evs,
    Msg' (Some j) t w1 = Returned tt w2 /\
    trace w2 = trace w1 ++ evs /\
    forall tier,
      file_writes tier evs =
        if decide (tier = infoLog)
        then [record_data stacks (logging w1)
                (with_p j (Msg_bytes (jp j) t)) (jfile j) (jline j)]
        else [].
Proof.
  intros Hpool Hjson Hparsed Hmode Hopen.
  destruct (json_effects caller callers s level w)
    as (r & w' & Hrun & _ & Hr & _).
  rewrite Hjson in Hrun. injection Hrun as <- <-.
  destruct Hr as [Hj Hp].
  assert (Hjs : js j = infoLog).
  { rewrite Hj. rewrite (proj1 (jheader_keeps_routing _ _ _ _ _ _ _)).
    destruct (jbufpool w) as [|j0 pool]; [reflexivity|].
    apply List.Forall_inv in Hpool. exact Hpool. }
  split; [exact Hjs|]. split.
  { rewrite Hp. destruct (jbufpool w) as [|j0 pool]; [constructor|].
    apply List.Forall_inv_tail in Hpool. exact Hpool. }
  unfold Msg. cbn [js jfile jline with_p]. rewrite Hjs.
  set (buf := with_p j (Msg_bytes (jp j) t)).
  change (mkJson (jbuf j) (Msg_bytes (jp j) t) (js j) (jfile j) (jline j))
    with buf.
  generalize (jfile j) (jline j). intros file line.
  clear Hjson Hj Hp Hpool Hjs.
  destruct w1 as [l parsed noStacks lef now pool st tr].
  destruct l as [ts als thr tl lf vb fl vm].
  cbn in Hparsed, Hmode, Hopen. subst parsed ts.
  run_sink. rewrite Hopen. cbn [negb]. simp_world.
  set (data := record_data _ _ buf file line).
  destruct (false || als || (sevnum infoLog >=? sevnum thr)); simp_world;
    rewrite Hopen; simp_world;
    (destruct (decide _) as [Heq|_]; [discriminate Heq|]); simp_world;
    destruct (st infoLog); simp_world;
    (do 2 eexists; split; [reflexivity|]); simp_world;
    (split; [rewrite <- !app_assoc; reflexivity|]);
    intros tier; destruct tier; reflexivity.
Qed.

End Constructor.

(** ** The call site *)

Lemma last_from_spec (c : Z) (t : bytes) :
  forall i found,
    let r := strings.last_from t c i found in
    (r = found /\ ~ In c t) \/
    (i <= r < i + len t /\
     nth (Z.to_nat (r - i)) t 0 = c /\
     ~ In c (skipn (S (Z.to_nat (r - i))) t)).
Proof.
  induction t as [|b t IH]; intros i found; cbn [strings.last_from].
  - left. split; [reflexivity|]. intros [].
  - cbv zeta in IH.
    destruct (IH (i + 1) (if b =? c then i else found))
      as [[Hr Hnot]|(Hr & Hnth & Hnot)].
    + destruct (b =? c) eqn:E.
      * apply Z.eqb_eq in E. right. rewrite Hr.
        unfold len. cbn [length]. split; [lia|].
        rewrite Z.sub_diag. cbn. split; [exact E|exact Hnot].
      * apply Z.eqb_neq in E. left. split; [exact Hr|].
        intros [H|H]; [contradiction|]. apply Hnot, H.
    + right. unfold len in *. cbn [length].
      set (r := strings.last_from t c (i + 1) _) in *.
      replace (Z.to_nat (r - i)) with (S (Z.to_nat (r - (i + 1)))) by lia.
      cbn [nth skipn]. split; [lia|]. split; assumption.
Qed.

(** X6. The file name of a call site is the part of the reported path
    after its last slash, and holds no slash; the path is a directory
    part, empty or ending in a slash, followed by it. A negative line
    number becomes 0. *)
Theorem call_site_is_base_name (file : bytes) (line : Z) :
  exists dir,
    file = dir ++ (call_site (Some (file, line))).1 /\
    (dir = [] \/ exists d, dir = d ++ [ch "/"]) /\
    ~ In (ch "/") (call_site (Some (file, line))).1 /\
    (call_site (Some (file, line))).2 = Z.max line 0.
Proof.
  unfold call_site, strings.LastIndex. cbn [fst snd].
  pose proof (last_from_spec (ch "/") file 0 (-1)) as H. cbv zeta in H.
  set (slash := strings.last_from file (ch "/") 0 (-1)) in *.
  assert (Hline : (if line <? 0 then 0 else line) = Z.max line 0).
  { destruct (line <? 0) eqn:E; bool_hyps; lia. }
  destruct H as [[Hr Hnot]|(Hr & Hnth & Hnot)].
  - rewrite Hr. cbn. exists []. repeat split; auto.
  - destruct (slash >=? 0) eqn:E; [|rewrite Z.geb_leb in E; bool_hyps; lia].
    rewrite Z.sub_0_r in *.
    exists (firstn (Z.to_nat (slash + 1)) file).
    unfold slice_from.
    replace (Z.to_nat (slash + 1)) with (S (Z.to_nat slash)) by lia.
    split; [symmetry; apply firstn_skipn|]. split; [|split; [exact Hnot|exact Hline]].
    right. exists (firstn (Z.to_nat slash) file).
    rewrite (take_S_r file (Z.to_nat slash) (ch "/")); [reflexivity|].
    rewrite <- Hnth.
    destruct (nth_lookup_or_length file (Z.to_nat slash) 0) as [H|H];
      [exact H|unfold len in Hr; lia].
Qed.

(** ** The encoder, rune by rune *)

Lemma flush_shape (t : bytes) (i start : Z) (done x : bytes) :
  0 <= start <= i ->
  (if start <? i then (dq :: done) ++ slice t start i else dq :: done) ++ x
  = dq :: (done ++ slice t start i ++ x).
Proof.
  intros Hst. destruct (start <? i) eqn:E; bool_hyps.
  - cbn [app]. rewrite <- app_assoc. reflexivity.
  - replace start with i by lia. rewrite slice_nil. reflexivity.
Qed.

Lemma slice_from_add (t : bytes) (i n : Z) :
  0 <= i -> 0 <= n ->
  slice_from t (i + n) = skipn (Z.to_nat n) (slice_from t i).
Proof.
  intros Hi Hn. unfold slice_from. rewrite drop_drop. f_equal. lia.
Qed.

Lemma string_step_encodes (e : bool) (t : bytes) (i start : Z) (p : bytes) :
  i < len t -> encodes_inv e t i start p ->
  let '(i', start', p') := string_step t e i start p in
  encodes_inv e t i' start' p'.
Proof.
  intros Hi (done & -> & Hst & Hle & Hall). unfold string_step.
  assert (Hi' : 0 <= i < len t) by lia.
  pose proof (slice_from_at t i Hi') as Hsl.
  destruct (at_ t i <? utf8.RuneSelf) eqn:Hb; unfold utf8.RuneSelf in Hb;
    bool_hyps.
  - destruct (htmlSafeSet (at_ t i) || negb e && safeSet (at_ t i)) eqn:Hs.
    + exists done. repeat split; try lia. intros x Hx.
      rewrite (slice_app t start i (i + 1)), slice_one by lia.
      rewrite <- app_assoc. apply Hall. rewrite Hsl.
      apply enc_safe; assumption.
    + fold (ascii_escape (at_ t i)).
      change (if (at_ t i =? bsl) || (at_ t i =? dq)
              then ?q ++ [bsl; at_ t i]
              else if at_ t i =? 10 then ?q ++ [bsl; ch "n"]
              else if at_ t i =? 13 then ?q ++ [bsl; ch "r"]
              else if at_ t i =? 9 then ?q ++ [bsl; ch "t"]
              else ?q ++ [bsl; ch "u"; ch "0"; ch "0";
                          at_ hex (Z.shiftr (at_ t i) 4);
                          at_ hex (Z.land (at_ t i) 15)])
        with (if (at_ t i =? bsl) || (at_ t i =? dq)
              then q ++ [bsl; at_ t i]
              else if at_ t i =? 10 then q ++ [bsl; ch "n"]
              else if at_ t i =? 13 then q ++ [bsl; ch "r"]
              else if at_ t i =? 9 then q ++ [bsl; ch "t"]
              else q ++ [bsl; ch "u"; ch "0"; ch "0";
                         at_ hex (Z.shiftr (at_ t i) 4);
                         at_ hex (Z.land (at_ t i) 15)]).
      match goal with
      | |- encodes_inv _ _ _ _ ?P =>
          assert (HP : P = (if start <? i then (dq :: done) ++ slice t start i
                            else dq :: done) ++ ascii_escape (at_ t i))
            by (unfold ascii_escape; repeat case_match; reflexivity);
          rewrite HP; clear HP
      end.
      rewrite flush_shape by lia.
      eexists. split; [reflexivity|]. repeat split; try lia.
      intros x Hx. rewrite slice_nil. cbn [app]. rewrite <- !app_assoc.
      apply Hall. rewrite Hsl. apply enc_escape; assumption.
  - rewrite Hsl.
    destruct (utf8.DecodeRuneInString (at_ t i :: slice_from t (i + 1)))
      as [c size] eqn:Hd.
    pose proof (DecodeRuneInString_size (at_ t i) (slice_from t (i + 1)))
      as Hsz. rewrite Hd in Hsz. cbn [snd] in Hsz.
    assert (Hlen : len (slice_from t i) = len t - i).
    { unfold slice_from, len in *. rewrite length_skipn. lia. }
    destruct ((c =? utf8.RuneError) && (size =? 1)) eqn:Herr.
    + assert (size = 1) by (bool_hyps; assumption). subst size.
      rewrite flush_shape by lia.
      eexists. split; [reflexivity|]. repeat split; try lia.
      intros x Hx. rewrite slice_nil. cbn [app]. rewrite <- !app_assoc.
      apply Hall. rewrite Hsl. eapply enc_bad; eassumption.
    + destruct (DecodeRuneInString_high _ _ _ _ Hb Hd Herr)
        as (_ & Hfit & _).
      rewrite <- Hsl in Hfit.
      assert (Hend : i + size <= len t) by (unfold len in *; lia).
      destruct ((c =? 8232) || (c =? 8233)) eqn:Hsep.
      * rewrite flush_shape by lia.
        eexists. split; [reflexivity|]. repeat split; try lia.
        intros x Hx. rewrite slice_nil. cbn [app]. rewrite <- !app_assoc.
        apply Hall. rewrite Hsl. eapply enc_sep; try eassumption.
        rewrite <- Hsl, <- slice_from_add by lia. exact Hx.
      * exists done. repeat split; try lia. intros x Hx.
        rewrite (slice_app t start i (i + size)), slice_width by lia.
        rewrite <- app_assoc. apply Hall. rewrite Hsl.
        eapply enc_rune; try eassumption.
        rewrite <- Hsl, <- slice_from_add by lia. exact Hx.
Qed.

Lemma string_loop_encodes (e : bool) (fuel : nat) (t : bytes)
    (i start : Z) (p : bytes) (start' : Z) (p' : bytes) :
  encodes_inv e t i start p ->
  string_loop fuel t e i start p = Some (start', p') ->
  encodes_inv e t (len t) start' p'.
Proof.
  revert i start p. induction fuel as [|fuel IH]; intros i start p Hinv H;
    simpl in H; destruct (i <? len t) eqn:Hi; bool_hyps; try discriminate.
  - injection H as <- <-. destruct Hinv as (done & ? & ? & ? & ?).
    replace (len t) with i by lia. exists done. auto.
  - pose proof (string_step_encodes e t i start p Hi Hinv) as Hstep.
    destruct (string_step t e i start p) as [[i1 start1] p1]. eauto.
  - injection H as <- <-. destruct Hinv as (done & ? & ? & ? & ?).
    replace (len t) with i by lia. exists done. auto.
Qed.

(** [string] writes a quote, an encoding of the input rune by rune,
    and a quote. *)
Lemma string_encodes (t : bytes) (e : bool) :
  exists body, string t e [] = dq :: body ++ [dq] /\ encodes e t body.
Proof.
  destruct (string_runs t e []) as (start & p & Hloop & ->).
  cbn [app] in Hloop.
  assert (H0 : encodes_inv e t 0 0 [dq]).
  { exists []. split; [reflexivity|]. split; [lia|].
    split; [unfold len; lia|]. intros x Hx. rewrite slice_nil. exact Hx. }
  destruct (string_loop_encodes _ _ _ _ _ _ _ _ H0 Hloop)
    as (done & -> & Hst & _ & Hall).
  exists (done ++ slice t start (len t)). split.
  - rewrite slice_to_end by lia.
    destruct (start <? len t) eqn:E; bool_hyps.
    + cbn [app]. rewrite <- !app_assoc. reflexivity.
    + unfold slice_from. rewrite skipn_all2 by (unfold len in *; lia).
      rewrite app_nil_r. reflexivity.
  - specialize (Hall []). rewrite app_nil_r in Hall. apply Hall.
    unfold slice_from. rewrite skipn_all2 by (unfold len; lia).
    constructor.
Qed.

(** ** Lengths and round trip of the encoder *)

Lemma ascii_escape_length (b : Z) :
  (2 <= length (ascii_escape b) <= 6)%nat.
Proof. unfold ascii_escape. repeat case_match; cbn; lia. Qed.

Lemma encodes_length (e : bool) (t x : bytes) :
  encodes e t x -> (length t <= length x <= 6 * length t)%nat.
Proof.
  induction 1 as [|b r x Hb Hs _ IH|b r x Hb Hs _ IH
                  |b r x c size Hb Hd Herr _ IH
                  |b r x c size Hb Hd Herr Hsep _ IH
                  |b r x c size Hb Hd Herr Hsep _ IH].
  - cbn. lia.
  - cbn [length]. lia.
  - rewrite length_app. pose proof (ascii_escape_length b).
    cbn [length]. lia.
  - rewrite length_app. cbn [length]. lia.
  - destruct (DecodeRuneInString_high _ _ _ _ Hb Hd Herr) as (H1 & Hfit & _).
    pose proof (DecodeRuneInString_size b r) as Hsz.
    rewrite Hd in Hsz. cbn [snd] in Hsz.
    rewrite length_skipn in IH. rewrite length_app. cbn [length] in *. lia.
  - destruct (DecodeRuneInString_high _ _ _ _ Hb Hd Herr) as (H1 & Hfit & _).
    rewrite length_skipn in IH. rewrite length_app, length_firstn.
    cbn [length] in *. lia.
Qed.

(** X3. What [string] appends is at least two bytes longer than the
    text, and at most six times as long plus two. *)
Theorem string_length_bounds (t : bytes) (e : bool) :
  len t + 2 <= len (string t e []) <= 6 * len t + 2.
Proof.
  destruct (string_encodes t e) as (body & -> & Hb).
  apply encodes_length in Hb. unfold len.
  cbn [length]. rewrite length_app. cbn [length]. lia.
Qed.

(** *** Round trip *)

Lemma unescape_raw (b : Z) (x : bytes) :
  32 <= b -> b <> dq -> b <> bsl ->
  unescape (b :: x) = match unescape x with
                      | Some s => Some (b :: s)
                      | None => None
                      end.
Proof.
  intros H1 H2 H3. cbn [unescape].
  destruct (b =? bsl) eqn:E1; bool_hyps; [contradiction|].
  destruct (b =? dq) eqn:E2; bool_hyps; [contradiction|].
  destruct (b <? 32) eqn:E3; bool_hyps; [lia|]. reflexivity.
Qed.

Lemma unescape_high (s x : bytes) :
  Forall (fun b => 128 <= b) s ->
  unescape (s ++ x) = match unescape x with
                      | Some u => Some (s ++ u)
                      | None => None
                      end.
Proof.
  induction 1 as [|b s Hb _ IH]; cbn [app].
  - destruct (unescape x); reflexivity.
  - rewrite unescape_raw by (unfold dq, bsl; lia). rewrite IH.
    destruct (unescape x); reflexivity.
Qed.

Lemma below_128 (b : Z) :
  0 <= b < 128 -> In b (map Z.of_nat (seq 0 128)).
Proof.
  intros H. apply in_map_iff. exists (Z.to_nat b). split; [lia|].
  apply in_seq. lia.
Qed.

Lemma unescape_ascii_escape (b : Z) (x : bytes) :
  0 <= b < 128 ->
  unescape (ascii_escape b ++ x) = match unescape x with
                                   | Some s => Some (b :: s)
                                   | None => None
                                   end.
Proof.
  intros H. apply below_128 in H. cbv [map seq Z.of_nat Pos.of_succ_nat
    Pos.succ] in H.
  repeat (destruct H as [<-|H]; [reflexivity|]).
  destruct H.
Qed.

(** *** Bit arithmetic of the decoder *)

Lemma lor_shiftl_low (q z n : Z) :
  0 <= n -> 0 <= z < 2 ^ n -> Z.lor (Z.shiftl q n) z = q * 2 ^ n + z.
Proof.
  intros Hn Hz. rewrite <- Z.shiftl_mul_pow2 by exact Hn.
  rewrite <- Z.add_lor_land.
  assert (Z.land (Z.shiftl q n) z = 0) as ->; [|lia].
  apply Z.bits_inj'. intros i Hi. rewrite Z.land_spec, Z.bits_0.
  destruct (Z.lt_ge_cases i n) as [Hlt|Hge].
  - rewrite Z.shiftl_spec_low by exact Hlt. reflexivity.
  - assert (Z.testbit z i = false) as ->; [|apply andb_false_r].
    destruct (Z.eq_dec z 0) as [->|Hz0]; [apply Z.bits_0|].
    apply Z.bits_above_log2; [lia|].
    apply Z.log2_lt_pow2; [lia|].
    apply Z.lt_le_trans with (2 ^ n); [lia|].
    apply Z.pow_le_mono_r; lia.
Qed.

Lemma land_low (s n : Z) (k : Z) :
  0 <= n -> k = Z.ones n -> Z.land s k = s mod 2 ^ n.
Proof. intros Hn ->. apply Z.land_ones. exact Hn. Qed.

Lemma mod_offset (s m q : Z) :
  0 <= s - m * q < m -> s mod m = s - m * q.
Proof.
  intros H. symmetry. apply (Z.mod_unique s m q (s - m * q)); lia.
Qed.

(** The code point of a three-byte sequence. *)
Lemma rune3_value (s0 s1 s2 : Z) :
  224 <= s0 < 240 -> 128 <= s1 <= 191 -> 128 <= s2 <= 191 ->
  Z.lor (Z.lor (Z.shiftl (Z.land s0 15) 12) (Z.shiftl (Z.land s1 63) 6))
        (Z.land s2 63)
  = (s0 - 224) * 4096 + (s1 - 128) * 64 + (s2 - 128).
Proof.
  intros H0 H1 H2.
  rewrite (land_low s0 4 15), (land_low s1 6 63), (land_low s2 6 63)
    by (reflexivity || lia).
  change (2 ^ 4) with 16. change (2 ^ 6) with 64.
  rewrite (mod_offset s0 16 14) by lia.
  change (16 * 14) with 224.
  rewrite (mod_offset s1 64 2) by lia.
  change (64 * 2) with 128.
  rewrite (mod_offset s2 64 2) by lia.
  change (64 * 2) with 128.
  rewrite (Z.shiftl_mul_pow2 (s0 - 224) 12) by lia.
  change (2 ^ 12) with (64 * 2 ^ 6).
  replace ((s0 - 224) * (64 * 2 ^ 6)) with (Z.shiftl ((s0 - 224) * 64) 6)
    by (rewrite Z.shiftl_mul_pow2; lia).
  rewrite <- Z.shiftl_lor.
  rewrite (lor_shiftl_low _ (s2 - 128) 6) by (change (2 ^ 6) with 64; lia).
  replace ((s0 - 224) * 64) with (Z.shiftl (s0 - 224) 6)
    by (rewrite Z.shiftl_mul_pow2; lia).
  rewrite (lor_shiftl_low _ (s1 - 128) 6) by (change (2 ^ 6) with 64; lia).
  change (2 ^ 6) with 64. lia.
Qed.

(** The code point of a two-byte sequence. *)
Lemma rune2_value (s0 s1 : Z) :
  194 <= s0 < 224 -> 128 <= s1 <= 191 ->
  Z.lor (Z.shiftl (Z.land s0 31) 6) (Z.land s1 63)
  = (s0 - 192) * 64 + (s1 - 128).
Proof.
  intros H0 H1.
  rewrite (land_low s0 5 31), (land_low s1 6 63) by (reflexivity || lia).
  change (2 ^ 5) with 32. change (2 ^ 6) with 64.
  rewrite (mod_offset s0 32 6) by lia.
  change (32 * 6) with 192.
  rewrite (mod_offset s1 64 2) by lia.
  change (64 * 2) with 128.
  rewrite (lor_shiftl_low _ (s1 - 128) 6) by (change (2 ^ 6) with 64; lia).
  change (2 ^ 6) with 64. lia.
Qed.

(** The code point of a four-byte sequence. *)
Lemma rune4_value (s0 s1 s2 s3 : Z) :
  240 <= s0 < 245 -> 128 <= s1 <= 191 -> 128 <= s2 <= 191 ->
  128 <= s3 <= 191 ->
  Z.lor (Z.lor (Z.lor (Z.shiftl (Z.land s0 7) 18)
                      (Z.shiftl (Z.land s1 63) 12))
               (Z.shiftl (Z.land s2 63) 6))
        (Z.land s3 63)
  = (s0 - 240) * 262144 + (s1 - 128) * 4096 + (s2 - 128) * 64 + (s3 - 128).
Proof.
  intros H0 H1 H2 H3.
  rewrite (land_low s0 3 7), (land_low s1 6 63), (land_low s2 6 63),
    (land_low s3 6 63) by (reflexivity || lia).
  change (2 ^ 3) with 8. change (2 ^ 6) with 64.
  rewrite (mod_offset s0 8 30) by lia.
  change (8 * 30) with 240.
  rewrite (mod_offset s1 64 2) by lia.
  change (64 * 2) with 128.
  rewrite (mod_offset s2 64 2) by lia.
  change (64 * 2) with 128.
  rewrite (mod_offset s3 64 2) by lia.
  change (64 * 2) with 128.
  replace (Z.shiftl (s0 - 240) 18) with (Z.shiftl (Z.shiftl (s0 - 240) 6) 12)
    by (rewrite Z.shiftl_shiftl by lia; reflexivity).
  rewrite <- Z.shiftl_lor.
  rewrite (lor_shiftl_low _ (s1 - 128) 6) by (change (2 ^ 6) with 64; lia).
  replace (Z.shiftl ((s0 - 240) * 2 ^ 6 + (s1 - 128)) 12)
    with (Z.shiftl (Z.shiftl ((s0 - 240) * 2 ^ 6 + (s1 - 128)) 6) 6)
    by (rewrite Z.shiftl_shiftl by lia; reflexivity).
  rewrite <- Z.shiftl_lor.
  rewrite (lor_shiftl_low _ (s2 - 128) 6) by (change (2 ^ 6) with 64; lia).
  rewrite (lor_shiftl_low _ (s3 - 128) 6) by (change (2 ^ 6) with 64; lia).
  change (2 ^ 6) with 64. lia.
Qed.

Lemma accept_range (s0 : Z) :
  128 <= (utf8.accept s0).1 /\ (utf8.accept s0).2 <= 191.
Proof. unfold utf8.accept. repeat case_match; cbn; lia. Qed.

(** What [DecodeRuneInString] answers on a valid sequence that starts
    with a byte from 128 on: the sequence has two, three or four bytes
    in the ranges of the UTF-8 table, and the rune is their value. *)
Lemma DecodeRuneInString_value (s0 : Z) (r : bytes) (c size : Z) :
  128 <= s0 ->
  utf8.DecodeRuneInString (s0 :: r) = (c, size) ->
  (c =? utf8.RuneError) && (size =? 1) = false ->
  (exists s1 r',
      r = s1 :: r' /\ size = 2 /\ 194 <= s0 < 224 /\ 128 <= s1 <= 191 /\
      c = (s0 - 192) * 64 + (s1 - 128)) \/
  (exists s1 s2 r',
      r = s1 :: s2 :: r' /\ size = 3 /\ 224 <= s0 < 240 /\
      (utf8.accept s0).1 <= s1 <= (utf8.accept s0).2 /\ 128 <= s2 <= 191 /\
      c = (s0 - 224) * 4096 + (s1 - 128) * 64 + (s2 - 128)) \/
  (exists s1 s2 s3 r',
      r = s1 :: s2 :: s3 :: r' /\ size = 4 /\ 240 <= s0 < 245 /\
      (utf8.accept s0).1 <= s1 <= (utf8.accept s0).2 /\
      128 <= s2 <= 191 /\ 128 <= s3 <= 191 /\
      c = (s0 - 240) * 262144 + (s1 - 128) * 4096 + (s2 - 128) * 64
          + (s3 - 128)).
Proof.
  intros Hs0 H Hne. unfold utf8.DecodeRuneInString in H.
  pose proof (accept_range s0) as Hacc.
  destruct (utf8.accept s0) as [lo hi] eqn:Ea. cbn [fst snd] in *.
  unfold utf8.size_of_first, utf8.not_cont, len in H.
  repeat case_match; simplify_eq; bool_hyps; simpl in *;
    try discriminate; try lia.
  - left. eexists _, _. repeat split; try lia.
    apply rune2_value; lia.
  - right. left. eexists _, _, _. repeat split; try lia.
    apply rune3_value; lia.
  - right. right. eexists _, _, _, _. repeat split; try lia.
    apply rune4_value; lia.
Qed.

Lemma separator_cases (c : Z) :
  (c =? 8232) || (c =? 8233) = true -> c = 8232 \/ c = 8233.
Proof.
  intros H. apply orb_true_iff in H.
  destruct H as [H|H]; apply Z.eqb_eq in H; tauto.
Qed.

Lemma safe_is_raw (e : bool) (b : Z) :
  htmlSafeSet b || (negb e && safeSet b) = true -> raw_ok b.
Proof.
  intros H. apply orb_true_iff in H. destruct H as [H|H].
  - apply htmlSafeSet_raw in H. tauto.
  - apply andb_true_iff in H. destruct H as [_ H].
    apply safeSet_raw. exact H.
Qed.

(** The two separators are the sequences E2 80 A8 and E2 80 A9. *)
Lemma DecodeRuneInString_separator (b : Z) (r : bytes) (c size : Z) :
  128 <= b ->
  utf8.DecodeRuneInString (b :: r) = (c, size) ->
  (c =? utf8.RuneError) && (size =? 1) = false ->
  (c =? 8232) || (c =? 8233) = true ->
  firstn (Z.to_nat size) (b :: r) = [226; 128; c - 8064].
Proof.
  intros Hb Hd Hne Hc. apply separator_cases in Hc.
  pose proof (accept_range b) as Hacc.
  destruct (DecodeRuneInString_value b r c size Hb Hd Hne)
    as [(s1 & r' & -> & -> & H0 & H1 & ->)
       |[(s1 & s2 & r' & -> & -> & H0 & H1 & H2 & ->)
        |(s1 & s2 & s3 & r' & -> & -> & H0 & H1 & H2 & H3 & ->)]];
    bool_hyps.
  - lia.
  - change (Z.to_nat 3) with 3%nat. cbn [firstn].
    assert (b = 226) by lia. assert (s1 = 128) by lia. subst b s1.
    f_equal. f_equal. f_equal. lia.
  - exfalso. unfold utf8.accept in *.
    repeat case_match; cbn [fst snd] in *; bool_hyps; lia.
Qed.

Lemma unescape_separator (c : Z) (x : bytes) :
  c = 8232 \/ c = 8233 ->
  unescape ([bsl; ch "u"; ch "2"; ch "0"; ch "2"; at_ hex (Z.land c 15)] ++ x)
  = match unescape x with
    | Some s => Some ([226; 128; c - 8064] ++ s)
    | None => None
    end.
Proof. intros [->| ->]; reflexivity. Qed.

Lemma encodes_unescape (e : bool) (t x : bytes) :
  encodes e t x -> ValidString t -> unescape x = Some t.
Proof.
  induction 1 as [|b r x Hb Hs _ IH|b r x Hb Hs _ IH
                  |b r x c size Hb Hd Herr _ IH
                  |b r x c size Hb Hd Herr Hsep _ IH
                  |b r x c size Hb Hd Herr Hsep _ IH]; intros Hv.
  - reflexivity.
  - inversion Hv; subst; [|lia].
    destruct (safe_is_raw e b Hs) as (Hr1 & Hr2 & Hr3).
    rewrite unescape_raw by assumption. rewrite IH by assumption.
    reflexivity.
  - inversion Hv; subst; [|lia].
    rewrite unescape_ascii_escape by assumption.
    rewrite IH by assumption. reflexivity.
  - inversion Hv; subst; [lia|]. congruence.
  - inversion Hv as [|? ? ? ?|? ? c' size' _ Hd' _ Hv']; subst; [lia|].
    rewrite Hd in Hd'. injection Hd' as <- <-.
    rewrite unescape_separator by (apply separator_cases; exact Hsep).
    rewrite IH by exact Hv'.
    rewrite <- (DecodeRuneInString_separator b r c size) by assumption.
    rewrite firstn_skipn. reflexivity.
  - inversion Hv as [|? ? ? ?|? ? c' size' _ Hd' _ Hv']; subst; [lia|].
    rewrite Hd in Hd'. injection Hd' as <- <-.
    destruct (DecodeRuneInString_high _ _ _ _ Hb Hd Herr) as (_ & _ & Hhigh).
    rewrite unescape_high by exact Hhigh.
    rewrite IH by exact Hv'. rewrite firstn_skipn. reflexivity.
Qed.

(** X4. Round trip: for a text of valid UTF-8, what [string] writes
    between the quotes denotes, by the escapes of RFC 8259, the text
    itself, whether HTML escaping is on or off. *)
Theorem string_round_trip (t : bytes) (e : bool) :
  ValidString t ->
  exists body,
    string t e [] = dq :: body ++ [dq] /\ unescape body = Some t.
Proof.
  intros Hv. destruct (string_encodes t e) as (body & Hs & Hb).
  exists body. split; [exact Hs|].
  apply (encodes_unescape e); assumption.
Qed.

(** ** Stores into the array *)

Lemma dec_length (n : nat) (d : Z) : length (dec n d) = n.
Proof.
  revert d. induction n as [|n IH]; intros d; cbn [dec]; [reflexivity|].
  rewrite length_app, IH. cbn. lia.
Qed.

Lemma store_app (i : Z) (xs ys b : bytes) :
  store i (xs ++ ys) b = store (i + len xs) ys (store i xs b).
Proof.
  revert i b. induction xs as [|x xs IH]; intros i b; cbn [app store].
  - unfold len. cbn. rewrite Z.add_0_r. reflexivity.
  - rewrite IH. f_equal. unfold len. cbn [length]. lia.
Qed.

Lemma set_buf_commute (i j v u : Z) (b : bytes) :
  0 <= i -> 0 <= j -> i <> j ->
  set_buf i v (set_buf j u b) = set_buf j u (set_buf i v b).
Proof.
  intros Hi Hj Hne. unfold set_buf. apply list_insert_insert_ne. lia.
Qed.

Lemma store_set_buf (i j v : Z) (xs b : bytes) :
  0 <= j -> 0 <= i -> (j < i \/ i + len xs <= j) ->
  store i xs (set_buf j v b) = set_buf j v (store i xs b).
Proof.
  revert i b. induction xs as [|x xs IH]; intros i b Hj Hi Hout;
    cbn [store]; [reflexivity|].
  unfold len in Hout. cbn [length] in Hout.
  rewrite (set_buf_commute i j) by lia.
  apply IH; unfold len; lia.
Qed.

Lemma store_length (i : Z) (xs b : bytes) :
  length (store i xs b) = length b.
Proof.
  revert i b. induction xs as [|x xs IH]; intros i b; cbn [store];
    [reflexivity|].
  rewrite IH. unfold set_buf. apply length_insert.
Qed.

(** Storing [xs] at [i] inside the array replaces that stretch. *)
Lemma store_inside (i : Z) (xs b : bytes) :
  0 <= i -> i + len xs <= len b ->
  store i xs b
  = firstn (Z.to_nat i) b ++ xs ++ skipn (Z.to_nat (i + len xs)) b.
Proof.
  revert i b. induction xs as [|x xs IH]; intros i b Hi Hfit;
    cbn [store].
  - unfold len. cbn [length app]. rewrite Z.add_0_r.
    symmetry. apply firstn_skipn.
  - unfold len in *. cbn [length] in Hfit.
    rewrite IH; [|lia|unfold set_buf; rewrite length_insert; lia].
    unfold set_buf.
    replace (Z.to_nat (i + 1)) with (S (Z.to_nat i)) by lia.
    rewrite drop_insert_lt by lia.
    rewrite (take_S_r _ _ x) by (apply list_lookup_insert_eq; lia).
    rewrite take_insert_ge by lia.
    rewrite <- app_assoc. cbn [app length].
    replace (Z.to_nat (i + 1 + Z.of_nat (length xs)))
      with (Z.to_nat (i + Z.of_nat (S (length xs)))) by lia.
    reflexivity.
Qed.

Lemma store_commute (i j : Z) (xs ys b : bytes) :
  0 <= i -> 0 <= j -> (i + len xs <= j \/ j + len ys <= i) ->
  store i xs (store j ys b) = store j ys (store i xs b).
Proof.
  revert i b. induction xs as [|x xs IH]; intros i b Hi Hj Hd;
    cbn [store]; [reflexivity|].
  unfold len in Hd. cbn [length] in Hd.
  rewrite <- store_set_buf by (unfold len; lia).
  apply IH; unfold len; lia.
Qed.

(** Stores that follow each other make one store. *)
Lemma store_then (i j : Z) (xs ys b : bytes) :
  0 <= i -> j = i + len xs ->
  store i xs (store j ys b) = store i (xs ++ ys) b.
Proof.
  intros Hi ->. rewrite store_app.
  apply store_commute; unfold len; lia.
Qed.

Lemma digit_0 : digit 0 = ch "0".
Proof. reflexivity. Qed.

Lemma dec_0 (m : nat) : dec m 0 = repeat (ch "0") m.
Proof.
  induction m as [|m IH]; [reflexivity|].
  cbn [dec]. change (Z.quot 0 10) with 0. rewrite IH, digit_0.
  rewrite <- repeat_cons. reflexivity.
Qed.

(** Leading zeros. *)
Lemma dec_pad (m n : nat) (d : Z) :
  0 <= d < 10 ^ Z.of_nat n ->
  dec (m + n) d = repeat (ch "0") m ++ dec n d.
Proof.
  revert d. induction n as [|n IH]; intros d Hd.
  - change (10 ^ Z.of_nat 0) with 1 in Hd. assert (d = 0) as -> by lia.
    rewrite Nat.add_0_r, dec_0. cbn [dec]. rewrite app_nil_r. reflexivity.
  - rewrite Nat.add_succ_r. cbn [dec]. rewrite IH, app_assoc; [reflexivity|].
    rewrite Nat2Z.inj_succ, Z.pow_succ_r in Hd by lia.
    split; [apply Z.quot_pos; lia|].
    apply Z.quot_lt_upper_bound; lia.
Qed.

(** The first loop of [timestamp], and its third: the digits of [d],
    as many as [d] has, end just before [i]. *)
Lemma put_digits_run (fuel : nat) :
  forall (d i k : Z) (b : bytes),
    0 <= d < 2 ^ Z.of_nat fuel ->
    exists n : nat,
      d < 10 ^ Z.of_nat n /\
      (n = 0%nat \/ 10 ^ (Z.of_nat n - 1) <= d) /\
      (Z.of_nat n <= i ->
       put_digits fuel d i k b
       = (i - Z.of_nat n, k - Z.of_nat n,
          store (i - Z.of_nat n) (dec n d) b)).
Proof.
  induction fuel as [|fuel IH]; intros d i k b Hd.
  - change (2 ^ Z.of_nat 0) with 1 in Hd. exists 0%nat.
    split; [cbn; lia|]. split; [left; reflexivity|]. intros _.
    cbn [put_digits dec store Z.of_nat]. rewrite !Z.sub_0_r. reflexivity.
  - cbn [put_digits]. destruct (d =? 0) eqn:E; bool_hyps.
    + exists 0%nat. split; [cbn; lia|]. split; [left; reflexivity|].
      intros _. cbn [dec store Z.of_nat]. rewrite !Z.sub_0_r. reflexivity.
    + rewrite Nat2Z.inj_succ, Z.pow_succ_r in Hd by lia.
      assert (Hq : 0 <= Z.quot d 10 < 2 ^ Z.of_nat fuel).
      { split; [apply Z.quot_pos; lia|].
        apply Z.quot_lt_upper_bound; lia. }
      destruct (IH (Z.quot d 10) (i - 1) (k - 1)
                   (set_buf (i - 1) (at_ digits (Z.rem d 10)) b) Hq)
        as (n & Hlt & Hge & Hrun).
      pose proof (Z.quot_rem' d 10) as Hqr.
      pose proof (Z.rem_bound_pos d 10) as Hr.
      exists (S n). rewrite Nat2Z.inj_succ, Z.pow_succ_r by lia.
      split; [lia|]. split.
      * right. replace (Z.succ (Z.of_nat n) - 1) with (Z.of_nat n) by lia.
        destruct n as [|n]; [cbn; lia|].
        destruct Hge as [Hge|Hge]; [discriminate Hge|].
        replace (Z.of_nat (S n)) with (Z.succ (Z.of_nat (S n) - 1)) by lia.
        rewrite Z.pow_succ_r by lia. lia.
      * intros Hn. rewrite Hrun by lia. cbn [dec].
        f_equal; [f_equal; lia|].
        rewrite store_app. unfold len at 1. rewrite dec_length.
        cbn [store].
        rewrite store_set_buf by (unfold len; rewrite ?dec_length; lia).
        unfold digit. f_equal; [lia|]. f_equal. lia.
Qed.

Lemma dec_fuel_enough (d : Z) : 0 <= d -> d < 2 ^ Z.of_nat (dec_fuel d).
Proof.
  intros Hd. unfold dec_fuel. rewrite Nat2Z.inj_succ.
  rewrite Z.abs_eq by exact Hd.
  rewrite Z2Nat.id by apply Z.log2_nonneg.
  destruct (Z.eq_dec d 0) as [->|Hne]; [cbn; lia|].
  apply Z.log2_spec. lia.
Qed.

(** The second loop of [timestamp]. *)
Lemma put_zeros_run (k : nat) :
  forall (i : Z) (b : bytes),
    Z.of_nat k <= i ->
    put_zeros k i b
    = (i - Z.of_nat k, store (i - Z.of_nat k) (repeat (ch "0") k) b).
Proof.
  induction k as [|k IH]; intros i b Hi.
  - cbn [put_zeros repeat store Z.of_nat]. rewrite Z.sub_0_r. reflexivity.
  - cbn [put_zeros]. rewrite IH by lia.
    f_equal; [lia|].
    change (repeat (ch "0") (S k)) with (ch "0" :: repeat (ch "0") k).
    rewrite repeat_cons, store_app. unfold len at 1.
    rewrite repeat_length. cbn [store].
    rewrite store_set_buf by (unfold len; rewrite ?repeat_length; lia).
    f_equal; [lia|]. f_equal. lia.
Qed.

(** The number of digits of a number between two powers of ten. *)
Lemma digits_between (n m : nat) (d : Z) :
  d < 10 ^ Z.of_nat n -> (n = 0%nat \/ 10 ^ (Z.of_nat n - 1) <= d) ->
  10 ^ (Z.of_nat m - 1) <= d < 10 ^ Z.of_nat m -> (0 < m)%nat -> n = m.
Proof.
  intros Hlt Hge [Hlo Hhi] Hm.
  assert (H1 : Z.of_nat m - 1 < Z.of_nat n).
  { apply (Z.pow_lt_mono_r_iff 10); lia. }
  destruct Hge as [->|Hge]; [lia|].
  assert (H2 : Z.of_nat n - 1 < Z.of_nat m).
  { apply (Z.pow_lt_mono_r_iff 10); lia. }
  lia.
Qed.

Lemma set_buf_store (i v : Z) (b : bytes) : set_buf i v b = store i [v] b.
Proof. reflexivity. Qed.

(** [timestamp] for a time whose seconds have [n] digits: the text
    ends at [i + 17] and starts [n + 7] bytes before. *)
Lemma timestamp_run (n : nat) (i : Z) (now : Time) (b : bytes) :
  Z.of_nat n <= i + 10 ->
  0 <= t_nanosecond now < 10 ^ 9 ->
  (n = 0%nat /\ t_unix now = 0 \/
   (0 < n)%nat /\ 10 ^ (Z.of_nat n - 1) <= t_unix now < 10 ^ Z.of_nat n) ->
  timestamp i now b
  = (i + 10 - Z.of_nat n,
     store (i + 10 - Z.of_nat n)
           (dec n (t_unix now) ++ [ch "."]
            ++ dec 6 (Z.quot (t_nanosecond now) 1000)) b).
Proof.
  intros Hi Hns Hunix. unfold timestamp.
  set (micro := Z.quot (t_nanosecond now) 1000).
  assert (Hm : 0 <= micro < 10 ^ 6).
  { unfold micro. split; [apply Z.quot_pos; lia|].
    apply Z.quot_lt_upper_bound; lia. }
  destruct (put_digits_run (dec_fuel micro) micro (i + 17) 6 b)
    as (n1 & Hlt1 & Hge1 & Hrun1).
  { split; [lia|]. apply dec_fuel_enough. lia. }
  assert (Hn1 : (n1 <= 6)%nat).
  { destruct Hge1 as [->|Hge1]; [lia|].
    assert (Z.of_nat n1 - 1 < 6); [|lia].
    apply (Z.pow_lt_mono_r_iff 10); lia. }
  rewrite Hrun1 by lia.
  rewrite put_zeros_run by lia.
  replace (Z.of_nat (Z.to_nat (6 - Z.of_nat n1))) with (6 - Z.of_nat n1)
    by lia.
  rewrite store_then by (rewrite ?repeat_length; unfold len;
                         rewrite ?repeat_length; lia).
  rewrite <- (dec_pad (Z.to_nat (6 - Z.of_nat n1)) n1) by lia.
  replace (Z.to_nat (6 - Z.of_nat n1) + n1)%nat with 6%nat by lia.
  rewrite set_buf_store.
  replace (i + 17 - Z.of_nat n1 - (6 - Z.of_nat n1) - 1) with (i + 10)
    by lia.
  replace (i + 17 - Z.of_nat n1 - (6 - Z.of_nat n1)) with (i + 11) by lia.
  rewrite store_then by (unfold len; cbn [length]; lia).
  destruct (put_digits_run (dec_fuel (t_unix now)) (t_unix now) (i + 10) 0
              (store (i + 10) ([ch "."] ++ dec 6 micro) b))
    as (n2 & Hlt2 & Hge2 & Hrun2).
  { assert (0 <= t_unix now).
    { destruct Hunix as [[_ ->]|[_ [H _]]]; [lia|].
      pose proof (Z.pow_nonneg 10 (Z.of_nat n - 1)). lia. }
    split; [lia|]. apply dec_fuel_enough. lia. }
  assert (n2 = n) as ->.
  { destruct Hunix as [[-> H0]|[Hpos Hb]].
    - destruct Hge2 as [->|Hge2]; [reflexivity|].
      pose proof (Z.pow_pos_nonneg 10 (Z.of_nat n2 - 1)).
      destruct n2; [reflexivity|]. lia.
    - apply (digits_between n2 n (t_unix now)); assumption. }
  rewrite Hrun2 by lia.
  rewrite store_then by (unfold len; rewrite ?dec_length; lia).
  reflexivity.
Qed.

(** X12. For a time of ten digits of seconds, [timestamp] fills the 17
    bytes from [i] on: the seconds, a point and the microseconds in
    six digits with leading zeros; it returns [i] and touches no other
    byte of the array. *)
Theorem timestamp_layout (i : Z) (now : Time) (b : bytes) :
  0 <= i ->
  10 ^ 9 <= t_unix now < 10 ^ 10 ->
  0 <= t_nanosecond now < 10 ^ 9 ->
  timestamp i now b
  = (i, store i (dec 10 (t_unix now) ++ [ch "."]
                 ++ dec 6 (Z.quot (t_nanosecond now) 1000)) b).
Proof.
  intros Hi Hu Hns.
  rewrite (timestamp_run 10 i now b); [|lia|exact Hns|].
  - change (Z.of_nat 10) with 10. rewrite Z.add_simpl_r. reflexivity.
  - right. split; [lia|exact Hu].
Qed.

(** ** The header is a fixed layout *)

Ltac split_array b H :=
  do 65 (destruct b as [|? b]; [cbn [length] in H; lia|]).

(** The first 65 bytes of the array after the stores of [jheader]. *)
Lemma header_array (now : Time) (b : bytes) (sign hh mm : Z) (u : bytes) :
  (65 <= length b)%nat -> length u = 17%nat ->
  let year := t_year now in
  let b := store 0 ([ch "{"; dq] ++ lit "time" ++ [dq; ch ":"; dq]) b in
  let b := set_buf 12 (at_ digits (Z.rem year 10)) b in
  let year := Z.quot year 10 in
  let b := set_buf 11 (at_ digits (Z.rem year 10)) b in
  let year := Z.quot year 10 in
  let b := set_buf 10 (at_ digits (Z.rem year 10)) b in
  let year := Z.quot year 10 in
  let b := set_buf 9 (at_ digits (Z.rem year 10)) b in
  let b := set_buf 13 (ch "-") b in
  let b := twoDigits 14 (t_month now) b in
  let b := set_buf 16 (ch "-") b in
  let b := twoDigits 17 (t_day now) b in
  let b := set_buf 19 (ch "T") b in
  let b := twoDigits 20 (t_hour now) b in
  let b := set_buf 22 (ch ":") b in
  let b := twoDigits 23 (t_minute now) b in
  let b := set_buf 25 (ch ":") b in
  let b := twoDigits 26 (t_second now) b in
  let b := set_buf 28 sign b in
  let b := twoDigits 29 hh b in
  let b := set_buf 31 (ch ":") b in
  let b := twoDigits 32 mm b in
  let b := store 34 ([dq; ch ","; dq] ++ lit "timestamp" ++ [dq; ch ":"]) b in
  firstn 65 (store 48 u b)
  = [ch "{"; dq] ++ lit "time" ++ [dq; ch ":"; dq]
    ++ (dec 4 (t_year now) ++ [ch "-"] ++ dec 2 (t_month now) ++ [ch "-"]
        ++ dec 2 (t_day now) ++ [ch "T"] ++ dec 2 (t_hour now) ++ [ch ":"]
        ++ dec 2 (t_minute now) ++ [ch ":"] ++ dec 2 (t_second now)
        ++ ([sign] ++ dec 2 hh ++ [ch ":"] ++ dec 2 mm))
    ++ [dq; ch ","; dq] ++ lit "timestamp" ++ [dq; ch ":"] ++ u.
Proof.
  intros Hb Hu.
  do 17 (destruct u as [|? u]; [discriminate Hu|]).
  destruct u; [|discriminate Hu].
  split_array b Hb.
  unfold twoDigits. cbv zeta. cbn [dec app].
  repeat match goal with
         | |- context [at_ digits (Z.rem ?d 10)] => fold (digit d)
         end.
  repeat match goal with
         | |- context [digit ?d] => generalize (digit d); intro
         end.
  reflexivity.
Qed.

Lemma header_timestamp_length (now : Time) :
  length (header_timestamp now) = 17%nat.
Proof.
  unfold header_timestamp. rewrite !length_app, !dec_length. reflexivity.
Qed.

Lemma AppendInt_app (p : bytes) (i : Z) :
  strconv.AppendInt p i = p ++ strconv.AppendInt [] i.
Proof. reflexivity. Qed.

Lemma jheader_layout (g : Globals) (now : Time) (j : Json) (s : severity)
    (level : Z) (file : bytes) (line : Z) :
  (65 <= length (jbuf j))%nat ->
  10 ^ 9 <= t_unix now < 10 ^ 10 ->
  0 <= t_nanosecond now < 10 ^ 9 ->
  jp (jheader g now j s level file line) = header_text g now s file line.
Proof.
  intros Hb Hu Hns. unfold jheader, header_text, header_time, header_zone.
  destruct (t_offset now >? 0); cbv zeta.
  all: rewrite (timestamp_run 10 48 now) by
           (assumption || (change (Z.of_nat 10) with 10; lia)
            || (right; split; [lia|exact Hu])).
  all: change (48 + 10 - Z.of_nat 10) with 48.
  all: fold (header_timestamp now).
  all: cbn [jp].
  all: rewrite header_array by
           (assumption || apply header_timestamp_length).
  all: destruct (JVersion g) as [|v vs]; cbn [is_empty negb].
  all: rewrite ?(AppendInt_app (_ ++ _)).
  all: repeat rewrite <- app_assoc.
  all: reflexivity.
Qed.

(** X13. The header is a fixed text: the object opened by the key
    "time" with the date, the time of day and the zone, of two digits
    each and four for the year, then "timestamp", "level", "version"
    when [JVersion] is set, "host", "pid", "file" and "line", in that
    order, with the host, the version and the file name between quotes
    as they are, without escaping. *)
Theorem jheader_text (g : Globals) (now : Time) (j : Json) (s : severity)
    (level : Z) (file : bytes) (line : Z) :
  (65 <= length (jbuf j))%nat -> Time_ok now ->
  jp (jheader g now j s level file line) = header_text g now s file line.
Proof.
  intros Hb Hnow. apply jheader_layout; [exact Hb|apply Hnow..].
Qed.

(** ** Numbers *)

Lemma eqb_ne (a b : Z) : a <> b -> (a =? b) = false.
Proof. apply Z.eqb_neq. Qed.

Lemma delim_cases (c : Z) : delim c -> c = 44 \/ c = 125.
Proof. intros H. exact H. Qed.

Lemma digit_value (d : Z) :
  0 <= d -> digit d = 48 + Z.rem d 10.
Proof.
  intros Hd. unfold digit, at_.
  pose proof (Z.rem_bound_pos d 10 Hd ltac:(lia)) as Hr.
  set (r := Z.rem d 10) in *.
  assert (H : In r (map Z.of_nat (seq 0 10))).
  { apply in_map_iff. exists (Z.to_nat r). split; [lia|].
    apply in_seq. lia. }
  cbv [map seq Z.of_nat Pos.of_succ_nat Pos.succ] in H.
  repeat (destruct H as [<-|H]; [reflexivity|]). destruct H.
Qed.

Lemma digit_is_digit (d : Z) : is_digit (digit d) = true.
Proof.
  destruct (Z.le_gt_cases 0 d) as [Hd|Hd].
  - rewrite digit_value by exact Hd.
    pose proof (Z.rem_bound_pos d 10 Hd ltac:(lia)).
    unfold is_digit. apply andb_true_iff. split; apply Z.leb_le; lia.
  - unfold digit, at_.
    assert (Hr : Z.rem d 10 <= 0) by (apply Z.rem_nonpos; lia).
    replace (Z.to_nat (Z.rem d 10)) with 0%nat by lia. reflexivity.
Qed.

Lemma dec_digits (n : nat) (d : Z) :
  Forall (fun b => is_digit b = true) (dec n d).
Proof.
  revert d. induction n as [|n IH]; intros d; cbn [dec]; [constructor|].
  apply Forall_app. split; [apply IH|].
  constructor; [apply digit_is_digit|constructor].
Qed.

(** A number of [n + 1] digits is printed without a leading zero. *)
Lemma dec_first (n : nat) (d : Z) :
  10 ^ Z.of_nat n <= d < 10 ^ Z.of_nat (S n) ->
  exists x ds,
    dec (S n) d = x :: ds /\ 49 <= x <= 57 /\
    Forall (fun b => is_digit b = true) ds.
Proof.
  revert d. induction n as [|n IH]; intros d Hd.
  - change (10 ^ Z.of_nat 0) with 1 in Hd.
    change (10 ^ Z.of_nat 1) with 10 in Hd.
    exists (digit d), []. cbn [dec app]. split; [reflexivity|].
    split; [|constructor].
    rewrite digit_value by lia. rewrite Z.rem_small by lia. lia.
  - rewrite !Nat2Z.inj_succ in Hd.
    rewrite !Z.pow_succ_r in Hd by lia.
    destruct (IH (Z.quot d 10)) as (x & ds & Hx & Hr & Hds).
    { rewrite Nat2Z.inj_succ, Z.pow_succ_r by lia.
      pose proof (Z.pow_pos_nonneg 10 (Z.of_nat n)).
      split; [apply Z.quot_le_lower_bound; lia|].
      apply Z.quot_lt_upper_bound; lia. }
    exists x, (ds ++ [digit d]).
    change (dec (S (S n)) d) with (dec (S n) (Z.quot d 10) ++ [digit d]).
    rewrite Hx. split; [reflexivity|]. split; [exact Hr|].
    apply Forall_app. split; [exact Hds|].
    constructor; [|constructor]. apply digit_is_digit.
Qed.

Lemma skip_digits_app (ds : bytes) (c : Z) (rest : bytes) :
  Forall (fun b => is_digit b = true) ds -> is_digit c = false ->
  skip_digits (ds ++ c :: rest) = c :: rest.
Proof.
  intros Hds Hc. induction Hds as [|d ds Hd _ IH]; cbn [app skip_digits].
  - rewrite Hc. reflexivity.
  - rewrite Hd. exact IH.
Qed.

Lemma delim_not_digit (c : Z) : delim c -> is_digit c = false.
Proof. intros [->| ->]; reflexivity. Qed.

Lemma exponent_delim (c : Z) (rest : bytes) :
  delim c -> exponent (c :: rest) = Some (c :: rest).
Proof. intros [->| ->]; reflexivity. Qed.

Lemma fraction_delim (c : Z) (rest : bytes) :
  delim c -> fraction (c :: rest) = Some (c :: rest).
Proof. intros [->| ->]; reflexivity. Qed.

Lemma is_digit_range (x : Z) : is_digit x = true <-> 48 <= x <= 57.
Proof.
  unfold is_digit. rewrite andb_true_iff, !Z.leb_le. reflexivity.
Qed.

(** The integers: digits without a leading zero. *)
Lemma number_integer (x : Z) (ds : bytes) (c : Z) (rest : bytes) :
  49 <= x <= 57 -> Forall (fun b => is_digit b = true) ds -> delim c ->
  number (x :: ds ++ c :: rest) = Some (c :: rest).
Proof.
  intros Hx Hds Hc. unfold number.
  rewrite (eqb_ne x (ch "-")) by (change (ch "-") with 45; lia).
  rewrite (eqb_ne x (ch "0")) by (change (ch "0") with 48; lia).
  rewrite (proj2 (is_digit_range x)) by lia.
  rewrite skip_digits_app by (assumption || apply delim_not_digit, Hc).
  apply fraction_delim, Hc.
Qed.

Lemma number_negative (x : Z) (ds : bytes) (c : Z) (rest : bytes) :
  49 <= x <= 57 -> Forall (fun b => is_digit b = true) ds -> delim c ->
  number (ch "-" :: x :: ds ++ c :: rest) = Some (c :: rest).
Proof.
  intros Hx Hds Hc. unfold number.
  change (ch "-" =? ch "-") with true. cbv iota.
  rewrite (eqb_ne x (ch "0")) by (change (ch "0") with 48; lia).
  rewrite (proj2 (is_digit_range x)) by lia.
  rewrite skip_digits_app by (assumption || apply delim_not_digit, Hc).
  apply fraction_delim, Hc.
Qed.

Lemma number_zero (c : Z) (rest : bytes) :
  delim c -> number (ch "0" :: c :: rest) = Some (c :: rest).
Proof.
  intros Hc. unfold number.
  change (ch "0" =? ch "-") with false. cbv iota.
  change (ch "0" =? ch "0") with true. cbv iota.
  apply fraction_delim, Hc.
Qed.

(** Digits, a point and digits. *)
Lemma number_fraction (x : Z) (ds : bytes) (y : Z) (es : bytes) (c : Z)
    (rest : bytes) :
  49 <= x <= 57 -> Forall (fun b => is_digit b = true) ds ->
  Forall (fun b => is_digit b = true) (y :: es) -> delim c ->
  number (x :: ds ++ ch "." :: (y :: es) ++ c :: rest) = Some (c :: rest).
Proof.
  intros Hx Hds Hes Hc. unfold number.
  rewrite (eqb_ne x (ch "-")) by (change (ch "-") with 45; lia).
  rewrite (eqb_ne x (ch "0")) by (change (ch "0") with 48; lia).
  rewrite (proj2 (is_digit_range x)) by lia.
  rewrite skip_digits_app by (assumption || reflexivity).
  unfold fraction. change (ch "." =? ch ".") with true. cbv iota.
  inversion Hes as [|? ? Hy Hes']; subst.
  cbn [app digits1]. rewrite Hy.
  rewrite skip_digits_app by (assumption || apply delim_not_digit, Hc).
  apply exponent_delim, Hc.
Qed.

(** A text that starts with a digit or the minus sign is read as a
    number. *)
Lemma value_number (b : Z) (r : bytes) (n : nat) :
  45 <= b <= 57 -> value (S n) (b :: r) = of_option (number (b :: r)).
Proof.
  intros Hb. cbn [value skip_ws]. unfold is_ws.
  rewrite (eqb_ne b 32), (eqb_ne b 9), (eqb_ne b 10), (eqb_ne b 13) by lia.
  cbn [orb].
  rewrite (eqb_ne b (ch "{")) by (change (ch "{") with 123; lia).
  rewrite (eqb_ne b (ch "[")) by (change (ch "[") with 91; lia).
  rewrite (eqb_ne b dq) by (unfold dq; lia).
  rewrite (eqb_ne b (ch "t")) by (change (ch "t") with 116; lia).
  rewrite (eqb_ne b (ch "f")) by (change (ch "f") with 102; lia).
  rewrite (eqb_ne b (ch "n")) by (change (ch "n") with 110; lia).
  reflexivity.
Qed.

(** *** What [strconv] prints *)

Lemma uint_digits (d : Decimal.uint) :
  Forall (fun b => is_digit b = true) (lit (NilEmpty.string_of_uint d)).
Proof.
  induction d; cbn [NilEmpty.string_of_uint]; unfold lit in *;
    cbn [list_ascii_of_string map]; constructor; (reflexivity || assumption).
Qed.

Lemma to_uint_normal (p : positive) :
  Decimal.nzhead (Pos.to_uint p) = Pos.to_uint p.
Proof.
  assert (Hn : Decimal.unorm (Pos.to_uint p) = Pos.to_uint p).
  { rewrite <- DecimalPos.Unsigned.to_of, DecimalPos.Unsigned.of_to.
    reflexivity. }
  rewrite <- DecimalFacts.unorm_nzhead; [exact Hn|].
  intros H. apply DecimalFacts.unorm_0 in H. rewrite Hn in H.
  exact (DecimalPos.Unsigned.to_uint_nonzero p H).
Qed.

Lemma to_uint_text (p : positive) :
  exists x ds,
    lit (NilEmpty.string_of_uint (Pos.to_uint p)) = x :: ds /\
    49 <= x <= 57 /\ Forall (fun b => is_digit b = true) ds /\
    Pos.to_uint p <> Decimal.Nil.
Proof.
  pose proof (to_uint_normal p) as Hn.
  pose proof (DecimalPos.Unsigned.to_uint_nonnil p) as Hnil.
  destruct (Pos.to_uint p) as [|u|u|u|u|u|u|u|u|u|u] eqn:E;
    [contradiction
    |exfalso; exact (DecimalFacts.nzhead_nonzero (Decimal.D0 u) u Hn)
    |..].
  all: eexists _, _; split; [reflexivity|].
  all: split; [cbv; split; discriminate|].
  all: split; [apply uint_digits|discriminate].
Qed.

Lemma scalar_number (v : bytes) :
  (forall c rest, delim c -> number (v ++ c :: rest) = Some (c :: rest)) ->
  (exists b r, v = b :: r /\ 45 <= b <= 57) ->
  scalar v.
Proof.
  intros Hnum (b & r & -> & Hb) c rest n Hc.
  cbn [app]. rewrite value_number by exact Hb.
  change (b :: r ++ c :: rest) with ((b :: r) ++ c :: rest).
  rewrite Hnum by exact Hc. reflexivity.
Qed.

Lemma scalar_AppendInt (i : Z) : scalar (strconv.AppendInt [] i).
Proof.
  unfold strconv.AppendInt. cbn [app].
  destruct i as [|p|p]; cbn [Z.to_int NilZero.string_of_int].
  - apply scalar_number.
    + intros c rest Hc. apply number_zero, Hc.
    + eexists _, _. split; [reflexivity|]. cbv. split; discriminate.
  - destruct (to_uint_text p) as (x & ds & Hx & Hr & Hds & Hnil).
    assert (Hs : NilZero.string_of_uint (Pos.to_uint p)
                 = NilEmpty.string_of_uint (Pos.to_uint p)).
    { destruct (Pos.to_uint p); [contradiction|reflexivity..]. }
    rewrite Hs, Hx. apply scalar_number.
    + intros c rest Hc. apply number_integer; assumption.
    + eexists _, _. split; [reflexivity|]. lia.
  - destruct (to_uint_text p) as (x & ds & Hx & Hr & Hds & Hnil).
    assert (Hs : NilZero.string_of_uint (Pos.to_uint p)
                 = NilEmpty.string_of_uint (Pos.to_uint p)).
    { destruct (Pos.to_uint p); [contradiction|reflexivity..]. }
    change (lit (String "-" (NilZero.string_of_uint (Pos.to_uint p))))
      with (ch "-" :: lit (NilZero.string_of_uint (Pos.to_uint p))).
    rewrite Hs, Hx. apply scalar_number.
    + intros c rest Hc. apply number_negative; assumption.
    + eexists _, _. split; [reflexivity|]. cbv. split; discriminate.
Qed.

Lemma scalar_AppendUint (i : Z) : scalar (strconv.AppendUint [] i).
Proof.
  unfold strconv.AppendUint. cbn [app].
  destruct (Z.to_N i) as [|p]; cbn [N.to_uint].
  - apply scalar_number.
    + intros c rest Hc. apply number_zero, Hc.
    + eexists _, _. split; [reflexivity|]. cbv. split; discriminate.
  - destruct (to_uint_text p) as (x & ds & Hx & Hr & Hds & Hnil).
    assert (Hs : NilZero.string_of_uint (Pos.to_uint p)
                 = NilEmpty.string_of_uint (Pos.to_uint p)).
    { destruct (Pos.to_uint p); [contradiction|reflexivity..]. }
    rewrite Hs, Hx. apply scalar_number.
    + intros c rest Hc. apply number_integer; assumption.
    + eexists _, _. split; [reflexivity|]. lia.
Qed.

Lemma scalar_timestamp (now : Time) :
  Time_ok now -> scalar (header_timestamp now).
Proof.
  intros (_ & _ & _ & _ & _ & _ & Hu & Hns). unfold header_timestamp.
  destruct (dec_first 9 (t_unix now)) as (x & ds & Hx & Hr & Hds).
  { change (Z.of_nat 9) with 9. change (Z.of_nat 10) with 10. exact Hu. }
  pose proof (dec_digits 6 (Z.quot (t_nanosecond now) 1000)) as Hes.
  destruct (dec 6 (Z.quot (t_nanosecond now) 1000)) as [|y es] eqn:E;
    [apply (f_equal (@length Z)) in E; rewrite dec_length in E;
     discriminate E|].
  rewrite Hx. apply scalar_number.
  - intros c rest Hc. cbn [app]. rewrite <- !app_assoc. cbn [app].
    apply (number_fraction x ds y es); assumption.
  - eexists _, _. split; [reflexivity|]. lia.
Qed.

(** ** Members and records *)

(** A decidable form of [raw_ok], to check literals. *)
Lemma plain_check (t : bytes) :
  forallb (fun b => (32 <=? b) && negb (b =? dq) && negb (b =? bsl)) t = true ->
  plain t.
Proof.
  intros H. apply List.Forall_forall. intros b Hb.
  pose proof (proj1 (forallb_forall _ t) H b Hb) as Hc.
  cbv beta in Hc. bool_hyps. repeat split; assumption.
Qed.

Lemma plain_app (x y : bytes) : plain x -> plain y -> plain (x ++ y).
Proof. intros Hx Hy. apply Forall_app. split; assumption. Qed.

Lemma digits_plain (x : bytes) :
  Forall (fun b => is_digit b = true) x -> plain x.
Proof.
  intros H. unfold plain. eapply Forall_impl; [exact H|].
  intros b Hb. apply is_digit_range in Hb. unfold raw_ok, dq, bsl. lia.
Qed.

Lemma header_time_plain (now : Time) : plain (header_time now).
Proof.
  unfold header_time, header_zone.
  destruct (t_offset now >? 0).
  all: repeat first
         [ apply digits_plain, dec_digits
         | apply plain_check; reflexivity
         | apply plain_app ].
Qed.

Lemma lowerSeverityName_plain (s : severity) : plain (lowerSeverityName s).
Proof. destruct s; apply plain_check; reflexivity. Qed.

Lemma string_body_ok (t : bytes) (e : bool) :
  exists body, string t e [] = dq :: body ++ [dq] /\ body_ok body.
Proof.
  apply (string_body e body_ok raw_ok body_ok_app body_ok_raw
           body_ok_escape).
  - intros b Hb. exact (safe_is_raw e b Hb).
  - intros b Hb. unfold raw_ok, dq, bsl. lia.
Qed.

Lemma scalar_body (body : bytes) :
  body_ok body -> scalar (dq :: body ++ [dq]).
Proof.
  intros Hb c rest n Hc.
  change (value (S n) ((dq :: body ++ [dq]) ++ c :: rest))
    with (of_option (chars ((body ++ [dq]) ++ c :: rest))).
  rewrite <- app_assoc, Hb. reflexivity.
Qed.

Lemma scalar_plain (s : bytes) : plain s -> scalar (dq :: s ++ [dq]).
Proof. intros Hs. apply scalar_body, body_ok_raw, Hs. Qed.

Lemma scalar_string (t : bytes) (e : bool) : scalar (string t e []).
Proof.
  destruct (string_body_ok t e) as (body & -> & Hb).
  apply scalar_body, Hb.
Qed.

Lemma scalar_bool (b : bool) :
  scalar (if b then lit "true" else lit "false").
Proof. destruct b; intros c rest n [->| ->]; reflexivity. Qed.

(** One member, read with two turns more than what follows it. *)
Lemma member_step (key v : bytes) (c : Z) (rest : bytes) (n : nat) :
  plain key -> scalar v -> delim c ->
  members (S (S n)) (dq :: key ++ dq :: ch ":" :: v ++ c :: rest)
  = if c =? ch "," then members (S n) rest else Rest rest.
Proof.
  intros Hk Hv Hc.
  change (members (S (S n)) (dq :: key ++ dq :: ch ":" :: v ++ c :: rest))
    with (match chars (key ++ dq :: ch ":" :: v ++ c :: rest) with
          | Some r1 =>
              match skip_ws r1 with
              | c0 :: r2 =>
                  if c0 =? ch ":" then
                    match value (S n) r2 with
                    | Rest r3 =>
                        match skip_ws r3 with
                        | x :: r4 =>
                            if x =? ch "," then members (S n) r4
                            else if x =? ch "}" then Rest r4
                            else Bad
                        | [] => Bad
                        end
                    | other => other
                    end
                  else Bad
              | [] => Bad
              end
          | None => Bad
          end).
  rewrite (body_ok_raw key Hk). cbn [chars].
  change (dq =? dq) with true. cbv iota.
  change (skip_ws (ch ":" :: v ++ c :: rest)) with (ch ":" :: v ++ c :: rest).
  change (ch ":" =? ch ":") with true. cbv iota.
  rewrite (Hv c rest n Hc).
  destruct Hc as [->| ->]; reflexivity.
Qed.

Lemma members_member (key v tail r : bytes) :
  plain key -> scalar v -> closes tail r ->
  exists n, members n (dq :: key ++ dq :: ch ":" :: v ++ tail) = Rest r.
Proof.
  intros Hk Hv [->|(n & tail' & -> & Hm)].
  - exists 2%nat. rewrite member_step by (assumption || right; reflexivity).
    reflexivity.
  - exists (S (S n)).
    rewrite member_step by (assumption || left; reflexivity).
    change (ch "," =? ch ",") with true. cbv iota.
    destruct (fuel_mono n (S n) ltac:(lia)) as (_ & Hmono & _).
    apply Hmono; [exact Hm|discriminate].
Qed.

Lemma closes_member (key v tail r : bytes) :
  plain key -> scalar v -> closes tail r ->
  closes (ch "," :: dq :: key ++ dq :: ch ":" :: v ++ tail) r.
Proof.
  intros Hk Hv Ht.
  destruct (members_member key v tail r Hk Hv Ht) as (n & Hn).
  right. exists n, (dq :: key ++ dq :: ch ":" :: v ++ tail).
  split; [reflexivity|exact Hn].
Qed.

(** The same for a value between quotes, as the texts lie in the
    header. *)
Lemma closes_quoted (key s tail r : bytes) :
  plain key -> plain s -> closes tail r ->
  closes (ch "," :: dq :: key ++ dq :: ch ":" :: dq :: s ++ dq :: tail) r.
Proof.
  intros Hk Hs Ht.
  pose proof (closes_member key (dq :: s ++ [dq]) tail r Hk
                (scalar_plain s Hs) Ht) as H.
  cbn [app] in H. rewrite <- app_assoc in H. exact H.
Qed.

(** A field after an open record leaves an open record. *)
Lemma open_record_field (p key v : bytes) :
  open_record p -> plain key -> scalar v ->
  open_record (p ++ [ch ","; dq] ++ key ++ [dq; ch ":"] ++ v).
Proof.
  intros (body & -> & Hbody) Hk Hv.
  exists (body ++ [ch ","; dq] ++ key ++ [dq; ch ":"] ++ v).
  split; [reflexivity|]. intros tail r Ht.
  destruct (Hbody (ch "," :: dq :: key ++ dq :: ch ":" :: v ++ tail) r)
    as (n & Hn).
  { apply closes_member; assumption. }
  exists n. rewrite <- Hn.
  rewrite <- ?app_assoc. cbn [app]. rewrite <- ?app_assoc. reflexivity.
Qed.

(** The members after the first, each behind its comma. *)
Lemma closes_members (ms : list (bytes * bytes)) (tail r : bytes) :
  Forall (fun m => plain m.1 /\ scalar m.2) ms -> closes tail r ->
  closes (members_text ms ++ tail) r.
Proof.
  intros Hms Ht. induction Hms as [|[k v] ms [Hk Hv] _ IH];
    cbn [members_text app]; [exact Ht|].
  unfold member_text. cbn [app]. rewrite <- ?app_assoc. cbn [app].
  apply closes_member; assumption.
Qed.

Lemma header_text_members (g : Globals) (now : Time) (s : severity)
    (file : bytes) (line : Z) :
  header_text g now s file line
  = ch "{" :: member_text (lit "time") (quoted (header_time now))
    ++ members_text (header_members g now s file line).
Proof.
  unfold header_text, header_members, member_text, quoted.
  destruct (JVersion g) as [|v vs];
    cbn [is_empty members_text member_text app];
    unfold member_text; repeat (rewrite <- !app_assoc; cbn [app]);
    rewrite ?app_nil_r; reflexivity.
Qed.

Lemma header_members_ok (g : Globals) (now : Time) (s : severity)
    (file : bytes) (line : Z) :
  Time_ok now -> plain (JVersion g) -> plain (host g) -> plain file ->
  Forall (fun m => plain m.1 /\ scalar m.2)
         (header_members g now s file line).
Proof.
  intros Hnow Hver Hhost Hfile. unfold header_members.
  destruct (is_empty (JVersion g)); cbn [app].
  all: repeat first [ apply List.Forall_cons | apply List.Forall_nil ].
  all: cbn [fst snd]; split; try (apply plain_check; reflexivity).
  all: first
         [ apply scalar_timestamp, Hnow
         | apply scalar_AppendInt
         | apply scalar_plain; first
             [ assumption | apply lowerSeverityName_plain ] ].
Qed.

(** The header is an open record. *)
Lemma header_text_open (g : Globals) (now : Time) (s : severity)
    (file : bytes) (line : Z) :
  Time_ok now -> plain (JVersion g) -> plain (host g) -> plain file ->
  open_record (header_text g now s file line).
Proof.
  intros Hnow Hver Hhost Hfile. rewrite header_text_members.
  unfold member_text at 1.
  exists (lit "time" ++ dq :: ch ":" :: quoted (header_time now)
          ++ members_text (header_members g now s file line)).
  split.
  - cbn [app]. rewrite <- app_assoc. reflexivity.
  - intros tail r Ht.
    destruct (members_member (lit "time") (quoted (header_time now))
                (members_text (header_members g now s file line) ++ tail) r)
      as (n & Hn).
    + apply plain_check. reflexivity.
    + apply scalar_plain, header_time_plain.
    + apply closes_members; [|exact Ht].
      apply header_members_ok; assumption.
    + exists n. rewrite <- Hn.
      rewrite <- ?app_assoc. cbn [app]. rewrite <- ?app_assoc. reflexivity.
Qed.

(** ** Builders keep the record open *)

Lemma AppendUint_app (p : bytes) (i : Z) :
  strconv.AppendUint p i = p ++ strconv.AppendUint [] i.
Proof. reflexivity. Qed.

Lemma open_record_named (p pre name v : bytes) :
  open_record p -> plain pre -> plain name -> scalar v ->
  open_record (p ++ [ch ","; dq] ++ pre ++ name ++ [dq; ch ":"] ++ v).
Proof.
  intros Hp Hpre Hname Hv.
  rewrite (app_assoc pre name).
  apply open_record_field; [exact Hp|apply plain_app; assumption|exact Hv].
Qed.

Lemma add_field_open (g : Globals) (j : Json) (f : field) :
  open_record (jp j) -> plain (JFieldPrefix g) -> plain (field_name f) ->
  exists j', add_field g (Some j) f = Some j' /\ open_record (jp j').
Proof.
  intros Hj Hpre Hname.
  destruct f as [name i|name i|name b|name t|err];
    cbn [add_field field_name] in *;
    unfold Int64, Uint64, Bool, Str, Err; cbv zeta;
    eexists; (split; [reflexivity|]); cbn [jp with_p];
    rewrite ?prefix_or_not.
  - rewrite AppendInt_app. rewrite <- !app_assoc.
    apply open_record_named; [assumption..|apply scalar_AppendInt].
  - rewrite AppendUint_app. rewrite <- !app_assoc.
    apply open_record_named; [assumption..|apply scalar_AppendUint].
  - assert (Hb :
      (if b
       then (((jp j ++ [ch ","; dq]) ++ JFieldPrefix g) ++ name)
            ++ [dq; ch ":"] ++ lit "true"
       else (((jp j ++ [ch ","; dq]) ++ JFieldPrefix g) ++ name)
            ++ [dq; ch ":"] ++ lit "false")
      = jp j ++ [ch ","; dq] ++ JFieldPrefix g ++ name ++ [dq; ch ":"]
        ++ (if b then lit "true" else lit "false")).
    { destruct b; rewrite <- !app_assoc; reflexivity. }
    rewrite Hb.
    apply open_record_named; [assumption..|apply scalar_bool].
  - rewrite string_app. rewrite <- !app_assoc.
    apply open_record_named; [assumption..|apply scalar_string].
  - rewrite string_app. rewrite <- !app_assoc.
    apply open_record_field;
      [exact Hj|apply plain_check; reflexivity|apply scalar_string].
Qed.

Lemma build_open (g : Globals) (fs : list field) :
  plain (JFieldPrefix g) -> Forall (fun f => plain (field_name f)) fs ->
  forall j, open_record (jp j) ->
    exists j', build g (Some j) fs = Some j' /\ open_record (jp j').
Proof.
  intros Hpre Hfs. induction Hfs as [|f fs Hf _ IH]; intros j Hj.
  - exists j. split; [reflexivity|exact Hj].
  - destruct (add_field_open g j f Hj Hpre Hf) as (j1 & H1 & Hj1).
    destruct (IH j1 Hj1) as (j' & H' & Hj').
    exists j'. split; [|exact Hj'].
    unfold build in *. cbn [fold_left]. rewrite H1. exact H'.
Qed.

(** Closing an open record gives a JSON text. *)
Lemma open_record_closed (p : bytes) :
  open_record p -> valid (p ++ [ch "}"; 10]).
Proof.
  intros (body & -> & Hbody).
  destruct (Hbody [ch "}"; 10] [10]) as (n & Hn); [left; reflexivity|].
  exists (S n). unfold text.
  change (value (S n) ((ch "{" :: dq :: body) ++ [ch "}"; 10]))
    with (members n (dq :: body ++ [ch "}"; 10])).
  rewrite Hn. reflexivity.
Qed.

Lemma Msg_bytes_valid (p t : bytes) :
  open_record p -> valid (Msg_bytes p t).
Proof.
  intros Hp. unfold Msg_bytes. apply open_record_closed.
  destruct t as [|b t]; cbn [is_empty negb]; [exact Hp|].
  rewrite string_app. rewrite <- !app_assoc.
  apply open_record_field;
    [exact Hp|apply plain_check; reflexivity|apply scalar_string].
Qed.

(** X15. A record is a JSON text, under three conditions: the array of
    the object has at least 65 bytes; the time has fields that are not
    negative, ten digits of seconds and nanoseconds within one second
    ([Time_ok]); and the host name, the version, the field prefix, the
    base name of the file and the names of the fields need no
    escaping. Then the header that [jheader] writes, followed by any
    chain of [Int64], [Uint64], [Bool], [Str] and [Err] and completed
    by [Msg] with any message, is accepted by the recognizer of
    RFC 8259. *)
Theorem record_is_valid_JSON (g : Globals) (now : Time) (j0 : Json)
    (s : severity) (level : Z) (file : bytes) (line : Z) (fs : list field)
    (t : bytes) :
  (65 <= length (jbuf j0))%nat -> Time_ok now ->
  plain (JVersion g) -> plain (host g) -> plain (JFieldPrefix g) ->
  plain file -> Forall (fun f => plain (field_name f)) fs ->
  valid (finish (build g (Some (jheader g now j0 s level file line)) fs) t).
Proof.
  intros Hb Hnow Hver Hhost Hpre Hfile Hfs.
  destruct (build_open g fs Hpre Hfs (jheader g now j0 s level file line))
    as (j & -> & Hj).
  - rewrite jheader_layout by (assumption || apply Hnow).
    apply header_text_open; assumption.
  - cbn [finish]. apply Msg_bytes_valid, Hj.
Qed.

(** ** Records are one line *)

Lemma printable_app (x y : bytes) :
  printable x -> printable y -> printable (x ++ y).
Proof. intros Hx Hy. apply Forall_app. split; assumption. Qed.

Lemma printable_check (t : bytes) :
  forallb (fun b => 32 <=? b) t = true -> printable t.
Proof.
  intros H. apply List.Forall_forall. intros b Hb.
  pose proof (proj1 (forallb_forall _ t) H b Hb) as Hc.
  cbv beta in Hc. bool_hyps. assumption.
Qed.

Lemma plain_printable (x : bytes) : plain x -> printable x.
Proof.
  intros H. eapply Forall_impl; [exact H|]. intros b Hb. apply Hb.
Qed.

Lemma hex_printable (k : Z) : k <= 15 -> 32 <= at_ hex k.
Proof.
  intros Hk. unfold at_.
  assert (Hn : (Z.to_nat k <= 15)%nat) by lia.
  revert Hn. generalize (Z.to_nat k). intros n Hn.
  do 16 (destruct n as [|n]; [cbv; discriminate|]). lia.
Qed.

Lemma land_15 (c : Z) : Z.land c 15 <= 15.
Proof.
  change 15 with (Z.ones 4) at 1. rewrite (Z.land_ones c 4) by lia.
  change (2 ^ 4) with 16. pose proof (Z.mod_pos_bound c 16). lia.
Qed.

Lemma escape_printable (x : bytes) : escape x -> printable x.
Proof.
  intros Hx. destruct Hx as [b [-> | ->]| | | |b Hb| |c];
    try (apply printable_check; reflexivity).
  - repeat (apply List.Forall_cons; [try (cbv; discriminate)|]);
      [| |apply List.Forall_nil].
    + apply hex_printable. rewrite Z.shiftr_div_pow2 by lia.
      change (2 ^ 4) with 16.
      pose proof (Z.div_lt_upper_bound b 16 8). lia.
    + apply hex_printable, land_15.
  - repeat (apply List.Forall_cons; [try (cbv; discriminate)|]);
      [|apply List.Forall_nil].
    apply hex_printable, land_15.
Qed.

Lemma string_printable (t : bytes) (e : bool) : printable (string t e []).
Proof.
  destruct (string_body e printable (fun b => 32 <= b)) with (t := t)
    as (body & -> & Hb).
  - apply printable_app.
  - intros x Hx. exact Hx.
  - apply escape_printable.
  - intros b Hb. apply (safe_is_raw e b Hb).
  - intros b Hb. lia.
  - apply List.Forall_cons; [cbv; discriminate|].
    apply printable_app; [exact Hb|apply printable_check; reflexivity].
Qed.

Lemma digits_printable (x : bytes) :
  Forall (fun b => is_digit b = true) x -> printable x.
Proof. intros H. apply plain_printable, digits_plain, H. Qed.

Lemma uint_printable (u : Decimal.uint) :
  printable (lit (NilZero.string_of_uint u)).
Proof.
  destruct u; try (apply digits_printable, uint_digits).
  apply printable_check. reflexivity.
Qed.

Lemma AppendInt_printable (i : Z) : printable (strconv.AppendInt [] i).
Proof.
  unfold strconv.AppendInt. cbn [app].
  destruct (Z.to_int i) as [u|u]; cbn [NilZero.string_of_int].
  - apply uint_printable.
  - change (lit (String "-" (NilZero.string_of_uint u)))
      with (ch "-" :: lit (NilZero.string_of_uint u)).
    apply List.Forall_cons; [cbv; discriminate|apply uint_printable].
Qed.

Lemma AppendUint_printable (i : Z) : printable (strconv.AppendUint [] i).
Proof. unfold strconv.AppendUint. cbn [app]. apply uint_printable. Qed.

Lemma quoted_printable (s : bytes) : plain s -> printable (quoted s).
Proof.
  intros Hs. unfold quoted.
  apply List.Forall_cons; [cbv; discriminate|].
  apply printable_app; [apply plain_printable, Hs|].
  apply printable_check. reflexivity.
Qed.

Lemma member_printable (key v : bytes) :
  printable key -> printable v -> printable (member_text key v).
Proof.
  intros Hk Hv. unfold member_text.
  apply List.Forall_cons; [cbv; discriminate|].
  apply printable_app; [exact Hk|].
  repeat (apply List.Forall_cons; [cbv; discriminate|]). exact Hv.
Qed.

Lemma members_printable (ms : list (bytes * bytes)) :
  Forall (fun m => printable m.1 /\ printable m.2) ms ->
  printable (members_text ms).
Proof.
  induction 1 as [|[k v] ms [Hk Hv] _ IH]; cbn [members_text];
    [constructor|].
  apply List.Forall_cons; [cbv; discriminate|].
  apply printable_app; [apply member_printable; assumption|exact IH].
Qed.

Lemma header_text_printable (g : Globals) (now : Time) (s : severity)
    (file : bytes) (line : Z) :
  plain (JVersion g) -> plain (host g) -> plain file ->
  printable (header_text g now s file line).
Proof.
  intros Hver Hhost Hfile. rewrite header_text_members.
  apply List.Forall_cons; [cbv; discriminate|].
  apply printable_app.
  - apply member_printable; [apply printable_check; reflexivity|].
    apply quoted_printable, header_time_plain.
  - apply members_printable. unfold header_members.
    destruct (is_empty (JVersion g)); cbn [app].
    all: repeat first [ apply List.Forall_cons | apply List.Forall_nil ].
    all: cbn [fst snd]; split; try (apply printable_check; reflexivity).
    all: first
           [ apply AppendInt_printable
           | apply quoted_printable; first
               [ assumption | apply lowerSeverityName_plain ]
           | idtac ].
    all: unfold header_timestamp;
         repeat first
           [ apply digits_printable, dec_digits
           | apply printable_check; reflexivity
           | apply printable_app ].
Qed.

Lemma named_printable (p pre name v : bytes) :
  printable p -> plain pre -> plain name -> printable v ->
  printable (p ++ [ch ","; dq] ++ pre ++ name ++ [dq; ch ":"] ++ v).
Proof.
  intros Hp Hpre Hname Hv.
  repeat first
    [ assumption
    | apply plain_printable; assumption
    | apply printable_check; reflexivity
    | apply printable_app ].
Qed.

Lemma add_field_printable (g : Globals) (j : Json) (f : field) :
  printable (jp j) -> plain (JFieldPrefix g) -> plain (field_name f) ->
  exists j', add_field g (Some j) f = Some j' /\ printable (jp j').
Proof.
  intros Hj Hpre Hname.
  destruct f as [name i|name i|name b|name t|err];
    cbn [add_field field_name] in *;
    unfold Int64, Uint64, Bool, Str, Err; cbv zeta;
    eexists; (split; [reflexivity|]); cbn [jp with_p];
    rewrite ?prefix_or_not.
  - rewrite AppendInt_app. rewrite <- !app_assoc.
    apply named_printable; [assumption..|apply AppendInt_printable].
  - rewrite AppendUint_app. rewrite <- !app_assoc.
    apply named_printable; [assumption..|apply AppendUint_printable].
  - destruct b; rewrite <- !app_assoc;
      (apply named_printable;
       [assumption..|apply printable_check; reflexivity]).
  - rewrite string_app. rewrite <- !app_assoc.
    apply named_printable; [assumption..|apply string_printable].
  - rewrite string_app.
    repeat first
      [ assumption
      | apply string_printable
      | apply printable_check; reflexivity
      | apply printable_app ].
Qed.

Lemma build_printable (g : Globals) (fs : list field) :
  plain (JFieldPrefix g) -> Forall (fun f => plain (field_name f)) fs ->
  forall j, printable (jp j) ->
    exists j', build g (Some j) fs = Some j' /\ printable (jp j').
Proof.
  intros Hpre Hfs. induction Hfs as [|f fs Hf _ IH]; intros j Hj.
  - exists j. split; [reflexivity|exact Hj].
  - destruct (add_field_printable g j f Hj Hpre Hf) as (j1 & H1 & Hj1).
    destruct (IH j1 Hj1) as (j' & H' & Hj').
    exists j'. split; [|exact Hj'].
    unfold build in *. cbn [fold_left]. rewrite H1. exact H'.
Qed.

(** X16. A record is one line, under the same three conditions: an
    array of at least 65 bytes; a time with fields that are not
    negative, ten digits of seconds and nanoseconds within one second
    ([Time_ok]); a host name, a version, a field prefix, a base name of
    the file and names of the fields that need no escaping. Then the
    record ends with a newline, and no byte before that is below
    32. *)
Theorem record_is_one_line (g : Globals) (now : Time) (j0 : Json)
    (s : severity) (level : Z) (file : bytes) (line : Z) (fs : list field)
    (t : bytes) :
  (65 <= length (jbuf j0))%nat -> Time_ok now ->
  plain (JVersion g) -> plain (host g) -> plain (JFieldPrefix g) ->
  plain file -> Forall (fun f => plain (field_name f)) fs ->
  exists text,
    finish (build g (Some (jheader g now j0 s level file line)) fs) t
    = text ++ [10] /\ printable text.
Proof.
  intros Hb Hnow Hver Hhost Hpre Hfile Hfs.
  destruct (build_printable g fs Hpre Hfs
              (jheader g now j0 s level file line)) as (j & -> & Hj).
  - rewrite jheader_layout by (assumption || apply Hnow).
    apply header_text_printable; assumption.
  - cbn [finish]. unfold Msg_bytes.
    eexists. split.
    + change [ch "}"; 10] with ([ch "}"] ++ [10]).
      rewrite app_assoc. reflexivity.
    + apply printable_app; [|apply printable_check; reflexivity].
      destruct t as [|b t]; cbn [is_empty negb]; [exact Hj|].
      rewrite string_app.
      repeat first
        [ assumption
        | apply string_printable
        | apply printable_check; reflexivity
        | apply printable_app ].
Qed.

(** ** The array of [Strs] *)







(** ** A clock before 2001-09-09 *)

Lemma lookup_store_outside (k : nat) (i : Z) (xs b : bytes) :
  0 <= i -> (Z.of_nat k < i \/ i + len xs <= Z.of_nat k) ->
  store i xs b !! k = b !! k.
Proof.
  revert i b. induction xs as [|x xs IH]; intros i b Hi Hk;
    cbn [store]; [reflexivity|].
  unfold len in Hk. cbn [length] in Hk.
  rewrite IH by (unfold len; lia).
  unfold set_buf. apply list_lookup_insert_ne. lia.
Qed.

(** The digits of a number below a power of ten. *)
Lemma digits_count (d : Z) (m : nat) :
  0 <= d < 10 ^ Z.of_nat m ->
  exists n : nat,
    (n <= m)%nat /\
    (n = 0%nat /\ d = 0 \/
     (0 < n)%nat /\ 10 ^ (Z.of_nat n - 1) <= d < 10 ^ Z.of_nat n).
Proof.
  intros Hd.
  destruct (put_digits_run (dec_fuel d) d 0 0 []) as (n & Hlt & Hge & _).
  { split; [lia|]. apply dec_fuel_enough. lia. }
  exists n. split.
  - destruct Hge as [->|Hge]; [lia|].
    assert (Z.of_nat n - 1 < Z.of_nat m); [|lia].
    apply (Z.pow_lt_mono_r_iff 10); lia.
  - destruct Hge as [->|Hge].
    + left. split; [reflexivity|]. cbn in Hlt. lia.
    + destruct n as [|n].
      * left. split; [reflexivity|]. cbn in Hlt. lia.
      * right. split; [lia|]. split; assumption.
Qed.

(** X14. [jheader] drops the index that [timestamp] returns. When the
    seconds of the clock have fewer than ten digits, the byte 48 of the
    header, where the value of "timestamp" starts, is the byte that the
    array of the pooled object held before the call. *)
Theorem jheader_early_clock (g : Globals) (now : Time) (j : Json)
    (s : severity) (level : Z) (file : bytes) (line : Z) :
  (65 <= length (jbuf j))%nat ->
  0 <= t_unix now < 10 ^ 9 ->
  0 <= t_nanosecond now < 10 ^ 9 ->
  at_ (jp (jheader g now j s level file line)) 48 = at_ (jbuf j) 48.
Proof.
  intros Hb Hu Hns. unfold at_. rewrite !nth_lookup. f_equal.
  change (Z.to_nat 48) with 48%nat.
  destruct (digits_count (t_unix now) 9 Hu) as (n & Hn & Hcount).
  unfold jheader.
  destruct (t_offset now >? 0); cbv zeta.
  all: rewrite (timestamp_run n 48 now) by (assumption || lia).
  all: cbn [jp]; unfold strconv.AppendInt.
  all: destruct (JVersion g) as [|v vs]; cbn [is_empty negb].
  all: repeat rewrite <- app_assoc.
  all: rewrite lookup_app_l by
         (rewrite length_take; unfold twoDigits, set_buf;
          repeat (rewrite store_length || rewrite length_insert); lia).
  all: rewrite lookup_take_lt by lia.
  all: rewrite lookup_store_outside by lia.
  all: rewrite lookup_store_outside by
         first [lia | right; cbv; discriminate].
  all: unfold twoDigits, set_buf.
  all: rewrite !list_lookup_insert_ne by lia.
  all: apply lookup_store_outside; first [lia | right; cbv; discriminate].
Qed.

(** ** Writes happen under the mutex *)

Lemma holds_ret {A} (status : Z) (a : A) : holds_lock status (ret a).
Proof.
  intros w. exists []. cbn. rewrite app_nil_r. repeat split. constructor.
Qed.

Lemma holds_get {A} (status : Z) (f : world -> A) :
  holds_lock status (get f).
Proof.
  intros w. exists []. cbn. rewrite app_nil_r. repeat split. constructor.
Qed.

Lemma holds_emit (status : Z) (e : event) :
  no_lock e -> holds_lock status (emit e).
Proof.
  intros He w. exists [e]. cbn. repeat split; try apply He.
  constructor; [exact He|constructor].
Qed.

Lemma holds_bind {A B} (status : Z) (m : M A) (k : A -> M B) :
  holds_lock status m -> (forall a, holds_lock status (k a)) ->
  holds_lock status (bind m k).
Proof.
  intros Hm Hk w. unfold bind.
  destruct (Hm w) as (e1 & H1 & F1 & X1).
  destruct (m w) as [a w1|c w1|w1]; cbn [final] in *.
  - destruct (Hk a w1) as (e2 & H2 & F2 & X2).
    exists (e1 ++ e2). split; [rewrite H2, H1, app_assoc; reflexivity|].
    split; [apply Forall_app; split; assumption|].
    destruct (k a w1) as [b w2|c w2|w2]; try exact I.
    destruct X2 as (Hc & pre & err & ->).
    split; [exact Hc|]. exists (e1 ++ pre), err. apply app_assoc.
  - exists e1. split; [exact H1|]. split; [exact F1|exact X1].
  - exists e1. split; [exact H1|]. split; [exact F1|exact I].
Qed.

Lemma holds_when (status : Z) (c : bool) (m : M unit) :
  holds_lock status m -> holds_lock status (when c m).
Proof. destruct c; cbn; intros H; [exact H|apply holds_ret]. Qed.

Lemma holds_Stderr_Write (status : Z) (d : bytes) :
  holds_lock status (Stderr_Write d).
Proof. apply holds_emit. split; discriminate. Qed.

Lemma holds_file_Write (status : Z) (s : severity) (d : bytes) :
  holds_lock status (file_Write s d).
Proof.
  intros w. unfold file_Write. destruct (l_file (logging w) s).
  - apply holds_emit. split; discriminate.
  - exists []. cbn. rewrite app_nil_r. repeat split. constructor.
Qed.

Lemma holds_set_logExitFunc (status : Z) : holds_lock status set_logExitFunc.
Proof.
  intros w. exists []. cbn. rewrite app_nil_r. repeat split. constructor.
Qed.

Lemma holds_fan_out (status : Z) (s : severity) (d : bytes) :
  holds_lock status (fan_out s d).
Proof.
  destruct s; cbn [fan_out];
    repeat first [apply holds_file_Write | apply holds_bind; [|intros ?]].
Qed.

Lemma holds_write_trace (status : Z) (tr : bytes) :
  holds_lock status (write_trace tr).
Proof.
  unfold write_trace. cbn [fold_right].
  repeat first
    [ apply holds_ret | apply holds_get | apply holds_file_Write
    | apply holds_when | apply holds_bind; [|intros ?] ].
Qed.

Lemma bind_run {A B} (m : M A) (k : A -> M B) (w : world) :
  bind m k w = match m w with
               | Returned a w1 => k a w1
               | Exited c w1 => Exited c w1
               | Panicked w1 => Panicked w1
               end.
Proof. reflexivity. Qed.

(** Closes the case of a run that ended under the mutex, by an exit
    or a panic, with the events [evs] after the lock. *)
Ltac died evs X :=
  exists evs, []; cbn [final];
  match goal with
  | H : trace ?w1 = _ |- context [trace ?w1] => rewrite H
  end;
  match goal with
  | H : trace _ = trace _ ++ [EvLock] |- _ => rewrite H
  end;
  rewrite <- ?app_assoc, ?app_nil_r; cbn [app];
  (split; [reflexivity|]); (split; [assumption|]);
  first
    [ reflexivity
    | right; destruct X as (? & ? & ? & ->);
      split; [reflexivity|]; split; [assumption|];
      rewrite ?app_assoc; eauto ].


Section Mutex.

Variable stacks : bool -> bytes.
Variable createFiles :
  severity -> loggingT -> option bytes * loggingT * list event.
Variable exit_status : Z.

(** [createFiles] does not touch the mutex: its caller holds it. *)
Hypothesis createFiles_no_lock :
  forall t l, Forall no_lock (createFiles t l).2.

Lemma holds_exit (err : bytes) :
  holds_lock exit_status (@exit exit_status err).
Proof.
  intros w. exists [EvExit err]. cbn. split; [reflexivity|].
  split; [constructor; [split; discriminate|constructor]|].
  split; [reflexivity|]. exists [], err. reflexivity.
Qed.

Lemma holds_createFiles_M (s : severity) :
  holds_lock exit_status (createFiles_M createFiles s).
Proof using createFiles_no_lock.
  intros w. unfold createFiles_M.
  pose proof (createFiles_no_lock s (logging w)) as H.
  destruct (createFiles s (logging w)) as [[err l'] evs].
  exists evs. cbn in *. repeat split. exact H.
Qed.

Local Abbreviation outputj' := (outputj stacks createFiles exit_status).

(** X17. Every write of the sink happens while the mutex is held, on
    every path: the run is the lock, then events that are neither lock
    nor unlock, then nothing more, or the unlock, or the unlock and the
    flush. A call that returns has unlocked once, as its last event,
    and its severity is below FATAL; a call that ends the process by
    [os.Exit] has unlocked and flushed and is a FATAL one, with status
    1 or 255; a call that ends it inside [l.exit], or that panics on a
    file that is not open, still holds the mutex. [createFiles] is
    assumed not to touch the mutex. *)
Theorem outputj_writes_under_lock (s : severity) (buf : Json) (file : bytes)
    (line : Z) (also : bool) (w : world) :
  exists held after,
    trace (final (outputj' s buf file line also w))
    = trace w ++ [EvLock] ++ held ++ after /\
    Forall no_lock held /\
    match outputj' s buf file line also w with
    | Returned _ _ => after = [EvUnlock] /\ s <> fatalLog
    | Exited c _ =>
        (after = [EvUnlock; EvFlush 10] /\ s = fatalLog /\
         (c = 1 \/ c = 255)) \/
        (after = [] /\ c = exit_status /\
         exists pre err, held = pre ++ [EvExit err])
    | Panicked _ => after = []
    end.
Proof using createFiles_no_lock.
  unfold outputj.
  change (bind Lock ?k w) with (k tt (with_trace w (trace w ++ [EvLock]))).
  cbv beta.
  set (w0 := with_trace w (trace w ++ [EvLock])).
  change (bind (get logging) ?k w0) with (k (logging w0) w0). cbv beta zeta.
  change (bind (get flag_Parsed) ?k w0) with (k (flag_Parsed w0) w0).
  cbv beta.
  match goal with
  | |- context [bind ?A ?B w0] =>
      assert (HA : holds_lock exit_status A);
      [|set (writes := A) in *; set (tail := B) in *]
  end.
  { repeat first
      [ apply holds_ret | apply holds_Stderr_Write | apply holds_fan_out
      | apply holds_exit | apply holds_createFiles_M
      | apply holds_when
      | apply holds_bind; [|intros ?]
      | match goal with
        | |- holds_lock _ (if ?c then _ else _) => destruct c
        | |- holds_lock _ (match ?x with _ => _ end) => destruct x
        end ]. }
  rewrite !(bind_run writes tail w0).
  destruct (HA w0) as (e1 & H1 & F1 & X1).
  assert (Hw0 : trace w0 = trace w ++ [EvLock]) by (destruct w; reflexivity).
  destruct (writes w0) as [[] w1|c w1|w1]; cbn [final] in H1;
    [|died e1 X1|died e1 X1].
  subst tail. cbv beta.
  destruct (decide (s = fatalLog)) as [Hs|Hs].
  - change (bind (get fatalNoStacks) ?k w1) with (k (fatalNoStacks w1) w1).
    cbv beta.
    destruct (fatalNoStacks w1 >? 0).
    + exists e1, [EvUnlock; EvFlush 10]. cbn.
      rewrite H1, Hw0, <- !app_assoc. cbn. split; [reflexivity|].
      split; [exact F1|]. left. auto.
    + change (bind (when false ?m) ?k w1) with (k tt w1). cbv beta.
      change (bind (get logging) ?k w1) with (k (logging w1) w1).
      cbv beta.
      match goal with
      | |- context [bind ?A ?B w1] =>
          rewrite !(bind_run A B w1);
          destruct (holds_when exit_status
                      (negb (toStderr (logging w1))) _
                      (holds_Stderr_Write exit_status (stacks false)) w1)
            as (e2 & H2 & F2 & X2)
      end.
      destruct (when (negb (toStderr (logging w1)))
                  (Stderr_Write (stacks false)) w1) as [[] w2|c w2|w2];
        cbn [final] in H2;
        [|rewrite H1 in H2; rewrite <- app_assoc in H2;
          pose proof (proj2 (Forall_app _ _ _) (conj F1 F2)) as F12;
          died (e1 ++ e2) X2..].
      change (bind set_logExitFunc ?k w2) with (k tt (with_logExitFunc w2 true)).
      cbv beta.
      match goal with
      | |- context [bind ?A ?B ?w'] =>
          rewrite !(bind_run A B w');
          destruct (holds_write_trace exit_status (stacks true) w')
            as (e3 & H3 & F3 & X3)
      end.
      assert (F123 : Forall no_lock (e1 ++ e2 ++ e3))
        by (repeat (apply Forall_app; split); assumption).
      assert (H123 : forall w3,
                trace w3 = trace (with_logExitFunc w2 true) ++ e3 ->
                trace w3 = trace w0 ++ e1 ++ e2 ++ e3).
      { intros w3 ->. destruct w2. cbn in *. rewrite H2, H1, <- !app_assoc.
        reflexivity. }
      destruct (write_trace (stacks true) (with_logExitFunc w2 true))
        as [[] w3|c w3|w3]; cbn [final] in H3; apply H123 in H3;
        [|died (e1 ++ e2 ++ e3) X3..].
      exists (e1 ++ e2 ++ e3), [EvUnlock; EvFlush 10].
      unfold bind, Unlock, timeoutFlush, emit, os_Exit.
      cbn [final trace with_trace].
      rewrite H3, Hw0, <- !app_assoc. cbn [app].
      split; [reflexivity|]. split; [exact F123|]. left. auto.
  - exists e1, [EvUnlock].
    unfold bind, jbufpool_Put, Unlock, emit, add_stats. cbn.
    destruct (severityStats w1 s); cbn;
      rewrite H1, Hw0, <- !app_assoc; cbn;
      (split; [reflexivity|]); (split; [exact F1|]); split;
      [reflexivity|exact Hs|reflexivity|exact Hs].
Qed.

End Mutex.

(** ** The two tables *)

Lemma htmlSafeSet_safeSet (b : Z) : htmlSafeSet b = true -> safeSet b = true.
Proof.
  intros H. exact (table_forall safeSet htmlSafeSet_true b eq_refl H).
Qed.

Lemma printable_ascii (b : Z) :
  32 <= b <= 127 -> In b (map Z.of_nat (seq 32 96)).
Proof.
  intros H. apply in_map_iff. exists (Z.to_nat b). split; [lia|].
  apply in_seq. lia.
Qed.

Lemma safeSet_complete (b : Z) :
  32 <= b <= 127 -> b <> dq -> b <> bsl -> safeSet b = true.
Proof.
  intros H Hq Hb. apply printable_ascii in H.
  cbv [map seq Z.of_nat Pos.of_succ_nat Pos.succ] in H.
  repeat (destruct H as [<-|H];
          [first [reflexivity | contradiction Hq; reflexivity
                 | contradiction Hb; reflexivity]|]).
  destruct H.
Qed.

Lemma htmlSafeSet_complete (b : Z) :
  safeSet b = true -> no_html b -> htmlSafeSet b = true.
Proof.
  intros Hs (H1 & H2 & H3).
  pose proof (safeSet_ascii b Hs) as Hlt.
  destruct (safeSet_raw b Hs) as (Hlo & _ & _).
  assert (H : 32 <= b <= 127) by lia. apply printable_ascii in H.
  cbv [map seq Z.of_nat Pos.of_succ_nat Pos.succ] in H.
  repeat (destruct H as [<-|H];
          [first [reflexivity | discriminate Hs
                 | contradiction H1; reflexivity
                 | contradiction H2; reflexivity
                 | contradiction H3; reflexivity]|]).
  destruct H.
Qed.

(** X18. The tables are what their comments say: [safeSet] holds
    exactly the bytes from 32 to 127 other than the quote and the
    backslash, and [htmlSafeSet] holds exactly the bytes of [safeSet]
    other than <, > and &. *)
Theorem escape_tables (b : Z) :
  (safeSet b = true <-> 32 <= b <= 127 /\ b <> dq /\ b <> bsl) /\
  (htmlSafeSet b = true <-> safeSet b = true /\ no_html b).
Proof.
  split; split.
  - intros H. pose proof (safeSet_ascii b H).
    destruct (safeSet_raw b H) as (Hlo & Hq & Hb).
    repeat split; (lia || assumption).
  - intros (H & Hq & Hb). apply safeSet_complete; assumption.
  - intros H. split; [apply htmlSafeSet_safeSet, H|].
    apply htmlSafeSet_raw, H.
  - intros [Hs Hn]. apply htmlSafeSet_complete; assumption.
Qed.

(** ** HTML escaping only concerns three characters *)

Lemma html_test_agrees (b : Z) (e : bool) :
  no_html b ->
  htmlSafeSet b || (negb e && safeSet b) = safeSet b.
Proof.
  intros Hn. destruct (safeSet b) eqn:Hs.
  - rewrite (htmlSafeSet_complete b Hs Hn). reflexivity.
  - destruct (htmlSafeSet b) eqn:Hh.
    + apply htmlSafeSet_safeSet in Hh. congruence.
    + rewrite andb_false_r. reflexivity.
Qed.

Lemma string_step_html (t : bytes) (i start : Z) (p : bytes) :
  Forall no_html t -> 0 <= i < len t ->
  string_step t true i start p = string_step t false i start p.
Proof.
  intros Ht Hi. unfold string_step.
  assert (Hn : no_html (at_ t i)).
  { rewrite List.Forall_forall in Ht. apply Ht, at_In, Hi. }
  rewrite (html_test_agrees _ true Hn), (html_test_agrees _ false Hn).
  reflexivity.
Qed.

Lemma string_loop_html (fuel : nat) (t : bytes) :
  Forall no_html t ->
  forall i start p, 0 <= i ->
    string_loop fuel t true i start p = string_loop fuel t false i start p.
Proof.
  intros Ht. induction fuel as [|fuel IH]; intros i start p Hi;
    cbn [string_loop]; [reflexivity|].
  destruct (i <? len t) eqn:E; [|reflexivity]. bool_hyps.
  rewrite string_step_html by (assumption || lia).
  pose proof (string_step_advance t false i start p) as Hadv.
  destruct (string_step t false i start p) as [[i' start'] p'].
  apply IH. cbn in Hadv. lia.
Qed.

(** X19. The flag [escapeHTML] only concerns the characters <, > and
    &: on a text without them [string] appends the same bytes with the
    flag set and cleared, whatever else the text holds. *)
Theorem escapeHTML_concerns_three_characters (t p : bytes) :
  Forall no_html t -> string t true p = string t false p.
Proof.
  intros Ht. unfold string.
  rewrite (string_loop_html (length t) t Ht) by lia. reflexivity.
Qed.

(** ** From the constructor to the file *)

Lemma add_field_with_p (g : Globals) (j : Json) (f : field) :
  exists p, add_field g (Some j) f = Some (with_p j p).
Proof. destruct f; eexists; reflexivity. Qed.

Lemma build_with_p (g : Globals) (fs : list field) :
  forall j, exists p, build g (Some j) fs = Some (with_p j p).
Proof.
  induction fs as [|f fs IH]; intros j.
  - exists (jp j). destruct j. reflexivity.
  - destruct (add_field_with_p g j f) as (p & Hp).
    destruct (IH (with_p j p)) as (q & Hq).
    exists q. unfold build in *. cbn [fold_left]. rewrite Hp, Hq.
    reflexivity.
Qed.

Lemma Msg_bytes_one_line (p t : bytes) :
  printable p ->
  exists text, Msg_bytes p t = text ++ [10] /\ printable text.
Proof.
  intros Hp. unfold Msg_bytes. eexists. split.
  - change [ch "}"; 10] with ([ch "}"] ++ [10]).
    rewrite app_assoc. reflexivity.
  - apply printable_app; [|apply printable_check; reflexivity].
    destruct t as [|b t]; cbn [is_empty negb]; [exact Hp|].
    rewrite string_app.
    repeat first
      [ assumption
      | apply string_printable
      | apply printable_check; reflexivity
      | apply printable_app ].
Qed.

Section EndToEnd.

Variable stacks : bool -> bytes.
Variable createFiles :
  severity -> loggingT -> option bytes * loggingT * list event.
Variable exit_status : Z.
Variable setV : Z -> loggingT -> Z * loggingT.
Variable g : Globals.

Set Default Proof Using "Type".

(** An INFO record in file mode with the INFO file open and no trace
    location. *)
Lemma outputj_info_run (buf : Json) (file : bytes) (line : Z) (w : world) :
  flag_Parsed w = true -> toStderr (logging w) = false ->
  l_file (logging w) infoLog = true ->
  tl_isSet (l_traceLocation (logging w)) = false ->
  exists w',
    outputj stacks createFiles exit_status infoLog buf file line false w
    = Returned tt w' /\
    trace w' =
      trace w ++ [EvLock]
      ++ (if alsoToStderr (logging w)
             || (sevnum infoLog >=? sevnum (stderrThreshold (logging w)))
          then [EvStderr (jp buf)] else [])
      ++ [EvFile infoLog (jp buf); EvUnlock].
Proof.
  intros Hparsed Hmode Hopen Htl.
  destruct w as [l parsed noStacks lef now pool st tr].
  destruct l as [ts als thr tl lf vb fl vm].
  destruct tl as [isSet mtch].
  cbn in Hparsed, Hmode, Hopen, Htl. subst parsed ts isSet.
  run_sink. unfold record_data. simp_world. cbn [tl_isSet andb jp with_p].
  rewrite Hopen. cbn [negb orb]. simp_world.
  destruct (als || (sevnum infoLog >=? sevnum thr)); simp_world;
    rewrite Hopen; simp_world;
    (destruct (decide _) as [Heq|_]; [discriminate Heq|]); simp_world;
    destruct (st infoLog); simp_world;
    (eexists; split; [reflexivity|]); simp_world;
    rewrite <- !app_assoc; reflexivity.
Qed.

(** X20. From the constructor to the file. In file mode, with flags
    parsed, the INFO file open, no trace location and a pool of objects
    of severity INFO: the handle of any constructor, for any severity
    asked for, FATAL included, extended by any chain of [Int64],
    [Uint64], [Bool], [Str] and [Err] and completed by [Msg], makes the
    sink return after the lock, the echo on standard error when the
    threshold asks for it, one write to the INFO file and the unlock;
    what is written is one JSON text on one line, when the host, the
    version, the prefix, the file name and the field names need no
    escaping. *)
Theorem record_end_to_end (caller : option (bytes * Z)) (callers : list Z)
    (s : severity) (level : Z) (fs : list field) (t : bytes)
    (w w1 : world) (j : Json) :
  Forall (fun j0 => js j0 = infoLog /\ (65 <= length (jbuf j0))%nat)
         (jbufpool w) ->
  Time_ok (timeNow w) ->
  plain (JVersion g) -> plain (host g) -> plain (JFieldPrefix g) ->
  plain (call_site caller).1 ->
  Forall (fun f => plain (field_name f)) fs ->
  json setV g caller callers s level w = Returned (Some j) w1 ->
  flag_Parsed w1 = true ->
  toStderr (logging w1) = false ->
  l_file (logging w1) infoLog = true ->
  tl_isSet (l_traceLocation (logging w1)) = false ->
  let data := finish (build g (Some j) fs) t in
  exists w2,
    Msg stacks createFiles exit_status (build g (Some j) fs) t w1
    = Returned tt w2 /\
    trace w2 =
      trace w1 ++ [EvLock]
      ++ (if alsoToStderr (logging w1)
             || (sevnum infoLog >=? sevnum (stderrThreshold (logging w1)))
          then [EvStderr data] else [])
      ++ [EvFile infoLog data; EvUnlock] /\
    valid data /\
    exists text, data = text ++ [10] /\ printable text.
Proof.
  intros Hpool Hnow Hver Hhost Hpre Hfile Hfs Hjson Hparsed Hmode Hopen Htl
         data.
  destruct (json_effects setV g caller callers s level w)
    as (r & w' & Hrun & _ & Hr & _).
  rewrite Hjson in Hrun. injection Hrun as <- <-.
  destruct Hr as [Hj _].
  assert (Hhead : js (hd new_Json (jbufpool w)) = infoLog /\
                  (65 <= length (jbuf (hd new_Json (jbufpool w))))%nat).
  { destruct (jbufpool w) as [|j0 pool]; cbn [hd].
    - split; [reflexivity|]. cbn [jbuf new_Json].
      rewrite repeat_length. lia.
    - apply List.Forall_inv in Hpool. exact Hpool. }
  destruct Hhead as [Hjs0 Hlen].
  assert (Hjs : js j = infoLog).
  { rewrite Hj, (proj1 (jheader_keeps_routing _ _ _ _ _ _ _)). exact Hjs0. }
  assert (Hp : jp j = header_text g (timeNow w) s (call_site caller).1
                        (call_site caller).2).
  { rewrite Hj. apply jheader_layout; [exact Hlen|apply Hnow..]. }
  destruct (build_with_p g fs j) as (p & Hbuild).
  destruct (build_open g fs Hpre Hfs j) as (j1 & H1 & Hopen1).
  { rewrite Hp. apply header_text_open; assumption. }
  destruct (build_printable g fs Hpre Hfs j) as (j2 & H2 & Hprint).
  { rewrite Hp. apply header_text_printable; assumption. }
  rewrite Hbuild in H1, H2. injection H1 as <-. injection H2 as <-.
  subst data. rewrite Hbuild. cbn [finish Msg].
  cbn [js jfile jline jp with_p]. rewrite Hjs.
  cbn [jp with_p] in Hopen1, Hprint.
  destruct (outputj_info_run
              (with_p (with_p j p) (Msg_bytes (jp (with_p j p)) t))
              (jfile j) (jline j) w1 Hparsed Hmode Hopen Htl)
    as (w2 & Hout & Htr).
  exists w2. split; [exact Hout|]. split; [exact Htr|].
  split; [apply Msg_bytes_valid, Hopen1|].
  apply Msg_bytes_one_line, Hprint.
Qed.

End EndToEnd.

(** ** The properties at sample values *)

(** The sample text, encoded with HTML escaping, reads back. *)
Lemma string_round_trip_witness :
  exists body,
    string sample_text true [] = dq :: body ++ [dq] /\
    unescape body = Some sample_text.
Proof.
  apply (string_round_trip sample_text true).
  unfold sample_text.
  apply valid_ascii; [lia|].
  apply valid_ascii; [lia|].
  apply valid_ascii; [lia|].
  apply (valid_rune 226 [128; 168; 195; 169] 8232 3);
    [lia|reflexivity|reflexivity|].
  apply (valid_rune 195 [169] 233 2); [lia|reflexivity|reflexivity|].
  apply valid_nil.
Defined.

(** An ERROR record built by [JError()] and finished by [Msg] reaches
    the INFO file only. *)
Lemma json_records_are_routed_as_INFO_witness :
  js (jheader Sample.g Sample.now new_Json errorLog 0 (lit "main.go") 42)
  = infoLog /\
  Forall (fun j0 => js j0 = infoLog) (jbufpool Sample.w) /\
  exists w2 evs,
    Msg Sample.stacks Sample.createFiles 2
        (Some (jheader Sample.g Sample.now new_Json errorLog 0
                       (lit "main.go") 42))
        (lit "disk full") Sample.w
    = Returned tt w2 /\
    trace w2 = trace Sample.w ++ evs /\
    forall tier,
      file_writes tier evs =
        if decide (tier = infoLog)
        then [record_data Sample.stacks (logging Sample.w)
                (with_p (jheader Sample.g Sample.now new_Json errorLog 0
                                 (lit "main.go") 42)
                   (Msg_bytes
                      (jp (jheader Sample.g Sample.now new_Json errorLog 0
                                   (lit "main.go") 42))
                      (lit "disk full")))
                (jfile (jheader Sample.g Sample.now new_Json errorLog 0
                                (lit "main.go") 42))
                (jline (jheader Sample.g Sample.now new_Json errorLog 0
                                (lit "main.go") 42))]
        else [].
Proof.
  apply (json_records_are_routed_as_INFO Sample.stacks Sample.createFiles 2
           Sample.setV Sample.g (Some (lit "/src/app/main.go", 42)) [4096]
           errorLog 0 (lit "disk full") Sample.w Sample.w).
  - constructor.
  - vm_compute. reflexivity.
  - reflexivity.
  - reflexivity.
  - reflexivity.
Defined.

(** An ERROR record in file mode with the four files open. *)
Lemma outputj_file_mode_run_witness :
  exists w',
    outputj Sample.stacks Sample.createFiles 2 errorLog Sample.handle
            (lit "main.go") 42 false Sample.w
    = Returned tt w' /\
    trace w' =
      trace Sample.w ++ [EvLock]
      ++ (if false || alsoToStderr (logging Sample.w)
             || (sevnum errorLog
                 >=? sevnum (stderrThreshold (logging Sample.w)))
          then [EvStderr (record_data Sample.stacks (logging Sample.w)
                            Sample.handle (lit "main.go") 42)]
          else [])
      ++ map (fun t => EvFile t (record_data Sample.stacks (logging Sample.w)
                                   Sample.handle (lit "main.go") 42))
             (tiers_down errorLog)
      ++ [EvUnlock] /\
    logging w' = logging Sample.w /\
    jbufpool w' =
      with_p Sample.handle
        (record_data Sample.stacks (logging Sample.w) Sample.handle
           (lit "main.go") 42)
      :: jbufpool Sample.w /\
    forall t,
      severityStats w' t =
        if decide (t = errorLog)
        then option_map
               (count_line
                  (len (record_data Sample.stacks (logging Sample.w)
                          Sample.handle (lit "main.go") 42)))
               (severityStats Sample.w errorLog)
        else severityStats Sample.w t.
Proof.
  apply (outputj_file_mode_run Sample.stacks Sample.createFiles 2 errorLog
           Sample.handle (lit "main.go") 42 false Sample.w).
  - discriminate.
  - reflexivity.
  - reflexivity.
  - intros t _. reflexivity.
Defined.

(** A WARNING record in stderr-only mode. *)
Lemma outputj_stderr_only_run_witness :
  exists w',
    outputj Sample.stacks Sample.createFiles 2 warningLog Sample.handle
            (lit "main.go") 42 false sample_w_stderr
    = Returned tt w' /\
    trace w' =
      trace sample_w_stderr
      ++ [EvLock;
          EvStderr (record_data Sample.stacks (logging sample_w_stderr)
                      Sample.handle (lit "main.go") 42);
          EvUnlock] /\
    logging w' = logging sample_w_stderr /\
    jbufpool w' =
      with_p Sample.handle
        (record_data Sample.stacks (logging sample_w_stderr) Sample.handle
           (lit "main.go") 42)
      :: jbufpool sample_w_stderr.
Proof.
  apply (outputj_stderr_only_run Sample.stacks Sample.createFiles 2
           warningLog Sample.handle (lit "main.go") 42 false
           sample_w_stderr).
  - discriminate.
  - reflexivity.
  - reflexivity.
Defined.

(** An ERROR record in file mode with no file open yet. *)
Lemma outputj_creates_files_witness :
  exists w',
    outputj Sample.stacks Sample.createFiles 2 errorLog Sample.handle
            (lit "main.go") 42 false Sample.w_nofile
    = Returned tt w' /\
    trace w' =
      trace Sample.w_nofile ++ [EvLock]
      ++ (if false || alsoToStderr (logging Sample.w_nofile)
             || (sevnum errorLog
                 >=? sevnum (stderrThreshold (logging Sample.w_nofile)))
          then [EvStderr (record_data Sample.stacks
                            (logging Sample.w_nofile) Sample.handle
                            (lit "main.go") 42)]
          else [])
      ++ []
      ++ map (fun t => EvFile t (record_data Sample.stacks
                                   (logging Sample.w_nofile) Sample.handle
                                   (lit "main.go") 42))
             (tiers_down errorLog)
      ++ [EvUnlock] /\
    logging w' =
      snd (fst (Sample.createFiles errorLog (logging Sample.w_nofile))).
Proof.
  apply (outputj_creates_files Sample.stacks Sample.createFiles 2 errorLog
           Sample.handle (lit "main.go") 42 false Sample.w_nofile
           (snd (fst (Sample.createFiles errorLog
                        (logging Sample.w_nofile)))) []).
  - discriminate.
  - reflexivity.
  - reflexivity.
  - reflexivity.
  - reflexivity.
  - intros t Ht. destruct t; try reflexivity.
    unfold sev_le in Ht. cbn in Ht. lia.
Defined.

(** The timestamp of the sample time. *)
Lemma timestamp_layout_witness :
  timestamp 48 Sample.now (jbuf new_Json)
  = (48, store 48 (dec 10 (t_unix Sample.now) ++ [ch "."]
                   ++ dec 6 (Z.quot (t_nanosecond Sample.now) 1000))
               (jbuf new_Json)).
Proof.
  apply (timestamp_layout 48 Sample.now (jbuf new_Json)).
  - lia.
  - cbn. lia.
  - cbn. lia.
Defined.

(** The header of the sample handle. *)
Lemma jheader_text_witness :
  jp (jheader Sample.g Sample.now new_Json infoLog 0 (lit "main.go") 42)
  = header_text Sample.g Sample.now infoLog (lit "main.go") 42.
Proof.
  apply (jheader_text Sample.g Sample.now new_Json infoLog 0
           (lit "main.go") 42).
  - cbn [jbuf new_Json]. rewrite repeat_length. lia.
  - unfold Time_ok. cbn. lia.
Defined.

(** With the clock five seconds after the epoch, the value of
    "timestamp" starts with the zero byte of the new array. *)
Lemma jheader_early_clock_witness :
  at_ (jp (jheader Sample.g sample_early new_Json infoLog 0
                   (lit "main.go") 42)) 48
  = at_ (jbuf new_Json) 48.
Proof.
  apply (jheader_early_clock Sample.g sample_early new_Json infoLog 0
           (lit "main.go") 42).
  - cbn [jbuf new_Json]. rewrite repeat_length. lia.
  - cbn. lia.
  - cbn. lia.
Defined.

(** A record with a field of each kind. *)
Lemma record_is_valid_JSON_witness :
  valid (finish (build Sample.g
                   (Some (jheader Sample.g Sample.now new_Json errorLog 0
                                  (lit "main.go") 42))
                   sample_fields)
                (lit "done")).
Proof.
  apply (record_is_valid_JSON Sample.g Sample.now new_Json errorLog 0
           (lit "main.go") 42 sample_fields (lit "done")).
  - cbn [jbuf new_Json]. rewrite repeat_length. lia.
  - unfold Time_ok. cbn. lia.
  - apply plain_check. reflexivity.
  - apply plain_check. reflexivity.
  - apply plain_check. reflexivity.
  - apply plain_check. reflexivity.
  - repeat (apply List.Forall_cons; [apply plain_check; reflexivity|]).
    apply List.Forall_nil.
Defined.

Lemma record_is_one_line_witness :
  exists text,
    finish (build Sample.g
              (Some (jheader Sample.g Sample.now new_Json errorLog 0
                             (lit "main.go") 42))
              sample_fields)
           (lit "done")
    = text ++ [10] /\ printable text.
Proof.
  apply (record_is_one_line Sample.g Sample.now new_Json errorLog 0
           (lit "main.go") 42 sample_fields (lit "done")).
  - cbn [jbuf new_Json]. rewrite repeat_length. lia.
  - unfold Time_ok. cbn. lia.
  - apply plain_check. reflexivity.
  - apply plain_check. reflexivity.
  - apply plain_check. reflexivity.
  - apply plain_check. reflexivity.
  - repeat (apply List.Forall_cons; [apply plain_check; reflexivity|]).
    apply List.Forall_nil.
Defined.

(** An ERROR record in file mode: the writes lie between the lock and
    the unlock. *)
Lemma outputj_writes_under_lock_witness :
  exists held after,
    trace (final (outputj Sample.stacks Sample.createFiles 2 errorLog
                          Sample.handle (lit "main.go") 42 false Sample.w))
    = trace Sample.w ++ [EvLock] ++ held ++ after /\
    Forall no_lock held /\
    match outputj Sample.stacks Sample.createFiles 2 errorLog Sample.handle
                  (lit "main.go") 42 false Sample.w with
    | Returned _ _ => after = [EvUnlock] /\ errorLog <> fatalLog
    | Exited c _ =>
        (after = [EvUnlock; EvFlush 10] /\ errorLog = fatalLog /\
         (c = 1 \/ c = 255)) \/
        (after = [] /\ c = 2 /\
         exists pre err, held = pre ++ [EvExit err])
    | Panicked _ => after = []
    end.
Proof.
  apply (outputj_writes_under_lock Sample.stacks Sample.createFiles 2).
  intros t l. cbn. constructor.
Defined.

(** A text without <, > and & is written the same with and without
    HTML escaping. *)
Lemma escapeHTML_concerns_three_characters_witness :
  string [104; 105; 34; 10] true [] = string [104; 105; 34; 10] false [].
Proof.
  apply (escapeHTML_concerns_three_characters [104; 105; 34; 10] []).
  repeat (apply List.Forall_cons; [repeat split; discriminate|]).
  apply List.Forall_nil.
Defined.

(** [JFatal()] at /src/app/main.go:42, a field of each kind and
    [Msg]: the record is one line of JSON in the INFO file, and the
    call returns. *)
Lemma record_end_to_end_witness :
  let j := jheader Sample.g Sample.now new_Json fatalLog 0
                   (lit "main.go") 42 in
  let data := finish (build Sample.g (Some j) sample_fields) (lit "done") in
  exists w2,
    Msg Sample.stacks Sample.createFiles 2
        (build Sample.g (Some j) sample_fields) (lit "done") Sample.w
    = Returned tt w2 /\
    trace w2 =
      trace Sample.w ++ [EvLock]
      ++ (if alsoToStderr (logging Sample.w)
             || (sevnum infoLog
                 >=? sevnum (stderrThreshold (logging Sample.w)))
          then [EvStderr data] else [])
      ++ [EvFile infoLog data; EvUnlock] /\
    valid data /\
    exists text, data = text ++ [10] /\ printable text.
Proof.
  apply (record_end_to_end Sample.stacks Sample.createFiles 2 Sample.setV
           Sample.g (Some (lit "/src/app/main.go", 42)) [4096] fatalLog 0
           sample_fields (lit "done") Sample.w Sample.w).
  - constructor.
  - unfold Time_ok. cbn. lia.
  - apply plain_check. reflexivity.
  - apply plain_check. reflexivity.
  - apply plain_check. reflexivity.
  - apply plain_check. reflexivity.
  - repeat (apply List.Forall_cons; [apply plain_check; reflexivity|]).
    apply List.Forall_nil.
  - vm_compute. reflexivity.
  - reflexivity.
  - reflexivity.
  - reflexivity.
  - reflexivity.
Defined.
